(** * The xv6 buffer cache (kernel/bio.c), bucketed variant

    A shallow embedding of [kernel/bio.c]: the pool of buffers is an array
    indexed by position, a [struct buf *] is an index into that array (or
    null), and every function of the file is a program in a small monad
    over the kernel state whose outcomes are: normal return, [panic], going
    to sleep on a buffer's sleep-lock, a loop that never ends, and a
    dereference outside the pool.

    The critical sections of the file are serialised by its spin-locks, so
    a call is executed as one atomic step; the spin-lock operations, the
    sleep-lock operations, the stores to [refcnt] and the disk transfers
    are recorded, in program order, in an event log. *)

From stdpp Require Import base option list gmap strings.
From Stdlib Require Import ZArith Lia.

Local Open Scope Z_scope.

(** ** Data model *)

(** [#define NBUCKET 13] *)
Definition NBUCKET : Z := 13.

(** [uint] is a 32-bit unsigned integer: arithmetic wraps modulo [2^32]. *)
Definition UINT_MOD : Z := 2 ^ 32.
Definition UINT_MAX : Z := UINT_MOD - 1.
Definition uint_wrap (z : Z) : Z := z mod UINT_MOD.
Global Arguments uint_wrap : simpl never.

(** The payload of a buffer. *)
Abbreviation block := (list Z).

(** A [struct buf *]: [None] is the null pointer, [Some i] is
    [&bcache.buf[i]]. *)
Abbreviation bufptr := (option nat).

(** Modelled from the spec: [struct buf] is declared in buf.h, which is not
    part of the sources at hand.  It has the fields [bio.c] uses: the
    identity [dev], [blockno], the flag [valid], the unsigned 32-bit counter
    [refcnt], the list pointers [prev], [next], the payload [data], and the
    sleep-lock [lock]: [None] when free, [Some p] when held by context
    [p]. *)
Record buf := Buf {
  valid : Z;
  dev : Z;
  blockno : Z;
  lock : option nat;
  refcnt : Z;
  prev : bufptr;
  next : bufptr;
  data : block
}.

Definition set_valid (v : Z) (b : buf) : buf :=
  Buf v (dev b) (blockno b) (lock b) (refcnt b) (prev b) (next b) (data b).
Definition set_dev (v : Z) (b : buf) : buf :=
  Buf (valid b) v (blockno b) (lock b) (refcnt b) (prev b) (next b) (data b).
Definition set_blockno (v : Z) (b : buf) : buf :=
  Buf (valid b) (dev b) v (lock b) (refcnt b) (prev b) (next b) (data b).
Definition set_lock (v : option nat) (b : buf) : buf :=
  Buf (valid b) (dev b) (blockno b) v (refcnt b) (prev b) (next b) (data b).
Definition set_refcnt (v : Z) (b : buf) : buf :=
  Buf (valid b) (dev b) (blockno b) (lock b) v (prev b) (next b) (data b).
Definition set_prev (v : bufptr) (b : buf) : buf :=
  Buf (valid b) (dev b) (blockno b) (lock b) (refcnt b) v (next b) (data b).
Definition set_next (v : bufptr) (b : buf) : buf :=
  Buf (valid b) (dev b) (blockno b) (lock b) (refcnt b) (prev b) v (data b).
Definition set_data (v : block) (b : buf) : buf :=
  Buf (valid b) (dev b) (blockno b) (lock b) (refcnt b) (prev b) (next b) v.

(** The spin-locks of the file. *)
Inductive spinlock :=
| PoolLock                       (* bcache.lock *)
| BucketLock (k : nat).          (* bcache.buckets[k].lock *)

(** What a call does besides updating buffers and bucket heads. *)
Inductive event :=
| EAcquire (l : spinlock)
| ERelease (l : spinlock)
| EAcquireSleep (b : nat) (p : nat)
| EReleaseSleep (b : nat)
| ERefcnt (b : nat) (v : Z)
| EDisk (b : nat) (write : bool).

(** The kernel state the file works on: [bcache.buf], the heads of
    [bcache.buckets], the disk behind [virtio_disk_rw], and the log. *)
Record state := State {
  bufs : list buf;
  heads : list bufptr;
  disk : gmap (Z * Z) block;
  log : list event
}.

Definition set_bufs (v : list buf) (s : state) : state :=
  State v (heads s) (disk s) (log s).
Definition set_heads (v : list bufptr) (s : state) : state :=
  State (bufs s) v (disk s) (log s).
Definition set_disk (v : gmap (Z * Z) block) (s : state) : state :=
  State (bufs s) (heads s) v (log s).
Definition emit (e : event) (s : state) : state :=
  State (bufs s) (heads s) (disk s) (log s ++ [e]).

(** ** The monad of kernel code *)

Inductive outcome (A : Type) : Type :=
| Ret (a : A) (s : state)          (* the call returned [a] *)
| Panic (msg : string) (s : state) (* [panic(msg)] was called in state [s] *)
| Sleep (b : nat) (s : state)      (* asleep in [acquiresleep(&b->lock)] *)
| Hang                             (* a loop that never terminates *)
| Wild.                            (* a pointer outside [bcache] was used *)
Arguments Ret {A} a s.
Arguments Panic {A} msg s.
Arguments Sleep {A} b s.
Arguments Hang {A}.
Arguments Wild {A}.

Definition M (A : Type) : Type := state → outcome A.

Definition ret {A} (a : A) : M A := λ s, Ret a s.

Definition bind {A B} (m : M A) (f : A → M B) : M B :=
  λ s, match m s with
       | Ret a s' => f a s'
       | Panic msg s' => Panic msg s'
       | Sleep b s' => Sleep b s'
       | Hang => Hang
       | Wild => Wild
       end.

Notation "x <- c ;; k" := (bind c (λ x, k))
  (at level 100, c at next level, right associativity).
Notation "c ;; k" := (bind c (λ _, k))
  (at level 100, right associativity).

Definition panic {A} (msg : string) : M A := λ s, Panic msg s.
Definition hang {A} : M A := λ _, Hang.
Definition wild {A} : M A := λ _, Wild.

(** Spin-locks: calls are atomic, so taking and dropping one only shows in
    the log. *)
Definition acquire (l : spinlock) : M unit := λ s, Ret tt (emit (EAcquire l) s).
Definition release (l : spinlock) : M unit := λ s, Ret tt (emit (ERelease l) s).

(** [*b] for reading. *)
Definition load (b : nat) : M buf :=
  λ s, match bufs s !! b with Some x => Ret x s | None => Wild end.

(** [b->field = ...]: the buffer at [b] becomes [f] of itself. *)
Definition store (b : nat) (f : buf → buf) : M unit :=
  λ s, match bufs s !! b with
       | Some _ => Ret tt (set_bufs (alter f b (bufs s)) s)
       | None => Wild
       end.

(** [b->refcnt = v]. *)
Definition store_refcnt (b : nat) (v : Z) : M unit :=
  store b (set_refcnt v) ;; λ s, Ret tt (emit (ERefcnt b v) s).

(** [bcache.buckets[k].head] and [bcache.buckets[k].head = h]. *)
Definition get_head (k : nat) : M bufptr :=
  λ s, match heads s !! k with Some h => Ret h s | None => Wild end.
Definition set_head (k : nat) (h : bufptr) : M unit :=
  λ s, match heads s !! k with
       | Some _ => Ret tt (set_heads (<[k := h]> (heads s)) s)
       | None => Wild
       end.

(** Modelled from the spec: the sleep-lock primitive of sleeplock.c, which
    is not part of the sources at hand.  [acquiresleep] takes a free lock
    for the calling context [p] and otherwise suspends the caller. *)
Definition acquiresleep (p : nat) (b : nat) : M unit :=
  x <- load b ;;
  match lock x with
  | None => store b (set_lock (Some p)) ;; λ s, Ret tt (emit (EAcquireSleep b p) s)
  | Some _ => λ s, Sleep b s
  end.

(** Modelled from the spec: [releasesleep] of sleeplock.c frees the lock. *)
Definition releasesleep (b : nat) : M unit :=
  store b (set_lock None) ;; λ s, Ret tt (emit (EReleaseSleep b) s).

(** Modelled from the spec: [holdingsleep] of sleeplock.c tells whether the
    calling context is the holder of the lock. *)
Definition holdingsleep (p : nat) (b : nat) : M bool :=
  x <- load b ;; ret (bool_decide (lock x = Some p)).

(** Modelled from the spec: the disk transfer [virtio_disk_rw(b, write)] of
    virtio_disk.c, which is not part of the sources at hand.  It moves the
    one block [(b->dev, b->blockno)] from the disk into [b->data], or from
    [b->data] to the disk when [write] is set. *)
Definition virtio_disk_rw (b : nat) (write : bool) : M unit :=
  x <- load b ;;
  (if write
   then λ s, Ret tt (set_disk (<[(dev x, blockno x) := data x]> (disk s)) s)
   else λ s, store b (set_data (default [] (disk s !! (dev x, blockno x)))) s)
  ;; λ s, Ret tt (emit (EDisk b write) s).

(** ** The functions of bio.c *)

(** [blockno % NBUCKET], as an index into [bcache.buckets]. *)
Definition bucket_of (blockno : Z) : nat := Z.to_nat (blockno mod NBUCKET).
Global Arguments bucket_of : simpl never.

(** A buffer of the pool before [binit]: zeroed static storage. *)
Definition buf0 : buf := Buf 0 0 0 None 0 None None [].

(** [binit]: every bucket's head is null and every sleep-lock is free.
    [NBUF] comes from param.h and is a parameter here. *)
Definition binit (NBUF : nat) (d : gmap (Z * Z) block) : state :=
  State (replicate NBUF buf0) (replicate (Z.to_nat NBUCKET) None) d [].

(** The outcome of the loop [for(b = bucket->head; b != 0; b = b->next)]
    of [bget]. *)
Inductive found :=
| Cached (b : nat)     (* left the loop at the buffer [b] *)
| Missing              (* reached the end of the list *)
| Endless              (* the list is cyclic and holds no match *)
| Dangling.            (* the list leads outside the pool *)

(** The loop itself.  It stores nothing until it finds its buffer, so it is
    a function of the pool.  [fuel] counts the buffers it may pass: a walk
    that passes as many buffers as the pool has and comes to one more is
    in a cycle ([bucket_find_fuel] below: more fuel changes nothing). *)
Fixpoint bucket_find (bs : list buf) (fuel : nat) (b : bufptr)
    (dv bn : Z) : found :=
  match b with
  | None => Missing
  | Some i =>
      match bs !! i with
      | None => Dangling
      | Some x =>
          match fuel with
          | O => Endless
          | S fuel' =>
              if (dev x =? dv) && (blockno x =? bn) then Cached i
              else bucket_find bs fuel' (next x) dv bn
          end
      end
  end.

(** The loop [for(b = bcache.buf; b < bcache.buf+NBUF; b++)] of [bget]
    up to its test: the first index at or after [i] whose [refcnt] is 0. *)
Fixpoint first_free (bs : list buf) (i : nat) : option nat :=
  match bs with
  | [] => None
  | x :: bs' => if refcnt x =? 0 then Some i else first_free bs' (S i)
  end.

Definition bget (p : nat) (dv bn : Z) : M nat :=
  let bucket := bucket_of bn in
  acquire (BucketLock bucket) ;;
  (* Is the block already cached? *)
  h <- get_head bucket ;;
  r <- (λ s, Ret (bucket_find (bufs s) (length (bufs s)) h dv bn) s) ;;
  match r with
  | Cached b =>
      x <- load b ;;
      store_refcnt b (uint_wrap (refcnt x + 1)) ;;
      release (BucketLock bucket) ;;
      acquiresleep p b ;;
      ret b
  | Endless => hang
  | Dangling => wild
  | Missing =>
      (* Not cached.  Recycle an unused buffer. *)
      acquire PoolLock ;;
      f <- (λ s, Ret (first_free (bufs s) 0) s) ;;
      match f with
      | Some b =>
          store_refcnt b 1 ;;
          release PoolLock ;;
          store b (set_dev dv) ;;
          store b (set_blockno bn) ;;
          store b (set_valid 0) ;;
          h <- get_head bucket ;;
          match h with
          | None =>
              store b (set_next None) ;;
              store b (set_prev None) ;;
              set_head bucket (Some b)
          | Some _ =>
              store b (set_prev None) ;;
              h' <- get_head bucket ;;
              store b (set_next h') ;;
              set_head bucket (Some b) ;;
              x <- load b ;;
              match next x with
              | Some n => store n (set_prev (Some b))
              | None => wild
              end
          end ;;
          release (BucketLock bucket) ;;
          acquiresleep p b ;;
          ret b
      | None => panic "bget: no buffers"
      end
  end.

Definition bread (p : nat) (dv bn : Z) : M nat :=
  b <- bget p dv bn ;;
  x <- load b ;;
  (if valid x =? 0
   then virtio_disk_rw b false ;; store b (set_valid 1)
   else ret tt) ;;
  ret b.

Definition bwrite (p : nat) (b : nat) : M unit :=
  held <- holdingsleep p b ;;
  (if negb held then panic "bwrite" else ret tt) ;;
  virtio_disk_rw b true.

Definition brelse (p : nat) (b : nat) : M unit :=
  x <- load b ;;
  let bucket := bucket_of (blockno x) in
  held <- holdingsleep p b ;;
  (if negb held then panic "brelse" else ret tt) ;;
  releasesleep b ;;
  acquire (BucketLock bucket) ;;
  x <- load b ;;
  (if negb (refcnt x =? 1)
   then store_refcnt b (uint_wrap (refcnt x - 1))
   else
     (match prev x with
      | Some pv => y <- load b ;; store pv (set_next (next y))
      | None => ret tt
      end) ;;
     (y <- load b ;;
      match next y with
      | Some nx => store nx (set_prev (prev y))
      | None => ret tt
      end) ;;
     (h <- get_head bucket ;;
      if bool_decide (h = Some b)
      then y <- load b ;; set_head bucket (next y)
      else ret tt) ;;
     store_refcnt b 0) ;;
  release (BucketLock bucket).

Definition bpin (b : nat) : M unit :=
  x <- load b ;;
  acquire (BucketLock (bucket_of (blockno x))) ;;
  x <- load b ;;
  store_refcnt b (uint_wrap (refcnt x + 1)) ;;
  x <- load b ;;
  release (BucketLock (bucket_of (blockno x))).

Definition bunpin (b : nat) : M unit :=
  x <- load b ;;
  acquire (BucketLock (bucket_of (blockno x))) ;;
  x <- load b ;;
  store_refcnt b (uint_wrap (refcnt x - 1)) ;;
  x <- load b ;;
  release (BucketLock (bucket_of (blockno x))).

(** ** Reading a state *)

(** The buffers the loop [for(b = h; b != 0; b = b->next)] passes through,
    at most [fuel] of them. *)
Fixpoint visited (bs : list buf) (fuel : nat) (b : bufptr) : list nat :=
  match b, fuel with
  | Some i, S fuel' =>
      match bs !! i with
      | Some x => i :: visited bs fuel' (next x)
      | None => []
      end
  | _, _ => []
  end.

(** Whether that loop reaches the null pointer. *)
Fixpoint closed (bs : list buf) (fuel : nat) (b : bufptr) : bool :=
  match b with
  | None => true
  | Some i =>
      match fuel with
      | O => false
      | S fuel' =>
          match bs !! i with
          | Some x => closed bs fuel' (next x)
          | None => false
          end
      end
  end.

(** The list of bucket [k], as a walk from its head sees it. *)
Definition bucket_list (s : state) (k : nat) : list nat :=
  visited (bufs s) (length (bufs s)) (default None (heads s !! k)).

(** The buffer [b] is attached to the list of bucket [k]. *)
Definition attached (s : state) (k : nat) (b : nat) : Prop :=
  b ∈ bucket_list s k.

(** The buffer [b] is on no bucket's list. *)
Definition detached (s : state) (b : nat) : Prop :=
  ∀ k, ¬ attached s k b.

(** The buffer at [b] carries the identity [(dv, bn)]. *)
Definition idmatch (bs : list buf) (b : nat) (dv bn : Z) : Prop :=
  ∃ x, bs !! b = Some x ∧ dev x = dv ∧ blockno x = bn.

Definition has_id (s : state) (b : nat) (dv bn : Z) : Prop :=
  idmatch (bufs s) b dv bn.

(** A request for [(dv, bn)] is a hit on [b]: [b] is attached to the list
    of the request's bucket and is the one buffer there with that
    identity. *)
Definition hit (s : state) (dv bn : Z) (b : nat) : Prop :=
  attached s (bucket_of bn) b ∧ has_id s b dv bn ∧
  ∀ b', attached s (bucket_of bn) b' → has_id s b' dv bn → b' = b.

(** A request for [(dv, bn)] is a miss: the list of its bucket ends and
    holds no buffer with that identity. *)
Definition miss (s : state) (dv bn : Z) : Prop :=
  (∃ h, heads s !! bucket_of bn = Some h ∧
        closed (bufs s) (length (bufs s)) h = true) ∧
  ∀ b, attached s (bucket_of bn) b → ¬ has_id s b dv bn.

(** The disk transfers of a log, oldest first. *)
Definition transfers (l : list event) : list (nat * bool) :=
  omap (λ e, match e with EDisk b w => Some (b, w) | _ => None end) l.

(** ** Runs of calls *)

(** A context that went to sleep in [bget] goes on, once it is woken up,
    with the rest of [bget]: it takes the sleep-lock and returns the
    buffer, to [bread] when it was called from there. *)
Definition bread_rest (b : nat) : M nat :=
  x <- load b ;;
  (if valid x =? 0
   then virtio_disk_rw b false ;; store b (set_valid 1)
   else ret tt) ;;
  ret b.

Definition bget_wake (p : nat) (b : nat) : M nat :=
  acquiresleep p b ;; ret b.

Definition bread_wake (p : nat) (b : nat) : M nat :=
  b <- bget_wake p b ;; bread_rest b.

(** What the contexts of the system do, one atomic step each. *)
Inductive action :=
| Get (p : nat) (dv bn : Z)
| Read (p : nat) (dv bn : Z)
| Write (p : nat) (b : nat)
| Release (p : nat) (b : nat)
| Pin (b : nat)
| Unpin (b : nat)
| WakeGet (p : nat) (b : nat)
| WakeRead (p : nat) (b : nat).

Definition forget {A} (o : outcome A) : outcome (option nat) :=
  match o with
  | Ret _ s => Ret None s
  | Panic m s => Panic m s
  | Sleep b s => Sleep b s
  | Hang => Hang
  | Wild => Wild
  end.

Definition exec (a : action) : M (option nat) :=
  match a with
  | Get p dv bn => b <- bget p dv bn ;; ret (Some b)
  | Read p dv bn => b <- bread p dv bn ;; ret (Some b)
  | Write p b => λ s, forget (bwrite p b s)
  | Release p b => λ s, forget (brelse p b s)
  | Pin b => λ s, forget (bpin b s)
  | Unpin b => λ s, forget (bunpin b s)
  | WakeGet p b => b <- bget_wake p b ;; ret (Some b)
  | WakeRead p b => b <- bread_wake p b ;; ret (Some b)
  end.

(** The state the other contexts see after a step.  A [panic] halts the
    system, and so does a call that loops or runs wild. *)
Definition after {A} (o : outcome A) : option state :=
  match o with
  | Ret _ s => Some s
  | Sleep _ s => Some s
  | _ => None
  end.

Fixpoint run (acts : list action) (s : state) : option state :=
  match acts with
  | [] => Some s
  | a :: acts' =>
      match after (exec a s) with
      | Some s' => run acts' s'
      | None => None
      end
  end.

(** The bookkeeping of the callers.  A [bget] that picked [b], directly or
    from [bread], makes its caller a holder of [b] (asleep on the lock or
    past it) until its [brelse]; a [bpin] adds a pin until its [bunpin]. *)
Definition holder_change (a : action) (o : outcome (option nat)) (b : nat) : Z :=
  match a, o with
  | (Get _ _ _ | Read _ _ _), (Ret (Some i) _ | Sleep i _) =>
      if decide (i = b) then 1 else 0
  | Release _ i, Ret _ _ => if decide (i = b) then -1 else 0
  | _, _ => 0
  end.

Definition pin_change (a : action) (o : outcome (option nat)) (b : nat) : Z :=
  match a, o with
  | Pin i, Ret _ _ => if decide (i = b) then 1 else 0
  | Unpin i, Ret _ _ => if decide (i = b) then -1 else 0
  | _, _ => 0
  end.

(** Holders of [b], and pins on [b], outstanding after the run. *)
Fixpoint holders (acts : list action) (s : state) (b : nat) : Z :=
  match acts with
  | [] => 0
  | a :: acts' =>
      holder_change a (exec a s) b +
      match after (exec a s) with
      | Some s' => holders acts' s' b
      | None => 0
      end
  end.

Fixpoint pins (acts : list action) (s : state) (b : nat) : Z :=
  match acts with
  | [] => 0
  | a :: acts' =>
      pin_change a (exec a s) b +
      match after (exec a s) with
      | Some s' => pins acts' s' b
      | None => 0
      end
  end.

(** ** Vocabulary of the statements *)

(** The buffer a miss makes of the free buffer [x]: identity [(dv, bn)],
    not valid, one reference, first on the list that began with [h]. *)
Definition fresh (dv bn : Z) (h : bufptr) (x : buf) : buf :=
  Buf 0 dv bn (lock x) 1 None h (data x).

(** [i->field = ...] through a pointer that may be null (nothing is stored
    then). *)
Definition alter_at (f : buf → buf) (i : bufptr) (bs : list buf) : list buf :=
  match i with Some i => alter f i bs | None => bs end.

(** The loop passes the buffer [i], which is not the one it looks for, and
    goes on to [q]. *)
Definition passes (bs : list buf) (dv bn : Z) (i : nat) (q : bufptr) : Prop :=
  ∃ x, bs !! i = Some x ∧
       (dev x =? dv) && (blockno x =? bn) = false ∧ next x = q.

(** The buffers [seen], latest first, are those the loop passed on its way
    to [h]. *)
Fixpoint trail (bs : list buf) (dv bn : Z) (seen : list nat) (h : bufptr)
    : Prop :=
  match seen with
  | [] => True
  | i :: rest => passes bs dv bn i h ∧ trail bs dv bn rest (Some i)
  end.

(** The [prev] and [next] pointers of the buffer at [i]. *)
Definition links (bs : list buf) (i : nat) : option (bufptr * bufptr) :=
  (λ x, (prev x, next x)) <$> bs !! i.

(** The buffers [l], in this order, form a doubly linked list that starts
    at [h], ends with a null [next], and whose first buffer has [pv] for
    [prev]. *)
Fixpoint dll (bs : list buf) (pv h : bufptr) (l : list nat) : Prop :=
  match l with
  | [] => h = None
  | i :: l' =>
      h = Some i ∧ ∃ nx, links bs i = Some (pv, nx) ∧ dll bs (Some i) nx l'
  end.

(** The bucket lists of a state are well formed, with contents [L]: there
    are [NBUCKET] heads, the list of bucket [k] is the doubly linked list
    [L !! k], and no buffer is on two lists or twice on one. *)
Definition wf (s : state) (L : list (list nat)) : Prop :=
  length (heads s) = Z.to_nat NBUCKET ∧
  length L = Z.to_nat NBUCKET ∧
  (∀ k h l, heads s !! k = Some h → L !! k = Some l →
            dll (bufs s) None h l ∧ NoDup l) ∧
  (∀ j k lj lk i, L !! j = Some lj → L !! k = Some lk →
                  i ∈ lj → i ∈ lk → j = k).

(** The buffer [b] is on none of the lists [L]. *)
Definition unlisted (L : list (list nat)) (b : nat) : Prop :=
  ∀ k l, L !! k = Some l → b ∉ l.

(** The reference count of the buffer at [b]. *)
Definition count (s : state) (b : nat) : option Z := refcnt <$> bufs s !! b.

(** From [s] to [s'] the reference count of [b] moved by [d], modulo
    [2^32], and no other count moved. *)
Definition bumped (b : nat) (d : Z) (s s' : state) : Prop :=
  ∀ j, count s' j =
       if decide (b = j) then (λ c, uint_wrap (c + d)) <$> count s j
       else count s j.

(** [bget] by context [p] of each identity of [ids], in this order. *)
Definition gets (p : nat) (ids : list (Z * Z)) : list action :=
  map (λ id, Get p id.1 id.2) ids.

(** The state of a cache whose first buffers hold the identities [ids],
    one each, referenced once and locked by [p], on well-formed lists, and
    whose other buffers are free. *)
Definition all_held (p : nat) (ids : list (Z * Z)) (s : state) : Prop :=
  ∃ L, wf s L ∧
    (∀ i id, ids !! i = Some id →
       ∃ x, bufs s !! i = Some x ∧
            dev x = id.1 ∧ blockno x = id.2 ∧ refcnt x = 1 ∧
            lock x = Some p) ∧
    (∀ i x, (length ids ≤ i)%nat → bufs s !! i = Some x →
       refcnt x = 0 ∧ lock x = None) ∧
    (∀ k l i, L !! k = Some l → i ∈ l → (i < length ids)%nat).

(** No reference count moved from [s] to [s']. *)
Definition same_counts (s s' : state) : Prop := ∀ j, count s' j = count s j.

(** Every reference count is a [uint]. *)
Definition typed (s : state) : Prop :=
  ∀ j c, count s j = Some c → 0 ≤ c < UINT_MOD.

(** ** Example runs and states *)

(** A buffer is read, pinned, released, and unpinned. *)
Definition pin_release_unpin : list action :=
  [Read 1 1 5; Pin 0; Release 1 0; Unpin 0].

(** The same, with one [bunpin] too many. *)
Definition unpin_twice : list action :=
  [Read 1 1 5; Pin 0; Release 1 0; Unpin 0; Unpin 0].

(** After which two more blocks of the same bucket are read. *)
Definition recycle_attached : list action :=
  pin_release_unpin ++ [Read 1 1 18].

(** Two blocks of one bucket are read; the older buffer is pinned and then
    released. *)
Definition two_on_a_list : list action :=
  [Read 1 1 5; Read 1 1 18; Pin 0; Release 1 0].

(** Two blocks are read and both buffers are released. *)
Definition read_release_twice : list action :=
  [Read 1 1 1; Read 1 1 5; Release 1 0; Release 1 1].

(** A block is read and its buffer is pinned and released: the buffer stays
    cached, with its sleep-lock free. *)
Definition read_pin_release : list action :=
  [Read 1 1 5; Pin 0; Release 1 0].

(** The state after [bread(1, 5)] by context 1 on a fresh pool of two. *)
Definition ex_held : state :=
  Eval vm_compute in default (binit 2 ∅) (run [Read 1 1 5] (binit 2 ∅)).

(** Its lists: buffer 0 alone on the list of bucket 5. *)
Definition ex_lists : list (list nat) :=
  [[]; []; []; []; []; [0%nat]; []; []; []; []; []; []; []].

(** The state after [bread(1, 5)] and [bpin] by context 1 on a fresh pool
    of two: buffer 0 is locked and has reference count 2. *)
Definition ex_pinned : state :=
  Eval vm_compute in
    default (binit 2 ∅) (run [Read 1 1 5; Pin 0] (binit 2 ∅)).

(** The state after [read_pin_release] on a fresh pool of two. *)
Definition ex_cached : state :=
  Eval vm_compute in default (binit 2 ∅) (run read_pin_release (binit 2 ∅)).

(** The state after [bread(1, 5)] and a stray [bunpin] on a fresh pool of
    two: buffer 0 is locked by context 1 and has reference count 0. *)
Definition ex_unpinned : state :=
  Eval vm_compute in
    default (binit 2 ∅) (run [Read 1 1 5; Unpin 0] (binit 2 ∅)).

(** The state after [bget(1, 1)] on a fresh pool of one: the pool is full. *)
Definition ex_full : state :=
  Eval vm_compute in default (binit 1 ∅) (run [Get 1 1 1] (binit 1 ∅)).

(** ** The invariant of the cache and the discipline of its callers *)

(** The buffer [b] is on the list of bucket [k] in [L]. *)
Definition listed (L : list (list nat)) (k b : nat) : Prop :=
  ∃ l, L !! k = Some l ∧ b ∈ l.

(** The invariant, for bucket lists with contents [L]: the lists are well
    formed and every count is a [uint]; a buffer on a list is on the list
    of its own block number and is referenced; a referenced buffer is on
    its list; a locked buffer is referenced; and no two buffers of a list
    carry the same identity. *)
Definition inv_at (s : state) (L : list (list nat)) : Prop :=
  wf s L ∧ typed s ∧
  (∀ k b, listed L k b →
     ∃ x, bufs s !! b = Some x ∧ bucket_of (blockno x) = k ∧ refcnt x ≠ 0) ∧
  (∀ b x, bufs s !! b = Some x → refcnt x ≠ 0 →
     listed L (bucket_of (blockno x)) b) ∧
  (∀ b x, bufs s !! b = Some x → lock x ≠ None → refcnt x ≠ 0) ∧
  (∀ k b b' x x', listed L k b → listed L k b' →
     bufs s !! b = Some x → bufs s !! b' = Some x' →
     dev x = dev x' → blockno x = blockno x' → b = b').

Definition inv (s : state) : Prop := ∃ L, inv_at s L.

(** What the callers owe the cache.  A request must not find a buffer whose
    count is at its maximum; [bpin] is for a buffer the caller has a
    reference to, and [bunpin] takes back a [bpin], so another reference is
    left; a context woken up in [bget] has its reference from before it
    slept.  [bwrite] and [brelse] check their own condition. *)
Definition disciplined (a : action) (s : state) : Prop :=
  match a with
  | Get _ dv bn | Read _ dv bn =>
      ∀ b x, attached s (bucket_of bn) b → bufs s !! b = Some x →
             dev x = dv → blockno x = bn → refcnt x < UINT_MAX
  | Write _ _ | Release _ _ => True
  | Pin b => ∃ x, bufs s !! b = Some x ∧ 0 < refcnt x < UINT_MAX
  | Unpin b => ∃ x, bufs s !! b = Some x ∧ 1 < refcnt x
  | WakeGet _ b | WakeRead _ b => ∃ x, bufs s !! b = Some x ∧ refcnt x ≠ 0
  end.

(** Every call of the run finds the discipline kept. *)
Fixpoint disciplined_run (acts : list action) (s : state) : Prop :=
  match acts with
  | [] => True
  | a :: acts' =>
      disciplined a s ∧
      match after (exec a s) with
      | Some s' => disciplined_run acts' s'
      | None => True
      end
  end.

(** The buffer an action names, if it names one. *)
Definition target (a : action) : option nat :=
  match a with
  | Get _ _ _ | Read _ _ _ => None
  | Write _ b | Release _ b | Pin b | Unpin b | WakeGet _ b | WakeRead _ b =>
      Some b
  end.

(** The fields of a buffer the invariant reads besides its links. *)
Definition core (x : buf) : Z * Z * Z * option nat :=
  (dev x, blockno x, refcnt x, lock x).

(** The invariant without the shape of the lists, over the cores [cs] of the
    pool. *)
Definition facts (cs : nat → option (Z * Z * Z * option nat))
    (L : list (list nat)) : Prop :=
  (∀ j d bn c lk, cs j = Some (d, bn, c, lk) → 0 ≤ c < UINT_MOD) ∧
  (∀ k b, listed L k b →
     ∃ d bn c lk, cs b = Some (d, bn, c, lk) ∧ bucket_of bn = k ∧ c ≠ 0) ∧
  (∀ b d bn c lk, cs b = Some (d, bn, c, lk) → c ≠ 0 →
     listed L (bucket_of bn) b) ∧
  (∀ b d bn c lk, cs b = Some (d, bn, c, lk) → lk ≠ None → c ≠ 0) ∧
  (∀ k b b' d bn c lk c' lk', listed L k b → listed L k b' →
     cs b = Some (d, bn, c, lk) → cs b' = Some (d, bn, c', lk') → b = b').

(** The cores of a pool. *)
Definition cores (bs : list buf) (j : nat) : option (Z * Z * Z * option nat) :=
  core <$> bs !! j.

(** The cores [cs] with the one at [b] replaced. *)
Definition with_core (cs : nat → option (Z * Z * Z * option nat)) (b : nat)
    (c : Z * Z * Z * option nat) (j : nat) : option (Z * Z * Z * option nat) :=
  if decide (j = b) then Some c else cs j.

(** ** The discipline of the spin-locks *)

Definition spin_eqb (l l' : spinlock) : bool :=
  match l, l' with
  | PoolLock, PoolLock => true
  | BucketLock j, BucketLock k => Nat.eqb j k
  | _, _ => false
  end.

(** One event against the spin-locks [H] the call holds, latest first.  A
    bucket's lock is taken with no lock held and [bcache.lock] under one
    bucket's lock; a lock is dropped by the call that took it last; a
    reference count is stored under a spin-lock; and the sleep-lock
    primitives and the disk driver, which may sleep, are called with no
    spin-lock held.  [None] is a breach. *)
Definition lock_step (H : list spinlock) (e : event)
    : option (list spinlock) :=
  match e with
  | EAcquire (BucketLock k) =>
      match H with [] => Some [BucketLock k] | _ => None end
  | EAcquire PoolLock =>
      match H with
      | [BucketLock k] => Some [PoolLock; BucketLock k]
      | _ => None
      end
  | ERelease l =>
      match H with
      | l' :: H' => if spin_eqb l l' then Some H' else None
      | [] => None
      end
  | ERefcnt _ _ => match H with [] => None | _ => Some H end
  | EAcquireSleep _ _ | EReleaseSleep _ | EDisk _ _ =>
      match H with [] => Some [] | _ => None end
  end.

Fixpoint lock_run (H : list spinlock) (evs : list event)
    : option (list spinlock) :=
  match evs with
  | [] => Some H
  | e :: evs' =>
      match lock_step H e with
      | Some H' => lock_run H' evs'
      | None => None
      end
  end.

(** The events of a call keep the discipline and leave no spin-lock
    held. *)
Definition locks_ok (evs : list event) : Prop := lock_run [] evs = Some [].

(** ** What a call leaves alone *)

(** From [s] to [s'] the disk, the size of the pool, the number of bucket
    heads and the data of every buffer stayed. *)
Definition calm (s s' : state) : Prop :=
  disk s' = disk s ∧ length (bufs s') = length (bufs s) ∧
  length (heads s') = length (heads s) ∧
  ∀ j, data <$> bufs s' !! j = data <$> bufs s !! j.

(** The bucket whose list an action may change. *)
Definition touched (a : action) (s : state) : option nat :=
  match a with
  | Get _ _ bn | Read _ _ bn => Some (bucket_of bn)
  | Release _ b => (λ x, bucket_of (blockno x)) <$> bufs s !! b
  | _ => None
  end.

(** What a buffer holds for its users: its identity, its valid flag and
    its data. *)
Definition contents (x : buf) : Z * Z * Z * block :=
  (dev x, blockno x, valid x, data x).

(** ** Evaluating the primitives *)

Lemma bind_ret {A B} (m : M A) (f : A → M B) s a s' :
  m s = Ret a s' → bind m f s = f a s'.
Proof. unfold bind. by intros ->. Qed.

Lemma load_ok s b x : bufs s !! b = Some x → load b s = Ret x s.
Proof. unfold load. by intros ->. Qed.

Lemma store_ok s b f :
  is_Some (bufs s !! b) →
  store b f s = Ret tt (set_bufs (alter f b (bufs s)) s).
Proof. unfold store. by intros [x ->]. Qed.

Lemma store_refcnt_ok s b v :
  is_Some (bufs s !! b) →
  store_refcnt b v s =
    Ret tt (emit (ERefcnt b v) (set_bufs (alter (set_refcnt v) b (bufs s)) s)).
Proof. intros H. unfold store_refcnt. by rewrite (bind_ret _ _ _ _ _ (store_ok _ _ _ H)). Qed.

Lemma get_head_ok s k h : heads s !! k = Some h → get_head k s = Ret h s.
Proof. unfold get_head. by intros ->. Qed.

Lemma set_head_ok s k h :
  is_Some (heads s !! k) →
  set_head k h s = Ret tt (set_heads (<[k := h]> (heads s)) s).
Proof. unfold set_head. by intros [x ->]. Qed.

Lemma alter_is_Some (f : buf → buf) i (bs : list buf) j :
  is_Some (alter f i bs !! j) ↔ is_Some (bs !! j).
Proof. by rewrite !lookup_lt_is_Some, length_alter. Qed.

Ltac in_pool :=
  simpl;
  repeat rewrite alter_is_Some;
  first [ eassumption | eexists; eassumption ].

Ltac at_pool :=
  simpl;
  repeat first [ rewrite list_lookup_alter_eq
               | rewrite list_lookup_alter_ne by done ];
  first [ eassumption
        | match goal with H : _ !! _ = Some _ |- _ => rewrite H end;
          simpl; reflexivity ].

Ltac mprim :=
  first [ reflexivity
        | apply store_refcnt_ok; in_pool
        | apply store_ok; in_pool
        | apply set_head_ok; in_pool
        | apply get_head_ok; simpl; eassumption
        | apply load_ok; at_pool ].

Lemma bind_assoc {A B C} (m : M A) (f : A → M B) (g : B → M C) s :
  bind (bind m f) g s = bind m (λ x, bind (f x) g) s.
Proof. unfold bind. by destruct (m s). Qed.

Ltac mstep :=
  cbv beta iota;
  repeat rewrite bind_assoc;
  lazymatch goal with
  | |- bind ?m ?k ?s = _ =>
      let H := fresh in
      eassert (m s = Ret _ _) as H by mprim;
      rewrite (bind_ret m k s _ _ H); clear H; cbv beta;
      unfold emit, set_bufs, set_heads, set_disk;
      cbn [bufs heads disk log]
  end.

Lemma bget_cached s p dv bn h b x :
  heads s !! bucket_of bn = Some h →
  bucket_find (bufs s) (length (bufs s)) h dv bn = Cached b →
  bufs s !! b = Some x →
  bget p dv bn s =
    bget_wake p b
      (State (alter (set_refcnt (uint_wrap (refcnt x + 1))) b (bufs s))
             (heads s) (disk s)
             (log s ++ [EAcquire (BucketLock (bucket_of bn));
                        ERefcnt b (uint_wrap (refcnt x + 1));
                        ERelease (BucketLock (bucket_of bn))])).
Proof.
  intros Hh Hf Hx. unfold bget. cbv zeta.
  do 3 mstep. simpl. rewrite Hf. do 3 mstep.
  unfold bget_wake. f_equal. unfold emit, set_bufs. simpl.
  by rewrite <- !app_assoc.
Qed.

Lemma bget_wake_eq s p b x :
  bufs s !! b = Some x →
  bget_wake p b s =
    match lock x with
    | None => Ret b (State (alter (set_lock (Some p)) b (bufs s)) (heads s)
                           (disk s) (log s ++ [EAcquireSleep b p]))
    | Some _ => Sleep b s
    end.
Proof.
  intros Hx. unfold bget_wake, acquiresleep, bind, load, store, ret.
  rewrite Hx. destruct (lock x); [done|]. simpl. by rewrite Hx.
Qed.

Lemma bucket_find_head_in_pool bs fuel n dv bn :
  fuel ≠ O → bucket_find bs fuel (Some n) dv bn = Missing → is_Some (bs !! n).
Proof. destruct fuel; [done|]. simpl. by destruct (bs !! n). Qed.

Lemma bget_missing s p dv bn h b :
  heads s !! bucket_of bn = Some h →
  bucket_find (bufs s) (length (bufs s)) h dv bn = Missing →
  first_free (bufs s) 0 = Some b →
  is_Some (bufs s !! b) →
  bget p dv bn s =
    bget_wake p b
      (State (alter_at (set_prev (Some b)) h
                (alter (fresh dv bn h) b (bufs s)))
             (<[bucket_of bn := Some b]> (heads s)) (disk s)
             (log s ++ [EAcquire (BucketLock (bucket_of bn));
                        EAcquire PoolLock; ERefcnt b 1; ERelease PoolLock;
                        ERelease (BucketLock (bucket_of bn))])).
Proof.
  intros Hh Hf Hff [x Hx]. unfold bget. cbv zeta.
  do 3 mstep. simpl. rewrite Hf. do 2 mstep. simpl. rewrite Hff.
  do 6 mstep.
  destruct h as [n|].
  - assert (is_Some (bufs s !! n)) as [xn Hn].
    { eapply bucket_find_head_in_pool; [|done].
      apply lookup_lt_Some in Hx. lia. }
    do 5 mstep. simpl. do 2 mstep.
    unfold bget_wake. f_equal. unfold emit, set_bufs, set_heads. simpl.
    rewrite <- !app_assoc. simpl. f_equal.
    by rewrite !list_alter_alter_eq.
  - do 4 mstep.
    unfold bget_wake. f_equal. unfold emit, set_bufs, set_heads. simpl.
    rewrite <- !app_assoc. simpl. f_equal.
    by rewrite !list_alter_alter_eq.
Qed.

Lemma brelse_shared s p b x :
  bufs s !! b = Some x → lock x = Some p → refcnt x ≠ 1 →
  brelse p b s =
    Ret tt
      (State (alter (set_refcnt (uint_wrap (refcnt x - 1)) ∘ set_lock None) b
                (bufs s))
             (heads s) (disk s)
             (log s ++ [EReleaseSleep b;
                        EAcquire (BucketLock (bucket_of (blockno x)));
                        ERefcnt b (uint_wrap (refcnt x - 1));
                        ERelease (BucketLock (bucket_of (blockno x)))])).
Proof.
  intros Hx Hl Hr. unfold brelse, holdingsleep, releasesleep. cbv zeta.
  do 2 mstep. unfold ret at 1. mstep.
  rewrite bool_decide_true by done. simpl. unfold ret at 1.
  do 5 mstep. simpl.
  destruct (Z.eqb_spec (refcnt x) 1) as [|_]; [done|]. simpl.
  mstep. unfold release, emit, set_bufs. simpl.
  rewrite <- !app_assoc. simpl. by rewrite !list_alter_alter_eq.
Qed.

Lemma brelse_last s p b x h :
  bufs s !! b = Some x → lock x = Some p → refcnt x = 1 →
  heads s !! bucket_of (blockno x) = Some h →
  (∀ i, prev x = Some i → is_Some (bufs s !! i)) →
  (∀ i, next x = Some i → is_Some (bufs s !! i)) →
  brelse p b s =
    Ret tt
      (State (alter (set_refcnt 0) b
                (alter_at (set_prev (prev x)) (next x)
                   (alter_at (set_next (next x)) (prev x)
                      (alter (set_lock None) b (bufs s)))))
             (if decide (h = Some b)
              then <[bucket_of (blockno x) := next x]> (heads s)
              else heads s)
             (disk s)
             (log s ++ [EReleaseSleep b;
                        EAcquire (BucketLock (bucket_of (blockno x)));
                        ERefcnt b 0;
                        ERelease (BucketLock (bucket_of (blockno x)))])).
Proof.
  intros Hx Hl Hr Hh Hp Hn. unfold brelse, holdingsleep, releasesleep.
  cbv zeta.
  do 2 mstep. unfold ret at 1. mstep.
  rewrite bool_decide_true by done. simpl. unfold ret at 1.
  do 5 mstep. simpl. rewrite Hr. simpl.
  destruct (prev x) as [pv|] eqn:Hpv, (next x) as [nx|] eqn:Hnx.
  all: try (destruct (Hp pv) as [xp Hxp]; [done|]).
  all: try (destruct (Hn nx) as [xn Hxn]; [done|]).
  all: try destruct (decide (pv = b)) as [->|].
  all: try destruct (decide (nx = b)) as [->|].
  all: simplify_eq.
  all: repeat (mstep; cbn [prev next set_next set_prev set_lock set_refcnt]; rewrite ?Hpv, ?Hnx).
  all: case_bool_decide; case_decide; try done.
  all: repeat (mstep; cbn [prev next set_next set_prev set_lock set_refcnt]; rewrite ?Hpv, ?Hnx).
  all: unfold release, ret, emit, set_bufs, set_heads; cbn [bufs heads disk log alter_at].
  all: rewrite <- !app_assoc; try done.
Qed.

Lemma bpin_eq s b x :
  bufs s !! b = Some x →
  bpin b s =
    Ret tt
      (State (alter (set_refcnt (uint_wrap (refcnt x + 1))) b (bufs s))
             (heads s) (disk s)
             (log s ++ [EAcquire (BucketLock (bucket_of (blockno x)));
                        ERefcnt b (uint_wrap (refcnt x + 1));
                        ERelease (BucketLock (bucket_of (blockno x)))])).
Proof.
  intros Hx. unfold bpin. do 5 mstep.
  unfold release, emit, set_bufs. simpl. by rewrite <- !app_assoc.
Qed.

Lemma bunpin_eq s b x :
  bufs s !! b = Some x →
  bunpin b s =
    Ret tt
      (State (alter (set_refcnt (uint_wrap (refcnt x - 1))) b (bufs s))
             (heads s) (disk s)
             (log s ++ [EAcquire (BucketLock (bucket_of (blockno x)));
                        ERefcnt b (uint_wrap (refcnt x - 1));
                        ERelease (BucketLock (bucket_of (blockno x)))])).
Proof.
  intros Hx. unfold bunpin. do 5 mstep.
  unfold release, emit, set_bufs. simpl. by rewrite <- !app_assoc.
Qed.

Lemma bwrite_eq s p b x :
  bufs s !! b = Some x → lock x = Some p →
  bwrite p b s =
    Ret tt (State (bufs s) (heads s)
                  (<[(dev x, blockno x) := data x]> (disk s))
                  (log s ++ [EDisk b true])).
Proof.
  intros Hx Hl. unfold bwrite, holdingsleep, virtio_disk_rw.
  mstep. unfold ret at 1. mstep. rewrite bool_decide_true by done.
  simpl. unfold ret at 1. by do 3 mstep.
Qed.

Lemma lock_contract s p b x :
  bufs s !! b = Some x → lock x ≠ Some p →
  bwrite p b s = Panic "bwrite" s ∧ brelse p b s = Panic "brelse" s.
Proof.
  intros Hx Hl. unfold bwrite, brelse, holdingsleep. cbv zeta. split.
  - mstep. unfold ret at 1. mstep. by rewrite bool_decide_false by done.
  - do 2 mstep. unfold ret at 1. mstep. by rewrite bool_decide_false by done.
Qed.

Lemma bread_rest_eq s b x :
  bufs s !! b = Some x →
  bread_rest b s =
    if valid x =? 0
    then Ret b (State (alter (set_valid 1 ∘
                         set_data (default [] (disk s !! (dev x, blockno x))))
                         b (bufs s))
                      (heads s) (disk s) (log s ++ [EDisk b false]))
    else Ret b s.
Proof.
  intros Hx. unfold bread_rest, virtio_disk_rw. mstep.
  destruct (valid x =? 0).
  - do 4 mstep. unfold ret. by rewrite !list_alter_alter_eq.
  - by mstep.
Qed.

Lemma bread_eq p dv bn : bread p dv bn = (b <- bget p dv bn ;; bread_rest b).
Proof. reflexivity. Qed.

(** ** The two loops of [bget] *)

Lemma id_test x dv bn :
  (dev x =? dv) && (blockno x =? bn) = true ↔ dev x = dv ∧ blockno x = bn.
Proof. rewrite andb_true_iff, !Z.eqb_eq. done. Qed.

Lemma bucket_find_cached bs fuel h dv bn b :
  b ∈ visited bs fuel h → idmatch bs b dv bn →
  (∀ b', b' ∈ visited bs fuel h → idmatch bs b' dv bn → b' = b) →
  bucket_find bs fuel h dv bn = Cached b.
Proof.
  revert h. induction fuel as [|fuel IH]; intros [i|]; simpl;
    try (by intros ?%elem_of_nil).
  destruct (bs !! i) as [x|] eqn:Hi; [|by intros ?%elem_of_nil].
  intros Hb Hm Hu.
  destruct ((dev x =? dv) && (blockno x =? bn)) eqn:Ht.
  - apply id_test in Ht. f_equal. apply Hu; [left|by exists x].
  - apply IH; [|done|].
    + apply elem_of_cons in Hb as [->|]; [|done].
      destruct Hm as (x' & Hx' & Hid). rewrite Hi in Hx'. injection Hx' as <-.
      apply id_test in Hid. congruence.
    + intros b' Hb'. apply Hu. by right.
Qed.

Lemma bucket_find_cached_inv bs fuel h dv bn b :
  bucket_find bs fuel h dv bn = Cached b →
  b ∈ visited bs fuel h ∧ idmatch bs b dv bn.
Proof.
  revert h. induction fuel as [|fuel IH]; intros [i|]; simpl; try done;
    destruct (bs !! i) as [x|] eqn:Hi; try done.
  destruct ((dev x =? dv) && (blockno x =? bn)) eqn:Ht.
  - intros [= <-]. apply id_test in Ht. split; [left|by exists x].
  - intros [? ?]%IH. split; [by right|done].
Qed.

Lemma bucket_find_missing bs fuel h dv bn :
  bucket_find bs fuel h dv bn = Missing ↔
  closed bs fuel h = true ∧
  ∀ b, b ∈ visited bs fuel h → ¬ idmatch bs b dv bn.
Proof.
  revert h. induction fuel as [|fuel IH]; intros [i|]; simpl.
  - split; [by destruct (bs !! i)|]. by intros [? _].
  - split; [|done]. intros _. split; [done|]. by intros ? ?%elem_of_nil.
  - destruct (bs !! i) as [x|] eqn:Hi; [|split; [done|by intros [? _]]].
    destruct ((dev x =? dv) && (blockno x =? bn)) eqn:Ht.
    + split; [done|]. intros [_ Hn]. exfalso. apply (Hn i); [left|].
      exists x. split; [done|]. by apply id_test.
    + rewrite IH. split; intros [Hc Hn]; (split; [done|]).
      * intros b [->|Hb]%elem_of_cons; [|by apply Hn].
        intros (x' & Hx' & Hid). rewrite Hi in Hx'. injection Hx' as <-.
        apply id_test in Hid. congruence.
      * intros b Hb. apply Hn. by right.
  - split; [|done]. intros _. split; [done|]. by intros ? ?%elem_of_nil.
Qed.

Lemma first_free_spec bs i b :
  first_free bs i = Some b ↔
  ∃ x, (i ≤ b)%nat ∧ bs !! (b - i)%nat = Some x ∧ refcnt x = 0 ∧
       ∀ j y, (j < b - i)%nat → bs !! j = Some y → refcnt y ≠ 0.
Proof.
  revert i. induction bs as [|x0 bs IH]; intros i; simpl.
  - split; [done|]. by intros (x & _ & ? & _).
  - destruct (Z.eqb_spec (refcnt x0) 0) as [Hz|Hz].
    + split.
      * intros [= <-]. exists x0. rewrite Nat.sub_diag. repeat split; [lia|done|].
        intros; lia.
      * intros (x & Hle & Hx & Hr & Hlt). f_equal.
        destruct (decide (b - i = 0)%nat) as [|Hne]; [lia|].
        exfalso. apply (Hlt 0%nat x0); [lia|done|done].
    + rewrite IH. split.
      * intros (x & Hle & Hx & Hr & Hlt). exists x.
        replace (b - i)%nat with (S (b - S i)) by lia.
        repeat split; [lia|done|done|].
        intros [|j] y Hj; simpl; [by intros [= <-]|].
        apply Hlt. lia.
      * intros (x & Hle & Hx & Hr & Hlt).
        destruct (b - i)%nat as [|n] eqn:E.
        { simpl in Hx. injection Hx as <-. done. }
        exists x. replace (b - S i)%nat with n by lia.
        repeat split; [lia|done|done|].
        intros j y Hj Hy. apply (Hlt (S j) y); [lia|done].
Qed.

Lemma first_free_none bs i :
  first_free bs i = None ↔ ∀ x, x ∈ bs → refcnt x ≠ 0.
Proof.
  revert i. induction bs as [|x0 bs IH]; intros i; simpl.
  - split; [|done]. by intros _ ? ?%elem_of_nil.
  - destruct (Z.eqb_spec (refcnt x0) 0) as [Hz|Hz].
    + split; [done|]. intros H. exfalso. apply (H x0); [left|done].
    + rewrite IH. split.
      * intros H x [->|?]%elem_of_cons; [done|by apply H].
      * intros H x Hx. apply H. by right.
Qed.

(** ** The fuel of the list walk *)

Lemma closed_set_endless bs dv bn (C : list nat) :
  (∀ i, i ∈ C → ∃ j, j ∈ C ∧ passes bs dv bn i (Some j)) →
  ∀ fuel i, i ∈ C → bucket_find bs fuel (Some i) dv bn = Endless.
Proof.
  intros HC. induction fuel as [|fuel IH]; intros i Hi;
    destruct (HC i Hi) as (j & Hj & x & Hx & Ht & Hn); simpl; rewrite Hx.
  - done.
  - rewrite Ht, Hn. by apply IH.
Qed.

Lemma trail_closed bs dv bn seen h (C : list nat) :
  trail bs dv bn seen h → (∀ k, k ∈ seen → k ∈ C) →
  (∃ i, h = Some i ∧ i ∈ C) →
  ∀ k, k ∈ seen → ∃ j, j ∈ C ∧ passes bs dv bn k (Some j).
Proof.
  revert h. induction seen as [|k0 rest IH]; intros h; simpl.
  - by intros _ _ _ k ?%elem_of_nil.
  - intros [Hp Ht] HC (i & -> & Hi) k [->|Hk]%elem_of_cons; [eauto|].
    apply (IH (Some k0)); try done.
    + intros k' Hk'. apply HC. by right.
    + exists k0. split; [done|]. apply HC. left.
Qed.

Lemma trail_in_pool bs dv bn seen h k :
  trail bs dv bn seen h → k ∈ seen → (k < length bs)%nat.
Proof.
  revert h. induction seen as [|k0 rest IH]; intros h; simpl.
  - by intros _ ?%elem_of_nil.
  - intros [(x & Hx & _) Ht] [->|Hk]%elem_of_cons; [|by eapply IH].
    by eapply lookup_lt_Some.
Qed.

Lemma all_seen (seen : list nat) n i :
  NoDup seen → (∀ k, k ∈ seen → (k < n)%nat) → (n ≤ length seen)%nat →
  (i < n)%nat → i ∈ seen.
Proof.
  intros Hn Hlt Hlen Hi.
  assert (seen ≡ₚ seq 0 n) as ->.
  { apply submseteq_length_Permutation; [|by rewrite length_seq].
    apply NoDup_submseteq; [done|]. intros k Hk. apply elem_of_seq.
    specialize (Hlt k Hk). lia. }
  apply elem_of_seq. lia.
Qed.

Lemma bucket_find_more bs dv bn fuel seen h :
  trail bs dv bn seen h → NoDup seen →
  (length bs ≤ length seen + fuel)%nat →
  bucket_find bs (S fuel) h dv bn = bucket_find bs fuel h dv bn.
Proof.
  revert seen h. induction fuel as [|fuel IH]; intros seen [i|] Ht Hn Hlen;
    try done.
  - destruct (bs !! i) as [x|] eqn:Hx; [|by simpl; rewrite Hx].
    assert (i ∈ seen) as Hi.
    { apply (all_seen seen (length bs)); [done| |lia|by eapply lookup_lt_Some].
      intros k Hk. by eapply trail_in_pool. }
    rewrite !(closed_set_endless bs dv bn seen); try done.
    all: eapply trail_closed; eauto.
  - destruct (bs !! i) as [x|] eqn:Hx; [|by simpl; rewrite Hx].
    destruct (decide (i ∈ seen)) as [Hi|Hi].
    { rewrite !(closed_set_endless bs dv bn seen); try done.
      all: eapply trail_closed; eauto. }
    change (bucket_find bs (S (S fuel)) (Some i) dv bn)
      with (match bs !! i with
            | None => Dangling
            | Some x => if (dev x =? dv) && (blockno x =? bn) then Cached i
                        else bucket_find bs (S fuel) (next x) dv bn
            end).
    change (bucket_find bs (S fuel) (Some i) dv bn)
      with (match bs !! i with
            | None => Dangling
            | Some x => if (dev x =? dv) && (blockno x =? bn) then Cached i
                        else bucket_find bs fuel (next x) dv bn
            end).
    rewrite Hx. destruct ((dev x =? dv) && (blockno x =? bn)) eqn:Hm; [done|].
    apply (IH (i :: seen)).
    + split; [|done]. by exists x.
    + by apply NoDup_cons.
    + simpl. lia.
Qed.

(** Fuel beyond the size of the pool changes nothing: [bucket_find] with
    fuel [length bs] is the loop. *)
Lemma bucket_find_fuel bs dv bn fuel h :
  (length bs ≤ fuel)%nat →
  bucket_find bs fuel h dv bn = bucket_find bs (length bs) h dv bn.
Proof.
  intros Hle. induction Hle as [|fuel Hle IH]; [done|].
  rewrite <- IH. apply (bucket_find_more bs dv bn fuel []); [done| |simpl; lia].
  apply NoDup_nil_2.
Qed.

(** ** Doubly linked lists *)

Lemma links_alter_eq f i bs :
  links (alter f i bs) i = (λ x, (prev (f x), next (f x))) <$> bs !! i.
Proof. unfold links. rewrite list_lookup_alter_eq. by destruct (bs !! i). Qed.

Lemma links_alter_ne f i j bs : i ≠ j → links (alter f i bs) j = links bs j.
Proof. intros. unfold links. by rewrite list_lookup_alter_ne. Qed.

Lemma links_alter_keep f i j bs :
  (∀ x, prev (f x) = prev x ∧ next (f x) = next x) →
  links (alter f i bs) j = links bs j.
Proof.
  intros Hf. destruct (decide (i = j)) as [->|]; [|by apply links_alter_ne].
  rewrite links_alter_eq. unfold links. destruct (bs !! j) as [x|]; [|done].
  simpl. destruct (Hf x) as [Hp' Hn']. by rewrite Hp', Hn'.
Qed.

Lemma dll_ext bs bs' pv h l :
  (∀ i, i ∈ l → links bs' i = links bs i) → dll bs pv h l → dll bs' pv h l.
Proof.
  revert pv h. induction l as [|i l IH]; intros pv h Hl; simpl; [done|].
  intros (-> & nx & Hi & Hd). split; [done|]. exists nx. split.
  - rewrite Hl; [done|left].
  - apply IH; [|done]. intros j Hj. apply Hl. by right.
Qed.

Lemma dll_in_pool bs pv h l i : dll bs pv h l → i ∈ l → is_Some (bs !! i).
Proof.
  revert pv h. induction l as [|j l IH]; intros pv h; simpl.
  - by intros _ ?%elem_of_nil.
  - intros (-> & nx & Hj & Hd) [->|Hi]%elem_of_cons; [|by eapply IH].
    unfold links in Hj. by destruct (bs !! j).
Qed.

Lemma dll_visited bs pv h l fuel :
  dll bs pv h l → (length l ≤ fuel)%nat →
  visited bs fuel h = l ∧ closed bs fuel h = true.
Proof.
  revert pv h fuel. induction l as [|i l IH]; intros pv h fuel; simpl.
  - intros -> _. by destruct fuel.
  - intros (-> & nx & Hi & Hd) Hlen. destruct fuel as [|fuel]; [lia|].
    simpl. unfold links in Hi. destruct (bs !! i) as [x|]; [|done].
    injection Hi as <- <-. destruct (IH _ _ fuel Hd) as [-> ->]; [lia|done].
Qed.

Lemma dll_length bs pv h l : dll bs pv h l → NoDup l → (length l ≤ length bs)%nat.
Proof.
  intros Hd Hn.
  assert (l ⊆+ seq 0 (length bs)) as Hs.
  { apply NoDup_submseteq; [done|]. intros i Hi. apply elem_of_seq.
    destruct (dll_in_pool _ _ _ _ _ Hd Hi) as [x Hx].
    apply lookup_lt_Some in Hx. lia. }
  apply submseteq_length in Hs. by rewrite length_seq in Hs.
Qed.

(** Putting a buffer in front, as a miss of [bget] does. *)
Lemma dll_push bs h l b f :
  dll bs None h l → NoDup l → b ∉ l → is_Some (bs !! b) →
  (∀ x, prev (f x) = None ∧ next (f x) = h) →
  dll (alter_at (set_prev (Some b)) h (alter f b bs)) None (Some b) (b :: l).
Proof.
  intros Hd Hn Hb [x Hx] Hf. destruct l as [|n l]; simpl in Hd.
  - subst h. simpl. split; [done|]. exists None. split; [|done].
    rewrite links_alter_eq, Hx. simpl. destruct (Hf x) as [Hp' Hn']. by rewrite Hp', Hn'.
  - destruct Hd as (-> & nx & Hln & Hd). apply NoDup_cons in Hn as [Hnl Hn].
    apply not_elem_of_cons in Hb as [Hbn Hb].
    simpl. split; [done|]. exists (Some n). split; [|split; [done|]].
    + rewrite links_alter_ne by done. rewrite links_alter_eq, Hx. simpl.
      destruct (Hf x) as [Hp' Hn']. by rewrite Hp', Hn'.
    + exists nx. split.
      * rewrite links_alter_eq. rewrite list_lookup_alter_ne by done.
        unfold links in Hln. destruct (bs !! n) as [xn|]; [|done].
        simpl in *. by injection Hln as _ ->.
      * eapply dll_ext; [|done]. intros i Hi.
        rewrite !links_alter_ne; [done|by intros ->|by intros ->].
Qed.

Lemma dll_mid bs pv h l1 b l2 pb nb :
  dll bs pv h (l1 ++ b :: l2) → links bs b = Some (pb, nb) →
  pb = from_option Some pv (last l1) ∧ nb = head l2 ∧ dll bs (Some b) nb l2.
Proof.
  revert pv h. induction l1 as [|i l1 IH]; intros pv h; simpl.
  - intros (-> & nx & Hlb & Hd) Hl. rewrite Hlb in Hl. injection Hl as <- <-.
    repeat split; [|done]. destruct l2; simpl in *; [done|by destruct Hd].
  - intros (-> & nx & Hli & Hd) Hl. destruct (IH _ _ Hd Hl) as (-> & -> & ?).
    repeat split; [|done]. rewrite last_cons. by destruct (last l1).
Qed.

(** Taking a buffer out, as the last [brelse] does. *)
Lemma dll_unlink bs pv0 h l1 b l2 pb nb :
  dll bs pv0 h (l1 ++ b :: l2) → NoDup (l1 ++ b :: l2) →
  (∀ q, pv0 = Some q → q ∉ l1 ++ b :: l2) →
  links bs b = Some (pb, nb) →
  dll (alter_at (set_prev pb) nb (alter_at (set_next nb) pb bs))
      pv0 (match l1 with [] => nb | _ => h end) (l1 ++ l2).
Proof.
  revert pv0 h. induction l1 as [|i l1 IH]; intros pv0 h; simpl.
  - intros (-> & nx & Hlb & Hd) [Hb Hn]%NoDup_cons Hq Hl.
    rewrite Hlb in Hl. injection Hl as <- <-.
    destruct l2 as [|n l2]; simpl in Hd.
    + by subst nx.
    + destruct Hd as (-> & nn & Hln & Hd). apply NoDup_cons in Hn as [Hnl Hn].
      simpl. split; [done|]. exists nn. split.
      * rewrite links_alter_eq.
        assert (alter_at (set_next (Some n)) pv0 bs !! n = bs !! n) as ->.
        { destruct pv0 as [q|]; [|done]. simpl.
          apply list_lookup_alter_ne. specialize (Hq q eq_refl). set_solver. }
        unfold links in Hln. destruct (bs !! n) as [xn|]; [|done].
        simpl in *. by injection Hln as _ ->.
      * eapply dll_ext; [|done]. intros j Hj.
        rewrite links_alter_ne by set_solver.
        destruct pv0 as [q|]; [|done]. simpl.
        apply links_alter_ne. specialize (Hq q eq_refl). set_solver.
  - intros (-> & nx & Hli & Hd) [Hi Hn]%NoDup_cons Hq Hl.
    split; [done|].
    destruct (dll_mid _ _ _ _ _ _ _ _ Hd Hl) as (Hpb & Hnb & _).
    assert (nb ≠ Some i) as Hnbi.
    { rewrite Hnb. destruct l2 as [|n l2]; [done|]. simpl. intros [= ->].
      apply Hi. rewrite elem_of_app, !elem_of_cons. auto. }
    specialize (IH (Some i) nx Hd Hn).
    exists (match l1 with [] => nb | _ => nx end). split.
    + destruct l1 as [|j l1].
      * simpl in Hpb. subst pb. simpl.
        assert (links (alter (set_next nb) i bs) i = Some (pv0, nb)) as Hi'.
        { rewrite links_alter_eq. unfold links in Hli.
          destruct (bs !! i) as [xi|]; [|done]. simpl in *.
          by injection Hli as -> _. }
        destruct nb as [n|]; [|done]. simpl.
        rewrite links_alter_ne; [done|congruence].
      * assert (pb ≠ Some i) as Hpbi.
        { rewrite Hpb. intros E. apply Hi.
          destruct (last (j :: l1)) as [k|] eqn:Hk; simpl in E;
            [|by apply last_None in Hk].
          injection E as ->. apply last_Some in Hk as [l' ->].
          rewrite <- app_assoc, elem_of_app. right. left. }
        assert (links (alter_at (set_next nb) pb bs) i = Some (pv0, nx)) as Hi'.
        { destruct pb as [q|]; [|done]. simpl.
          rewrite links_alter_ne; [done|congruence]. }
        destruct nb as [n|]; [|done]. simpl.
        rewrite links_alter_ne; [done|congruence].
    + apply IH; [|done]. intros q [= <-]. done.
Qed.

(** ** Well-formed bucket lists *)

Lemma bucket_of_lt bn : (bucket_of bn < Z.to_nat NBUCKET)%nat.
Proof.
  unfold bucket_of, NBUCKET.
  pose proof (Z.mod_pos_bound bn 13). lia.
Qed.

Lemma wf_head s L k : wf s L → is_Some (heads s !! bucket_of k).
Proof.
  intros (Hh & _). apply lookup_lt_is_Some. rewrite Hh. apply bucket_of_lt.
Qed.

Lemma wf_list s L k : wf s L → is_Some (L !! bucket_of k).
Proof.
  intros (_ & Hl & _). apply lookup_lt_is_Some. rewrite Hl. apply bucket_of_lt.
Qed.

Lemma wf_bucket_list s L k l :
  wf s L → L !! k = Some l →
  bucket_list s k = l ∧
  ∃ h, heads s !! k = Some h ∧ closed (bufs s) (length (bufs s)) h = true.
Proof.
  intros (Hh & Hl & Hd & _) Hk.
  assert (is_Some (heads s !! k)) as [h Hhk].
  { apply lookup_lt_is_Some. rewrite Hh, <- Hl. by eapply lookup_lt_Some. }
  destruct (Hd k h l Hhk Hk) as [Hdl Hn].
  pose proof (dll_length _ _ _ _ Hdl Hn) as Hlen.
  destruct (dll_visited _ _ _ _ _ Hdl Hlen) as [Hv Hc].
  unfold bucket_list. rewrite Hhk. simpl. eauto.
Qed.

Lemma visited_null bs fuel : visited bs fuel None = [].
Proof. by destruct fuel. Qed.

Lemma wf_attached s L k b :
  wf s L → attached s k b ↔ ∃ l, L !! k = Some l ∧ b ∈ l.
Proof.
  intros Hwf. unfold attached. destruct (L !! k) as [l|] eqn:Hk.
  - destruct (wf_bucket_list _ _ _ _ Hwf Hk) as [-> _]. split.
    + intros Hb. by exists l.
    + by intros (l' & [= <-] & Hb).
  - split; [|by intros (l' & [=] & _)]. unfold bucket_list.
    destruct Hwf as (Hh & Hl & _).
    rewrite (lookup_ge_None_2 (heads s) k); simpl.
    { rewrite visited_null. by intros ?%elem_of_nil. }
    apply lookup_ge_None_1 in Hk. lia.
Qed.

Lemma wf_detached s L b : wf s L → detached s b ↔ unlisted L b.
Proof.
  intros Hwf. unfold detached, unlisted. split.
  - intros H k l Hk Hb. apply (H k). apply (wf_attached _ _ _ _ Hwf). eauto.
  - intros H k (l & Hk & Hb)%(wf_attached _ _ _ _ Hwf). by eapply H.
Qed.

(** A step that keeps the heads and every [prev] and [next] keeps the
    lists. *)
Lemma wf_keep s s' L :
  heads s' = heads s → (∀ i, links (bufs s') i = links (bufs s) i) →
  wf s L → wf s' L.
Proof.
  intros Hh Hl (H1 & H2 & H3 & H4). repeat split; try done.
  - by rewrite Hh.
  - eapply dll_ext; [|eapply H3; by rewrite <- ?Hh]. intros; apply Hl.
  - eapply H3; by rewrite <- ?Hh.
Qed.

Lemma visited_ext bs bs' fuel h :
  (∀ i, links bs' i = links bs i) →
  visited bs' fuel h = visited bs fuel h.
Proof.
  intros Hl. revert h. induction fuel as [|fuel IH]; intros [i|]; simpl; try done.
  specialize (Hl i). unfold links in Hl.
  destruct (bs' !! i) as [x'|], (bs !! i) as [x|]; simpl in Hl; try done.
  injection Hl as _ ->. by rewrite IH.
Qed.

Lemma bucket_list_keep s s' k :
  heads s' = heads s → (∀ i, links (bufs s') i = links (bufs s) i) →
  bucket_list s' k = bucket_list s k.
Proof.
  intros Hh Hl. unfold bucket_list. rewrite Hh.
  assert (length (bufs s') = length (bufs s)) as ->.
  { apply Nat.le_antisymm; apply Nat.nlt_ge; intros Hlt.
    - specialize (Hl (length (bufs s))). unfold links in Hl.
      rewrite (lookup_ge_None_2 (bufs s)) in Hl by lia.
      apply lookup_lt_is_Some in Hlt as [x Hx]. by rewrite Hx in Hl.
    - specialize (Hl (length (bufs s'))). unfold links in Hl.
      rewrite (lookup_ge_None_2 (bufs s')) in Hl by lia.
      apply lookup_lt_is_Some in Hlt as [x Hx]. by rewrite Hx in Hl. }
  by apply visited_ext.
Qed.

Lemma dll_head bs pv n l : dll bs pv (Some n) l → n ∈ l.
Proof. destruct l; simpl; [done|]. intros ([= <-] & _). left. Qed.

Lemma lookup_insert_list {A} (L : list A) k j (v w : A) :
  <[k := v]> L !! j = Some w →
  (j = k ∧ w = v ∧ (k < length L)%nat) ∨ (j ≠ k ∧ L !! j = Some w).
Proof.
  intros H. destruct (decide (j = k)) as [->|Hne].
  - left. assert (k < length L)%nat.
    { apply lookup_lt_Some in H. by rewrite length_insert in H. }
    rewrite list_lookup_insert_eq in H by done. by injection H as <-.
  - right. by rewrite list_lookup_insert_ne in H.
Qed.

(** A miss of [bget] keeps the lists well formed, given that the buffer it
    takes is on no list. *)
Lemma wf_push s L k h l b f d lg :
  wf s L → heads s !! k = Some h → L !! k = Some l →
  unlisted L b → is_Some (bufs s !! b) →
  (∀ x, prev (f x) = None ∧ next (f x) = h) →
  wf (State (alter_at (set_prev (Some b)) h (alter f b (bufs s)))
            (<[k := Some b]> (heads s)) d lg)
     (<[k := b :: l]> L).
Proof.
  intros (H1 & H2 & H3 & H4) Hh Hl Hb Hx Hf.
  destruct (H3 k h l Hh Hl) as [Hd Hn]. pose proof (Hb k l Hl) as Hbl.
  unfold wf. simpl. rewrite !length_insert.
  split; [done|]. split; [done|]. split.
  - intros j hj lj Hhj Hlj.
    apply lookup_insert_list in Hhj as [(-> & -> & _)|[Hne Hj]].
    + apply lookup_insert_list in Hlj as [(_ & -> & _)|[? _]]; [|done].
      split; [by apply dll_push|by apply NoDup_cons].
    + rewrite list_lookup_insert_ne in Hlj by done.
      destruct (H3 _ _ _ Hj Hlj) as [Hd' Hn']. split; [|done].
      eapply dll_ext; [|done]. intros i Hi.
      assert (i ≠ b) by (intros ->; by eapply Hb).
      assert (links (alter f b (bufs s)) i = links (bufs s) i) as <-.
      { by apply links_alter_ne. }
      destruct h as [n|]; [|done]. simpl. apply links_alter_ne.
      intros ->. apply Hne. eapply H4; [done..|]. by eapply dll_head.
  - intros j1 j2 l1 l2 i Hj1 Hj2 Hi1 Hi2.
    apply lookup_insert_list in Hj1 as [(-> & -> & _)|[Hne1 Hj1]];
    apply lookup_insert_list in Hj2 as [(-> & -> & _)|[Hne2 Hj2]]; try done.
    + apply elem_of_cons in Hi1 as [->|Hi1]; [by edestruct Hb|].
      symmetry. by eapply H4.
    + apply elem_of_cons in Hi2 as [->|Hi2]; [by edestruct Hb|].
      by eapply H4.
    + by eapply H4.
Qed.

Lemma links_set_prev v p bs i :
  links (alter (set_prev v) p bs) i =
    if decide (p = i) then (λ q, (v, q.2)) <$> links bs i else links bs i.
Proof.
  case_decide as Hp; [subst p|by apply links_alter_ne].
  rewrite links_alter_eq. unfold links. by destruct (bs !! i).
Qed.

Lemma links_set_next v p bs i :
  links (alter (set_next v) p bs) i =
    if decide (p = i) then (λ q, (q.1, v)) <$> links bs i else links bs i.
Proof.
  case_decide as Hp; [subst p|by apply links_alter_ne].
  rewrite links_alter_eq. unfold links. by destruct (bs !! i).
Qed.

Lemma links_unlink_keep g g' b pb nb bs i :
  (∀ x, prev (g x) = prev x ∧ next (g x) = next x) →
  (∀ x, prev (g' x) = prev x ∧ next (g' x) = next x) →
  links (alter g b (alter_at (set_prev pb) nb
           (alter_at (set_next nb) pb (alter g' b bs)))) i =
  links (alter_at (set_prev pb) nb (alter_at (set_next nb) pb bs)) i.
Proof.
  intros Hg Hg'. rewrite links_alter_keep by done.
  destruct nb as [n|], pb as [q|]; simpl;
    rewrite ?links_set_prev, ?links_set_next, ?links_alter_keep by done;
    done.
Qed.

Lemma NoDup_remove_mid {A} (l1 l2 : list A) b :
  NoDup (l1 ++ b :: l2) → NoDup (l1 ++ l2) ∧ b ∉ l1 ++ l2.
Proof.
  rewrite !NoDup_app, NoDup_cons. intros (Hn1 & Hd & Hb & Hn2).
  split; [repeat split; [done| |done]|].
  - intros x Hx1 Hx2. apply (Hd x Hx1). by right.
  - rewrite elem_of_app. intros [Hb1|Hb2]; [|done]. apply (Hd b Hb1). left.
Qed.

Lemma wf_unlink_core s L k h l1 b l2 pb nb d lg :
  wf s L → heads s !! k = Some h → L !! k = Some (l1 ++ b :: l2) →
  links (bufs s) b = Some (pb, nb) →
  wf (State (alter_at (set_prev pb) nb (alter_at (set_next nb) pb (bufs s)))
            (if decide (h = Some b) then <[k := nb]> (heads s) else heads s)
            d lg)
     (<[k := l1 ++ l2]> L).
Proof.
  intros (H1 & H2 & H3 & H4) Hh Hl Hlb.
  destruct (H3 k h _ Hh Hl) as [Hd Hn].
  destruct (dll_mid _ _ _ _ _ _ _ _ Hd Hlb) as (Hpb & Hnb & _).
  destruct (NoDup_remove_mid _ _ _ Hn) as [Hn' Hb'].
  assert (∀ q, pb = Some q → q ∈ l1 ++ b :: l2) as Hpin.
  { intros q ->. simpl in Hpb. destruct (last l1) as [q'|] eqn:Hq; [|done].
    simpl in Hpb. injection Hpb as <-. apply last_Some in Hq as [l' ->].
    rewrite <- app_assoc, !elem_of_app. right. left. left. }
  assert (∀ n, nb = Some n → n ∈ l1 ++ b :: l2) as Hnin.
  { intros n ->. destruct l2 as [|n' l2]; [done|]. simpl in Hnb.
    injection Hnb as <-. rewrite elem_of_app, !elem_of_cons. auto. }
  assert (length (if decide (h = Some b) then <[k := nb]> (heads s)
                  else heads s) = length (heads s)) as Hlen.
  { case_decide; [by rewrite length_insert|done]. }
  unfold wf. simpl.
  split; [by rewrite Hlen|]. split; [by rewrite length_insert|].
  split; [|].
  - intros j hj lj Hhj Hlj. simpl in *.
    apply lookup_insert_list in Hlj as [(-> & -> & Hk)|[Hne Hj]].
    + split; [|done].
      pose proof (dll_unlink _ _ _ _ _ _ _ _ Hd Hn (λ q (E : None = Some q),
        match E with end) Hlb) as Hu.
      replace hj with (match l1 with [] => nb | _ => h end); [done|].
      destruct l1 as [|i l1]; simpl in *.
      * destruct Hd as [-> _]. rewrite decide_True in Hhj by done.
        rewrite list_lookup_insert_eq in Hhj; [congruence|].
        by eapply lookup_lt_Some.
      * destruct Hd as [-> _]. apply NoDup_cons in Hn as [Hi _].
        rewrite decide_False in Hhj; [congruence|].
        intros [= ->]. apply Hi. rewrite elem_of_app, elem_of_cons. auto.
    + assert (heads s !! j = Some hj) as Hhj'.
      { case_decide; [|done]. by rewrite list_lookup_insert_ne in Hhj. }
      destruct (H3 _ _ _ Hhj' Hj) as [Hd' Hn'']. split; [|done].
      eapply dll_ext; [|done]. intros i Hi.
      assert (i ∉ l1 ++ b :: l2) as Hik.
      { intros Hik. apply Hne. by eapply H4. }
      destruct nb as [n|], pb as [q|]; simpl;
        rewrite ?links_set_prev, ?links_set_next;
        repeat case_decide; subst; try done;
        exfalso; apply Hik; auto.
  - intros j1 j2 lj1 lj2 i Hj1 Hj2 Hi1 Hi2.
    assert (∀ i, i ∈ l1 ++ l2 → i ∈ l1 ++ b :: l2) as Hsub.
    { intros i'. rewrite !elem_of_app, elem_of_cons. tauto. }
    apply lookup_insert_list in Hj1 as [(-> & -> & _)|[Hne1 Hj1]];
    apply lookup_insert_list in Hj2 as [(-> & -> & _)|[Hne2 Hj2]]; try done.
    + symmetry. eapply H4; eauto.
    + eapply H4; eauto.
    + eapply H4; eauto.
Qed.

(** The last [brelse] of a buffer keeps the lists well formed and takes
    the buffer off its list. *)
Lemma wf_unlink s L k h l1 b l2 pb nb g g' d lg :
  wf s L → heads s !! k = Some h → L !! k = Some (l1 ++ b :: l2) →
  links (bufs s) b = Some (pb, nb) →
  (∀ x, prev (g x) = prev x ∧ next (g x) = next x) →
  (∀ x, prev (g' x) = prev x ∧ next (g' x) = next x) →
  wf (State (alter g b (alter_at (set_prev pb) nb
               (alter_at (set_next nb) pb (alter g' b (bufs s)))))
            (if decide (h = Some b) then <[k := nb]> (heads s) else heads s)
            d lg)
     (<[k := l1 ++ l2]> L).
Proof.
  intros Hwf Hh Hl Hlb Hg Hg'.
  eapply wf_keep; [| |by eapply (wf_unlink_core _ _ _ _ _ _ _ _ _ d lg)].
  - done.
  - intros i. simpl. by apply links_unlink_keep.
Qed.

(** ** Hits and misses *)

Lemma attached_head s k b : attached s k b → is_Some (heads s !! k).
Proof.
  unfold attached, bucket_list. destruct (heads s !! k); [done|]. simpl.
  rewrite visited_null. by intros ?%elem_of_nil.
Qed.

Lemma hit_find s dv bn b :
  hit s dv bn b →
  ∃ h, heads s !! bucket_of bn = Some h ∧
       bucket_find (bufs s) (length (bufs s)) h dv bn = Cached b.
Proof.
  intros (Ha & Hid & Hu). destruct (attached_head _ _ _ Ha) as [h Hh].
  exists h. split; [done|]. unfold attached, bucket_list in *.
  rewrite Hh in *. simpl in *. by apply bucket_find_cached.
Qed.

Lemma miss_find s dv bn :
  miss s dv bn ↔
  ∃ h, heads s !! bucket_of bn = Some h ∧
       bucket_find (bufs s) (length (bufs s)) h dv bn = Missing.
Proof.
  unfold miss, attached, bucket_list, has_id. split.
  - intros [(h & Hh & Hc) Hn]. exists h. split; [done|].
    apply bucket_find_missing. rewrite Hh in Hn. by split.
  - intros (h & Hh & [Hc Hn]%bucket_find_missing). rewrite Hh. simpl.
    split; [by exists h|done].
Qed.

Lemma bget_hit s p dv bn b x :
  hit s dv bn b → bufs s !! b = Some x →
  bget p dv bn s =
    bget_wake p b
      (State (alter (set_refcnt (uint_wrap (refcnt x + 1))) b (bufs s))
             (heads s) (disk s)
             (log s ++ [EAcquire (BucketLock (bucket_of bn));
                        ERefcnt b (uint_wrap (refcnt x + 1));
                        ERelease (BucketLock (bucket_of bn))])).
Proof.
  intros (h & Hh & Hf)%hit_find Hx. by eapply bget_cached.
Qed.

Lemma first_free_first bs b :
  first_free bs 0 = Some b ↔
  ∃ x, bs !! b = Some x ∧ refcnt x = 0 ∧
       ∀ j y, (j < b)%nat → bs !! j = Some y → refcnt y ≠ 0.
Proof.
  rewrite first_free_spec. rewrite Nat.sub_0_r.
  split; intros (x & H); exists x; [tauto|]. split; [lia|tauto].
Qed.

Lemma bget_miss s p dv bn h b :
  miss s dv bn → heads s !! bucket_of bn = Some h →
  first_free (bufs s) 0 = Some b →
  bget p dv bn s =
    bget_wake p b
      (State (alter_at (set_prev (Some b)) h
                (alter (fresh dv bn h) b (bufs s)))
             (<[bucket_of bn := Some b]> (heads s)) (disk s)
             (log s ++ [EAcquire (BucketLock (bucket_of bn));
                        EAcquire PoolLock; ERefcnt b 1; ERelease PoolLock;
                        ERelease (BucketLock (bucket_of bn))])).
Proof.
  intros (h' & Hh' & Hf)%miss_find Hh Hff.
  rewrite Hh in Hh'. injection Hh' as <-.
  apply bget_missing; try done.
  apply first_free_first in Hff as (x & Hx & _). by exists x.
Qed.

Lemma bget_exhausted s p dv bn :
  miss s dv bn → first_free (bufs s) 0 = None →
  bget p dv bn s =
    Panic "bget: no buffers"
      (State (bufs s) (heads s) (disk s)
             (log s ++ [EAcquire (BucketLock (bucket_of bn));
                        EAcquire PoolLock])).
Proof.
  intros (h & Hh & Hf)%miss_find Hff. unfold bget. cbv zeta.
  do 3 mstep. simpl. rewrite Hf. do 2 mstep. simpl. rewrite Hff.
  unfold panic. by rewrite <- app_assoc.
Qed.

Lemma bind_wild {A B} (m : M A) (f : A → M B) s :
  m s = Wild → bind m f s = Wild.
Proof. unfold bind. by intros ->. Qed.

Lemma bucket_find_in_pool bs fuel h dv bn b :
  bucket_find bs fuel h dv bn = Cached b → is_Some (bs !! b).
Proof. intros [_ (x & Hx & _)]%bucket_find_cached_inv. by exists x. Qed.

(** Every way [bget] can go. *)
Lemma bget_cases s p dv bn :
  match heads s !! bucket_of bn with
  | None => bget p dv bn s = Wild
  | Some h =>
      match bucket_find (bufs s) (length (bufs s)) h dv bn with
      | Cached b =>
          ∃ x, bufs s !! b = Some x ∧
          bget p dv bn s =
            bget_wake p b
              (State (alter (set_refcnt (uint_wrap (refcnt x + 1))) b (bufs s))
                     (heads s) (disk s)
                     (log s ++ [EAcquire (BucketLock (bucket_of bn));
                                ERefcnt b (uint_wrap (refcnt x + 1));
                                ERelease (BucketLock (bucket_of bn))]))
      | Missing =>
          match first_free (bufs s) 0 with
          | Some b =>
              ∃ x, bufs s !! b = Some x ∧ refcnt x = 0 ∧
              bget p dv bn s =
                bget_wake p b
                  (State (alter_at (set_prev (Some b)) h
                            (alter (fresh dv bn h) b (bufs s)))
                         (<[bucket_of bn := Some b]> (heads s)) (disk s)
                         (log s ++ [EAcquire (BucketLock (bucket_of bn));
                                    EAcquire PoolLock; ERefcnt b 1;
                                    ERelease PoolLock;
                                    ERelease (BucketLock (bucket_of bn))]))
          | None =>
              bget p dv bn s =
                Panic "bget: no buffers"
                  (State (bufs s) (heads s) (disk s)
                         (log s ++ [EAcquire (BucketLock (bucket_of bn));
                                    EAcquire PoolLock]))
          end
      | Endless => bget p dv bn s = Hang
      | Dangling => bget p dv bn s = Wild
      end
  end.
Proof.
  destruct (heads s !! bucket_of bn) as [h|] eqn:Hh.
  - destruct (bucket_find _ _ _ _ _) as [b| | |] eqn:Hf.
    + destruct (bucket_find_in_pool _ _ _ _ _ _ Hf) as [x Hx].
      exists x. split; [done|]. by eapply bget_cached.
    + assert (miss s dv bn) as Hm by (apply miss_find; eauto).
      destruct (first_free _ _) as [b|] eqn:Hff.
      * pose proof Hff as (x & Hx & Hr & _)%first_free_first.
        exists x. repeat split; try done. by apply bget_miss.
      * by apply bget_exhausted.
    + unfold bget. cbv zeta. do 3 mstep. simpl. by rewrite Hf.
    + unfold bget. cbv zeta. do 3 mstep. simpl. by rewrite Hf.
  - unfold bget. cbv zeta. mstep. apply bind_wild.
    unfold get_head. simpl. by rewrite Hh.
Qed.

Ltac mwild :=
  repeat mstep;
  repeat rewrite bind_assoc;
  apply bind_wild;
  first [ unfold store; cbn [bufs];
          match goal with
          | |- context [?l !! ?i] =>
              let H := fresh in
              assert (l !! i = None) as H
                by (apply lookup_ge_None; rewrite ?length_alter;
                    by apply lookup_ge_None);
              rewrite H
          end; reflexivity
        | unfold get_head; cbn [heads];
          match goal with H : heads _ !! _ = None |- _ => rewrite H end;
          reflexivity ].

Lemma brelse_last_wild s p b x :
  bufs s !! b = Some x → lock x = Some p → refcnt x = 1 →
  (∃ i, prev x = Some i ∧ bufs s !! i = None) ∨
  (∃ i, next x = Some i ∧ bufs s !! i = None) ∨
  heads s !! bucket_of (blockno x) = None →
  brelse p b s = Wild.
Proof.
  intros Hx Hl Hr Hbad. unfold brelse, holdingsleep, releasesleep.
  cbv zeta.
  do 2 mstep. unfold ret at 1. mstep.
  rewrite bool_decide_true by done. simpl. unfold ret at 1.
  do 5 mstep. simpl. rewrite Hr. simpl.
  destruct (prev x) as [pv|] eqn:Hpv;
    [destruct (bufs s !! pv) as [xp|] eqn:Hxp; [|by mwild]|].
  all: destruct (next x) as [nx|] eqn:Hnx;
    [destruct (bufs s !! nx) as [xn|] eqn:Hxn|].
  all: destruct (heads s !! bucket_of (blockno x)) as [h|] eqn:Hh.
  all: try (exfalso;
            destruct Hbad as [(i & [= <-] & ?)|[(i & [= <-] & ?)|?]];
            congruence).
  all: try destruct (decide (pv = b)) as [->|].
  all: try destruct (decide (nx = b)) as [->|].
  all: simplify_eq.
  all: repeat (mstep; cbn [prev next set_next set_prev set_lock set_refcnt];
               rewrite ?Hpv, ?Hnx).
  all: try by mwild.
Qed.

(** ** Reference counts along a step *)

Lemma lookup_alter_keep {A} (g : buf → A) (f : buf → buf) i (bs : list buf) j :
  (∀ x, g (f x) = g x) →
  g <$> alter f i bs !! j = g <$> bs !! j.
Proof.
  intros Hf. destruct (decide (i = j)) as [->|].
  - rewrite list_lookup_alter_eq. destruct (bs !! j); simpl; [|done].
    by rewrite Hf.
  - by rewrite list_lookup_alter_ne.
Qed.

Lemma lookup_alter_at_keep {A} (g : buf → A) (f : buf → buf) i
    (bs : list buf) j :
  (∀ x, g (f x) = g x) →
  g <$> alter_at f i bs !! j = g <$> bs !! j.
Proof. destruct i; [apply lookup_alter_keep|done]. Qed.

Lemma lookup_alter_set (f : buf → buf) b (bs : list buf) j v :
  (∀ x, refcnt (f x) = v) →
  refcnt <$> alter f b bs !! j =
    if decide (b = j) then (λ _, v) <$> bs !! j else refcnt <$> bs !! j.
Proof.
  intros Hf. case_decide as Hb; [subst b|by rewrite list_lookup_alter_ne].
  rewrite list_lookup_alter_eq. destruct (bs !! j); simpl; [|done].
  by rewrite Hf.
Qed.

Lemma bget_wake_count s p b s' :
  after (bget_wake p b s) = Some s' →
  same_counts s s' ∧
  (bget_wake p b s = Ret b s' ∨ bget_wake p b s = Sleep b s').
Proof.
  destruct (bufs s !! b) as [x|] eqn:Hx.
  - rewrite (bget_wake_eq _ _ _ _ Hx). destruct (lock x); simpl.
    + intros [= <-]. split; [done|by right].
    + intros [= <-]. split; [|by left]. intros j. unfold count. simpl.
      by apply lookup_alter_keep.
  - unfold bget_wake, acquiresleep, bind, load. by rewrite Hx.
Qed.

Lemma bread_rest_count s b s' :
  after (bread_rest b s) = Some s' →
  same_counts s s' ∧ bread_rest b s = Ret b s'.
Proof.
  destruct (bufs s !! b) as [x|] eqn:Hx.
  - rewrite (bread_rest_eq _ _ _ Hx). destruct (valid x =? 0); simpl.
    + intros [= <-]. split; [|done]. intros j. unfold count. simpl.
      by apply lookup_alter_keep.
    + intros [= <-]. by split.
  - unfold bread_rest, bind, load. by rewrite Hx.
Qed.

Lemma bget_count s p dv bn s' :
  after (bget p dv bn s) = Some s' →
  ∃ b, (bget p dv bn s = Ret b s' ∨ bget p dv bn s = Sleep b s') ∧
       bumped b 1 s s'.
Proof.
  pose proof (bget_cases s p dv bn) as Hc.
  destruct (heads s !! bucket_of bn) as [h|]; [|by rewrite Hc].
  destruct (bucket_find _ _ _ _ _) as [b| | |]; try by rewrite Hc.
  - destruct Hc as (x & Hx & ->). intros [Hs Ho]%bget_wake_count.
    exists b. split; [done|]. intros j. rewrite Hs. unfold count. simpl.
    rewrite (lookup_alter_set _ _ _ _ (uint_wrap (refcnt x + 1))) by done.
    case_decide; [subst j|done]. by rewrite Hx.
  - destruct (first_free _ _) as [b|]; [|by rewrite Hc].
    destruct Hc as (x & Hx & Hr & ->). intros [Hs Ho]%bget_wake_count.
    exists b. split; [done|]. intros j. rewrite Hs. unfold count. simpl.
    rewrite lookup_alter_at_keep by done.
    rewrite (lookup_alter_set _ _ _ _ 1) by (intros; reflexivity).
    case_decide; [subst j|done]. rewrite Hx. simpl. rewrite Hr. reflexivity.
Qed.

Lemma bumped_same b d s s1 s' :
  bumped b d s s1 → same_counts s1 s' → bumped b d s s'.
Proof. intros Hb Hs j. by rewrite Hs. Qed.

Lemma bread_count s p dv bn s' :
  after (bread p dv bn s) = Some s' →
  ∃ b, (bread p dv bn s = Ret b s' ∨ bread p dv bn s = Sleep b s') ∧
       bumped b 1 s s'.
Proof.
  rewrite bread_eq. unfold bind at 1.
  destruct (bget p dv bn s) as [b s1|m s1|b s1| |] eqn:Hg; try done.
  - destruct (bget_count s p dv bn s1) as (b' & [E|E] & Hb);
      [by rewrite Hg| |congruence]. rewrite Hg in E. injection E as <-.
    intros [Hs Hr]%bread_rest_count. exists b. split.
    + left. unfold bind. by rewrite Hg.
    + by eapply bumped_same.
  - simpl. intros [= <-].
    destruct (bget_count s p dv bn s1) as (b' & [E|E] & Hb);
      [by rewrite Hg|congruence|]. rewrite Hg in E. injection E as <-.
    exists b. split; [|done]. right. unfold bind. by rewrite Hg.
Qed.

Lemma ptr_in_pool (bs : list buf) (q : bufptr) :
  (∀ i, q = Some i → is_Some (bs !! i)) ∨ (∃ i, q = Some i ∧ bs !! i = None).
Proof.
  destruct q as [i|]; [|by left].
  destruct (bs !! i) as [x|] eqn:E; [left|right; eauto].
  intros ? [= <-]. rewrite E. eauto.
Qed.

Lemma brelse_count s p b s' :
  after (brelse p b s) = Some s' →
  brelse p b s = Ret tt s' ∧ bumped b (-1) s s'.
Proof.
  destruct (bufs s !! b) as [x|] eqn:Hx.
  2: { unfold brelse, bind, load. by rewrite Hx. }
  destruct (decide (lock x = Some p)) as [Hl|Hl].
  2: { by rewrite (proj2 (lock_contract _ _ _ _ Hx Hl)). }
  destruct (decide (refcnt x = 1)) as [Hr|Hr].
  - destruct (heads s !! bucket_of (blockno x)) as [h|] eqn:Hh.
    2: { rewrite (brelse_last_wild _ _ _ _ Hx Hl Hr); [done|auto]. }
    destruct (ptr_in_pool (bufs s) (prev x)) as [Hp|Hp].
    2: { rewrite (brelse_last_wild _ _ _ _ Hx Hl Hr); [done|auto]. }
    destruct (ptr_in_pool (bufs s) (next x)) as [Hn|Hn].
    2: { rewrite (brelse_last_wild _ _ _ _ Hx Hl Hr); [done|auto]. }
    rewrite (brelse_last _ _ _ _ _ Hx Hl Hr Hh Hp Hn). simpl.
    intros [= <-]. split; [done|]. intros j. unfold count. simpl.
    rewrite (lookup_alter_set _ _ _ _ 0) by done.
    rewrite !lookup_alter_at_keep, !lookup_alter_keep by done.
    case_decide; [subst j|done]. rewrite Hx. simpl. rewrite Hr. reflexivity.
  - rewrite (brelse_shared _ _ _ _ Hx Hl Hr). simpl.
    intros [= <-]. split; [done|]. intros j. unfold count. simpl.
    rewrite (lookup_alter_set _ _ _ _ (uint_wrap (refcnt x - 1))) by done.
    case_decide; [subst j|done]. by rewrite Hx.
Qed.

Lemma bpin_count s b s' :
  after (bpin b s) = Some s' → bpin b s = Ret tt s' ∧ bumped b 1 s s'.
Proof.
  destruct (bufs s !! b) as [x|] eqn:Hx.
  2: { unfold bpin, bind, load. by rewrite Hx. }
  rewrite (bpin_eq _ _ _ Hx). simpl. intros [= <-]. split; [done|].
  intros j. unfold count. simpl.
  rewrite (lookup_alter_set _ _ _ _ (uint_wrap (refcnt x + 1))) by done.
  case_decide; [subst j|done]. by rewrite Hx.
Qed.

Lemma bunpin_count s b s' :
  after (bunpin b s) = Some s' → bunpin b s = Ret tt s' ∧ bumped b (-1) s s'.
Proof.
  destruct (bufs s !! b) as [x|] eqn:Hx.
  2: { unfold bunpin, bind, load. by rewrite Hx. }
  rewrite (bunpin_eq _ _ _ Hx). simpl. intros [= <-]. split; [done|].
  intros j. unfold count. simpl.
  rewrite (lookup_alter_set _ _ _ _ (uint_wrap (refcnt x - 1))) by done.
  case_decide; [subst j|done]. by rewrite Hx.
Qed.

Lemma bwrite_count s p b s' :
  after (bwrite p b s) = Some s' → bwrite p b s = Ret tt s' ∧ same_counts s s'.
Proof.
  destruct (bufs s !! b) as [x|] eqn:Hx.
  2: { unfold bwrite, holdingsleep, bind, load. by rewrite Hx. }
  destruct (decide (lock x = Some p)) as [Hl|Hl].
  2: { by rewrite (proj1 (lock_contract _ _ _ _ Hx Hl)). }
  rewrite (bwrite_eq _ _ _ _ Hx Hl). simpl. by intros [= <-].
Qed.

Lemma bread_wake_count s p b s' :
  after (bread_wake p b s) = Some s' → same_counts s s'.
Proof.
  unfold bread_wake, bind at 1.
  destruct (bget_wake p b s) as [b' s1|m s1|b' s1| |] eqn:Hg; try done.
  - destruct (bget_wake_count s p b s1) as [Hs [E|E]];
      [by rewrite Hg| |congruence]. rewrite Hg in E. injection E as <-.
    intros [Hs' _]%bread_rest_count. intros j. by rewrite Hs'.
  - simpl. intros [= <-].
    by destruct (bget_wake_count s p b s1) as [Hs _]; [by rewrite Hg|].
Qed.

Lemma bump_zero c : 0 ≤ c < UINT_MOD → uint_wrap (c + 0) = c.
Proof. intros. unfold uint_wrap. rewrite Z.add_0_r. by apply Z.mod_small. Qed.

(** One step moves each count by what the callers' books say. *)
Lemma exec_count a s s' j :
  typed s → after (exec a s) = Some s' →
  count s' j =
    (λ c, uint_wrap (c + (holder_change a (exec a s) j +
                          pin_change a (exec a s) j))) <$> count s j.
Proof.
  intros Ht Ha.
  assert (∀ s1, same_counts s s1 →
    count s1 j = (λ c, uint_wrap (c + 0)) <$> count s j) as Hsame.
  { intros s1 ->. destruct (count s j) as [c|] eqn:Hc; [|done].
    simpl. by rewrite bump_zero by eauto. }
  assert (∀ b d s1, bumped b d s s1 →
    count s1 j = (λ c, uint_wrap (c + (if decide (b = j) then d else 0)))
                 <$> count s j) as Hbump.
  { intros b d s1 ->. case_decide; [done|].
    destruct (count s j) as [c|] eqn:Hc; [|done].
    simpl. by rewrite bump_zero by eauto. }
  destruct a as [p dv bn|p dv bn|p b|p b|b|b|p b|p b]; cbn [exec] in *.
  - unfold bind in *.
    destruct (bget_count s p dv bn s') as (b & [E|E] & Hb).
    { by destruct (bget p dv bn s). }
    all: rewrite E in *; simpl; rewrite Z.add_0_r; by eapply Hbump.
  - unfold bind in *.
    destruct (bread_count s p dv bn s') as (b & [E|E] & Hb).
    { by destruct (bread p dv bn s). }
    all: rewrite E in *; simpl; rewrite Z.add_0_r; by eapply Hbump.
  - destruct (bwrite_count s p b s') as [E Hs].
    { by destruct (bwrite p b s). }
    rewrite E. simpl. by apply Hsame.
  - destruct (brelse_count s p b s') as [E Hb].
    { by destruct (brelse p b s). }
    rewrite E. simpl. rewrite Z.add_0_r. by eapply Hbump.
  - destruct (bpin_count s b s') as [E Hb].
    { by destruct (bpin b s). }
    rewrite E. simpl. by eapply Hbump.
  - destruct (bunpin_count s b s') as [E Hb].
    { by destruct (bunpin b s). }
    rewrite E. simpl. by eapply Hbump.
  - unfold bind in *. apply Hsame.
    destruct (bget_wake p b s) as [b' s1|m s1|b' s1| |] eqn:Hg; try done.
    all: simpl in Ha; injection Ha as <-.
    all: by destruct (bget_wake_count s p b s1) as [Hs _]; [by rewrite Hg|].
  - unfold bind in *. apply Hsame.
    destruct (bread_wake p b s) as [b' s1|m s1|b' s1| |] eqn:Hg; try done.
    all: simpl in Ha; injection Ha as <-.
    all: by apply (bread_wake_count s p b); rewrite Hg.
Qed.

Lemma uint_wrap_range z : 0 ≤ uint_wrap z < UINT_MOD.
Proof. unfold uint_wrap. by apply Z.mod_pos_bound. Qed.

Lemma exec_typed a s s' : typed s → after (exec a s) = Some s' → typed s'.
Proof.
  intros Ht Ha j c. rewrite (exec_count a s s' j Ht Ha).
  destruct (count s j); simpl; [|done]. intros [= <-]. apply uint_wrap_range.
Qed.

Lemma uint_wrap_add z d : uint_wrap (uint_wrap z + d) = uint_wrap (z + d).
Proof. unfold uint_wrap. by rewrite Zplus_mod_idemp_l. Qed.

(** A run moves each count by the holders and the pins it leaves
    outstanding. *)
Lemma run_count acts s s' j :
  typed s → run acts s = Some s' →
  count s' j =
    (λ c, uint_wrap (c + (holders acts s j + pins acts s j))) <$> count s j.
Proof.
  revert s. induction acts as [|a acts IH]; intros s Ht; simpl.
  - intros [= <-]. destruct (count s j) as [c|] eqn:Hc; [|done].
    simpl. by rewrite bump_zero by eauto.
  - destruct (after (exec a s)) as [s1|] eqn:Ha; [|done]. intros Hr.
    rewrite (IH s1 (exec_typed _ _ _ Ht Ha) Hr).
    rewrite (exec_count a s s1 j Ht Ha).
    destruct (count s j) as [c|]; [|done]. simpl. f_equal.
    rewrite uint_wrap_add. f_equal. lia.
Qed.

Lemma binit_typed N d : typed (binit N d).
Proof.
  intros j c. unfold count. simpl. intros Hc.
  destruct (replicate N buf0 !! j) as [x|] eqn:Hx; [|done].
  apply lookup_replicate in Hx as [-> _]. injection Hc as <-.
  unfold UINT_MOD. simpl. lia.
Qed.

(** ** What the calls do, in the words of the claims *)

Lemma transfers_app l l' : transfers (l ++ l') = transfers l ++ transfers l'.
Proof. apply omap_app. Qed.

Lemma first_free_below bs i b x :
  bs !! b = Some x → refcnt x = 0 →
  ∃ j, first_free bs i = Some j ∧ (j ≤ i + b)%nat.
Proof.
  revert i b. induction bs as [|x0 bs IH]; intros i b; [done|]. simpl.
  destruct (Z.eqb_spec (refcnt x0) 0) as [|Hne].
  - intros _ _. exists i. split; [done|lia].
  - destruct b as [|b]; simpl.
    + intros [= ->] ?. done.
    + intros Hx Hr. destruct (IH (S i) b Hx Hr) as (j & -> & ?).
      exists j. split; [done|lia].
Qed.

Lemma field_alter_set {A} (g : buf → A) (f : buf → buf) b (bs : list buf) j v :
  (∀ x, g (f x) = v) →
  g <$> alter f b bs !! j =
    if decide (b = j) then (λ _, v) <$> bs !! j else g <$> bs !! j.
Proof.
  intros Hf. case_decide as Hb; [subst b|by rewrite list_lookup_alter_ne].
  rewrite list_lookup_alter_eq. destruct (bs !! j); simpl; [|done].
  by rewrite Hf.
Qed.

Lemma wf_links s L k l b x :
  wf s L → L !! k = Some l → b ∈ l → bufs s !! b = Some x →
  ∃ h l1 l2, heads s !! k = Some h ∧ l = l1 ++ b :: l2 ∧
    links (bufs s) b = Some (prev x, next x) ∧
    (∀ i, prev x = Some i → is_Some (bufs s !! i)) ∧
    (∀ i, next x = Some i → is_Some (bufs s !! i)).
Proof.
  intros Hwf Hk Hb Hx.
  destruct (wf_bucket_list _ _ _ _ Hwf Hk) as (_ & h & Hh & _).
  destruct Hwf as (_ & _ & H3 & _). destruct (H3 _ _ _ Hh Hk) as [Hd Hn].
  apply list_elem_of_split in Hb as (l1 & l2 & ->).
  assert (links (bufs s) b = Some (prev x, next x)) as Hl.
  { unfold links. by rewrite Hx. }
  destruct (dll_mid _ _ _ _ _ _ _ _ Hd Hl) as (Hp & Hnx & _).
  exists h, l1, l2. repeat split; try done.
  - intros i Hi. eapply dll_in_pool; [done|]. rewrite Hi in Hp.
    destruct (last l1) as [q|] eqn:Hq; [|done]. simpl in Hp.
    injection Hp as <-. apply last_Some in Hq as [l' ->].
    rewrite <- app_assoc, !elem_of_app. right. left. left.
  - intros i Hi. eapply dll_in_pool; [done|]. rewrite Hi in Hnx.
    destruct l2 as [|n l2]; [done|]. injection Hnx as <-.
    rewrite elem_of_app, !elem_of_cons. auto.
Qed.

(** What a hit of [bget] does. *)
Lemma bget_hit_result s p dv bn b x :
  hit s dv bn b → bufs s !! b = Some x →
  ∃ s',
    (bget p dv bn s = Ret b s' ∧ lock x = None ∨
     bget p dv bn s = Sleep b s' ∧ lock x ≠ None) ∧
    bufs s' =
      alter (set_lock (if lock x is None then Some p else lock x) ∘
             set_refcnt (uint_wrap (refcnt x + 1))) b (bufs s) ∧
    heads s' = heads s ∧ disk s' = disk s ∧
    transfers (log s') = transfers (log s).
Proof.
  intros Hh Hx. rewrite (bget_hit _ _ _ _ _ _ Hh Hx).
  erewrite bget_wake_eq; [|simpl; rewrite list_lookup_alter_eq, Hx; done].
  simpl. destruct (lock x) as [q|] eqn:Hl.
  - eexists. split; [by right|]. simpl. repeat split.
    + apply list_alter_ext; [|done]. intros y Hy. unfold compose.
      rewrite Hx in Hy. injection Hy as <-. destruct x. simpl in *.
      by subst.
    + by rewrite transfers_app, app_nil_r.
  - eexists. split; [by left|]. simpl. repeat split.
    + by rewrite list_alter_alter_eq.
    + by rewrite !transfers_app, !app_nil_r.
Qed.

Lemma set_lock_same x : set_lock (lock x) x = x.
Proof. by destruct x. Qed.

Lemma visited_first bs fuel b :
  is_Some (bs !! b) → fuel ≠ O → b ∈ visited bs fuel (Some b).
Proof. intros [x Hx] Hf. destruct fuel; [done|]. simpl. rewrite Hx. left. Qed.

(** What a miss of [bget] does. *)
Lemma bget_miss_result s p dv bn b x :
  miss s dv bn → bufs s !! b = Some x → first_free (bufs s) 0 = Some b →
  ∃ s' h,
    heads s !! bucket_of bn = Some h ∧
    (bget p dv bn s = Ret b s' ∧ lock x = None ∨
     bget p dv bn s = Sleep b s' ∧ lock x ≠ None) ∧
    bufs s' =
      alter (set_lock (if lock x is None then Some p else lock x)) b
        (alter_at (set_prev (Some b)) h
           (alter (fresh dv bn h) b (bufs s))) ∧
    heads s' = <[bucket_of bn := Some b]> (heads s) ∧
    disk s' = disk s ∧
    transfers (log s') = transfers (log s).
Proof.
  intros Hm Hx Hff. pose proof Hm as [(h & Hh & _) _].
  rewrite (bget_miss _ _ _ _ _ _ Hm Hh Hff).
  assert (lock <$> alter_at (set_prev (Some b)) h
            (alter (fresh dv bn h) b (bufs s)) !! b = Some (lock x)) as Hl.
  { rewrite lookup_alter_at_keep by done.
    rewrite list_lookup_alter_eq, Hx. done. }
  apply fmap_Some in Hl as (y & Hy & Hly).
  erewrite bget_wake_eq; [|exact Hy]. simpl. rewrite <- Hly.
  destruct (lock x) as [q|] eqn:Hlx.
  - eexists _, h. split; [done|]. split; [by right|]. simpl. repeat split.
    + set (S := alter_at _ _ _) in *.
      transitivity (alter id b S); [symmetry; by apply list_alter_id|].
      apply list_alter_ext; [|done]. intros z Hz. rewrite Hy in Hz.
      injection Hz as <-. rewrite Hly. by rewrite set_lock_same.
    + by rewrite transfers_app, app_nil_r.
  - eexists _, h. split; [done|]. split; [by left|]. simpl. repeat split.
    by rewrite !transfers_app, !app_nil_r.
Qed.

Lemma bget_wake_no_panic s p b m s' : bget_wake p b s ≠ Panic m s'.
Proof.
  destruct (bufs s !! b) as [x|] eqn:Hx.
  - rewrite (bget_wake_eq _ _ _ _ Hx). by destruct (lock x).
  - unfold bget_wake, acquiresleep, bind, load. by rewrite Hx.
Qed.

Lemma bread_rest_no_panic s b m s' : bread_rest b s ≠ Panic m s'.
Proof.
  destruct (bufs s !! b) as [x|] eqn:Hx.
  - rewrite (bread_rest_eq _ _ _ Hx). by destruct (valid x =? 0).
  - unfold bread_rest, bind, load. by rewrite Hx.
Qed.

(** [bget] panics exactly on a miss with no free buffer. *)
Lemma bget_panic_iff s p dv bn :
  (∃ m s', bget p dv bn s = Panic m s') ↔
  miss s dv bn ∧ ∀ x, x ∈ bufs s → refcnt x ≠ 0.
Proof.
  rewrite <- first_free_none with (i := 0%nat). split.
  - intros (m & s' & Hp). pose proof (bget_cases s p dv bn) as Hc.
    destruct (heads s !! bucket_of bn) as [h|] eqn:Hh; [|congruence].
    destruct (bucket_find _ _ _ _ _) as [b| | |] eqn:Hf; try congruence.
    + destruct Hc as (x & _ & Hc). rewrite Hc in Hp.
      by apply bget_wake_no_panic in Hp.
    + split; [apply miss_find; eauto|].
      destruct (first_free _ _) as [b|]; [|done].
      destruct Hc as (x & _ & _ & Hc). rewrite Hc in Hp.
      by apply bget_wake_no_panic in Hp.
  - intros [Hm Hff]. eexists _, _. by apply bget_exhausted.
Qed.

Lemma bread_panic_iff s p dv bn m s' :
  bread p dv bn s = Panic m s' ↔ bget p dv bn s = Panic m s'.
Proof.
  rewrite bread_eq. unfold bind.
  destruct (bget p dv bn s) as [b s1|m1 s1|b s1| |]; try done.
  split; [|done]. by intros ?%bread_rest_no_panic.
Qed.

(** ** Filling the pool *)

Lemma wf_binit N d : wf (binit N d) (replicate (Z.to_nat NBUCKET) []).
Proof.
  unfold wf, binit. cbn [heads bufs]. rewrite !length_replicate.
  split; [done|]. split; [done|]. split.
  - intros k h l [-> _]%lookup_replicate [-> _]%lookup_replicate.
    split; [done|apply NoDup_nil_2].
  - intros j k lj lk i [-> _]%lookup_replicate _ Hi. by apply elem_of_nil in Hi.
Qed.

Lemma all_held_binit p N d : all_held p [] (binit N d).
Proof.
  exists (replicate (Z.to_nat NBUCKET) []). split; [apply wf_binit|].
  split; [done|]. split.
  - intros i x _ [-> _]%lookup_replicate. done.
  - intros k l i [-> _]%lookup_replicate Hi. by apply elem_of_nil in Hi.
Qed.

Lemma all_held_miss p ids s id :
  all_held p ids s → id ∉ ids → miss s id.1 id.2.
Proof.
  intros (L & Hwf & Hid & _ & Hlt) Hn.
  destruct (wf_list s L id.2 Hwf) as [l Hl].
  destruct (wf_bucket_list _ _ _ _ Hwf Hl) as (_ & h & Hh & Hc).
  split; [eauto|]. intros b (l' & Hl' & Hb)%(wf_attached _ _ _ _ Hwf).
  pose proof (Hlt _ _ _ Hl' Hb) as Hbi.
  apply lookup_lt_is_Some in Hbi as [id' Hid'].
  destruct (Hid _ _ Hid') as (x & Hx & Hd & Hbn & _).
  intros (x' & Hx' & Hd' & Hbn'). rewrite Hx in Hx'. injection Hx' as <-.
  apply Hn. replace id with id'; [by eapply list_elem_of_lookup_2|].
  destruct id, id'. simpl in *. congruence.
Qed.

Lemma all_held_first_free p ids s :
  all_held p ids s →
  first_free (bufs s) 0 =
    if decide (length ids < length (bufs s))%nat then Some (length ids)
    else None.
Proof.
  intros (L & Hwf & Hid & Hfree & Hlt). case_decide as Hn.
  - apply first_free_first. apply lookup_lt_is_Some in Hn as [x Hx].
    exists x. split; [done|]. split; [by eapply Hfree|].
    intros j y Hj Hy. apply lookup_lt_is_Some in Hj as [id Hj].
    destruct (Hid _ _ Hj) as (y' & Hy' & _ & _ & Hr & _).
    rewrite Hy in Hy'. injection Hy' as <-. lia.
  - apply first_free_none. intros x (i & Hx)%list_elem_of_lookup_1.
    assert (i < length ids)%nat as Hi.
    { apply lookup_lt_Some in Hx. lia. }
    apply lookup_lt_is_Some in Hi as [id Hi].
    destruct (Hid _ _ Hi) as (y' & Hy' & _ & _ & Hr & _).
    rewrite Hx in Hy'. injection Hy' as <-. lia.
Qed.

Lemma run_app acts1 acts2 s :
  run (acts1 ++ acts2) s = run acts1 s ≫= run acts2.
Proof.
  revert s. induction acts1 as [|a acts1 IH]; intros s; simpl; [done|].
  by destruct (after (exec a s)).
Qed.

Lemma all_held_get ids id s p :
  all_held p ids s → id ∉ ids → (length ids < length (bufs s))%nat →
  ∃ s', bget p id.1 id.2 s = Ret (length ids) s' ∧
        all_held p (ids ++ [id]) s' ∧ length (bufs s') = length (bufs s).
Proof.
  intros Hall Hn Hlt. pose proof (all_held_miss _ _ _ _ Hall Hn) as Hm.
  pose proof (all_held_first_free _ _ _ Hall) as Hff.
  rewrite decide_True in Hff by done.
  destruct Hall as (L & Hwf & Hid & Hfree & Hin).
  set (j := length ids) in *.
  pose proof Hlt as [x Hx]%lookup_lt_is_Some.
  destruct (Hfree j x (Nat.le_refl _) Hx) as [Hr Hl].
  destruct (bget_miss_result s p id.1 id.2 j x Hm Hx Hff)
    as (s' & h & Hh & [[Hg _]|[_ Hc]] & Hb & Hhd & _ & _); [|done].
  rewrite Hl in Hb. exists s'. split; [done|].
  destruct (wf_list s L id.2 Hwf) as [l Hk].
  assert (unlisted L j) as Hun.
  { intros k' l' Hk' Hj. specialize (Hin _ _ _ Hk' Hj). lia. }
  assert (wf s' (<[bucket_of id.2 := j :: l]> L)) as Hwf'.
  { eapply wf_keep;
      [| |apply (wf_push s L _ h l j (fresh id.1 id.2 h) (disk s) (log s));
          eauto].
    - by rewrite Hhd.
    - intros i. rewrite Hb. simpl. by apply links_alter_keep. }
  assert (∀ i, i ≠ j →
    (λ y, (dev y, blockno y, refcnt y, lock y)) <$> bufs s' !! i =
    (λ y, (dev y, blockno y, refcnt y, lock y)) <$> bufs s !! i) as Hkeep.
  { intros i Hi. rewrite Hb.
    rewrite list_lookup_alter_ne by done.
    rewrite lookup_alter_at_keep by done.
    by rewrite list_lookup_alter_ne. }
  split; [|by rewrite Hb, length_alter;
             destruct h; simpl; rewrite ?length_alter].
  exists (<[bucket_of id.2 := j :: l]> L). split; [done|]. split; [|split].
  - intros i id' Hi. apply lookup_app_Some in Hi as [Hi|[Hge Hi]].
    + assert (i ≠ j) as Hij by (apply lookup_lt_Some in Hi; unfold j; lia).
      destruct (Hid _ _ Hi) as (y & Hy & Hd & Hbn & Hrc & Hlk).
      specialize (Hkeep i Hij). rewrite Hy in Hkeep. simpl in Hkeep.
      destruct (bufs s' !! i) as [y'|]; [|done]. simpl in Hkeep.
      exists y'. split; [done|]. injection Hkeep as -> -> -> ->. done.
    + apply list_lookup_singleton_Some in Hi as [Hi <-].
      assert (i = j) as -> by (unfold j; lia).
      assert ((λ y, (dev y, blockno y, refcnt y, lock y)) <$> bufs s' !! j
              = Some (id.1, id.2, 1, Some p)) as Hj.
      { rewrite Hb. rewrite list_lookup_alter_eq.
        assert ((λ y, (dev y, blockno y, refcnt y)) <$>
                  alter_at (set_prev (Some j)) h
                    (alter (fresh id.1 id.2 h) j (bufs s)) !! j
                = Some (id.1, id.2, 1)) as Hj.
        { rewrite lookup_alter_at_keep by done.
          by rewrite list_lookup_alter_eq, Hx. }
        apply fmap_Some in Hj as (y & -> & Hj). simpl.
        by injection Hj as -> -> ->. }
      apply fmap_Some in Hj as (y & Hy & Hj). exists y.
      split; [done|]. by injection Hj as -> -> -> ->.
  - intros i y Hi Hy. rewrite length_app in Hi. simpl in Hi.
    assert (i ≠ j) as Hij by (unfold j; lia).
    specialize (Hkeep i Hij). rewrite Hy in Hkeep. simpl in Hkeep.
    destruct (bufs s !! i) as [y0|] eqn:Hy0; [|done]. simpl in Hkeep.
    injection Hkeep as _ _ -> ->. apply (Hfree i); [unfold j in *; lia|done].
  - intros k' l' i Hk' Hi. rewrite length_app. simpl.
    apply lookup_insert_list in Hk' as [(-> & -> & _)|[_ Hk']].
    + apply elem_of_cons in Hi as [->|Hi]; [unfold j; lia|].
      specialize (Hin _ _ _ Hk Hi). lia.
    + specialize (Hin _ _ _ Hk' Hi). lia.
Qed.

Lemma all_held_run ids N d p :
  NoDup ids → (length ids ≤ N)%nat →
  ∃ s, run (gets p ids) (binit N d) = Some s ∧
       all_held p ids s ∧ length (bufs s) = N.
Proof.
  induction ids as [|id ids IH] using rev_ind; intros Hn Hlen.
  - exists (binit N d). split; [done|]. split; [apply all_held_binit|].
    simpl. apply length_replicate.
  - rewrite length_app in Hlen. simpl in Hlen.
    apply NoDup_app in Hn as (Hn & Hd & _).
    destruct IH as (s & Hrun & Hall & HN); [done|lia|].
    destruct (all_held_get ids id s p Hall) as (s' & Hg & Hall' & HN').
    { intros Hi. apply (Hd _ Hi). left. }
    { lia. }
    exists s'. split; [|split; [done|lia]].
    unfold gets. rewrite map_app, run_app. fold (gets p ids). rewrite Hrun.
    simpl. unfold bind. by rewrite Hg.
Qed.

(** ** The example states *)

Lemma run_typed acts s s' : typed s → run acts s = Some s' → typed s'.
Proof.
  revert s. induction acts as [|a acts IH]; intros s Ht; simpl.
  - by intros [= <-].
  - destruct (after (exec a s)) as [s1|] eqn:Ha; [|done].
    apply IH. by eapply exec_typed.
Qed.

Lemma ex_held_wf : wf ex_held ex_lists.
Proof.
  split; [reflexivity|]. split; [reflexivity|]. split.
  - intros k h l Hh Hl.
    repeat (destruct k as [|k]; simpl in Hh, Hl; simplify_eq).
    all: split; [simpl; eauto|repeat constructor; set_solver].
  - intros j k lj lk i Hj Hk Hi Hi'.
    repeat (destruct j as [|j]; simpl in Hj; simplify_eq).
    all: try (by apply elem_of_nil in Hi).
    repeat (destruct k as [|k]; simpl in Hk; simplify_eq).
    all: try (by apply elem_of_nil in Hi').
    done.
Qed.

Lemma ex_cached_hit : hit ex_cached 1 5 0.
Proof.
  unfold hit, attached, has_id, idmatch. repeat split.
  - vm_compute. left.
  - eexists. split; [reflexivity|]. split; reflexivity.
  - intros b' Hb' _. vm_compute in Hb'.
    by apply list_elem_of_singleton in Hb'.
Qed.

Lemma ex_full_miss : miss ex_full 1 2.
Proof. apply miss_find. eexists. split; vm_compute; reflexivity. Qed.

Lemma binit_miss : miss (binit 2 ∅) 1 5.
Proof. apply miss_find. eexists. split; vm_compute; reflexivity. Qed.

(** ** The parts of the invariant *)

Lemma cores_Some bs j d bn c lk :
  cores bs j = Some (d, bn, c, lk) ↔
  ∃ x, bs !! j = Some x ∧ dev x = d ∧ blockno x = bn ∧ refcnt x = c ∧
       lock x = lk.
Proof.
  unfold cores, core. rewrite fmap_Some. split.
  - intros (x & Hx & [= -> -> -> ->]). by exists x.
  - intros (x & Hx & <- & <- & <- & <-). by exists x.
Qed.

Lemma inv_at_facts s L : inv_at s L ↔ wf s L ∧ facts (cores (bufs s)) L.
Proof.
  unfold inv_at, facts, typed, count. split.
  - intros (Hwf & Ht & H2 & H3 & H4 & H6). split; [done|].
    split; [|split; [|split; [|split]]].
    + intros j d bn c lk (x & Hx & _ & _ & <- & _)%cores_Some.
      apply (Ht j). by rewrite Hx.
    + intros k b Hl. destruct (H2 _ _ Hl) as (x & Hx & Hk & Hr).
      exists (dev x), (blockno x), (refcnt x), (lock x).
      split; [|done]. apply cores_Some. by exists x.
    + intros b d bn c lk (x & Hx & _ & <- & <- & _)%cores_Some. apply (H3 b x Hx).
    + intros b d bn c lk (x & Hx & _ & _ & <- & <-)%cores_Some. apply (H4 b x Hx).
    + intros k b b' d bn c lk c' lk' Hl Hl'
        (x & Hx & Hd & Hb & _)%cores_Some (x' & Hx' & Hd' & Hb' & _)%cores_Some.
      apply (H6 k b b' x x'); congruence.
  - intros (Hwf & Ht & H2 & H3 & H4 & H6). split; [done|].
    split; [|split; [|split; [|split]]].
    + intros j c (x & Hx & ->)%fmap_Some.
      apply (Ht j (dev x) (blockno x) _ (lock x)). apply cores_Some. by exists x.
    + intros k b Hl. destruct (H2 _ _ Hl) as (d & bn & c & lk & Hc & Hk & Hr).
      apply cores_Some in Hc as (x & Hx & _ & <- & <- & _). eauto.
    + intros b x Hx. apply (H3 b (dev x) _ _ (lock x)).
      apply cores_Some. by exists x.
    + intros b x Hx. apply (H4 b (dev x) (blockno x) _ _).
      apply cores_Some. by exists x.
    + intros k b b' x x' Hl Hl' Hx Hx' Hd Hb.
      apply (H6 k b b' (dev x) (blockno x) (refcnt x) (lock x)
               (refcnt x') (lock x')); [done..| |]; apply cores_Some.
      * by exists x.
      * by exists x'.
Qed.

Lemma facts_ext cs cs' L : (∀ j, cs' j = cs j) → facts cs L → facts cs' L.
Proof.
  intros He (H1 & H2 & H3 & H4 & H5). unfold facts.
  split; [|split; [|split; [|split]]].
  - intros j. rewrite He. apply H1.
  - intros k b Hl. rewrite He. by apply H2.
  - intros b. rewrite He. apply H3.
  - intros b. rewrite He. apply H4.
  - intros k b b'. rewrite !He. apply H5.
Qed.

Lemma listed_insert L k l k' b :
  listed (<[k := l]> L) k' b ↔
  (k' = k ∧ (k < length L)%nat ∧ b ∈ l) ∨ (k' ≠ k ∧ listed L k' b).
Proof.
  unfold listed. split.
  - intros (l' & Hl' & Hb).
    apply lookup_insert_list in Hl' as [(-> & -> & Hlt)|[Hne Hl']]; eauto.
  - intros [(-> & Hlt & Hb)|(Hne & l' & Hl' & Hb)].
    + exists l. by rewrite list_lookup_insert_eq.
    + exists l'. by rewrite list_lookup_insert_ne.
Qed.

(** A store that keeps the identity of [b] and the vanishing of its
    count. *)
Lemma facts_set cs L b d bn c lk c' lk' :
  facts cs L → cs b = Some (d, bn, c, lk) →
  0 ≤ c' < UINT_MOD → (c' = 0 ↔ c = 0) → (lk' ≠ None → c' ≠ 0) →
  facts (with_core cs b (d, bn, c', lk')) L.
Proof.
  intros (H1 & H2 & H3 & H4 & H5) Hb Hc' Hz Hlk. unfold facts, with_core.
  split; [|split; [|split; [|split]]].
  - intros j d1 bn1 c1 lk1. destruct (decide (j = b)) as [->|]; [|apply H1].
    by intros [= <- <- <- <-].
  - intros k j Hl. destruct (decide (j = b)) as [->|]; [|by apply H2].
    destruct (H2 _ _ Hl) as (d1 & bn1 & c1 & lk1 & E & Hk & Hr).
    rewrite Hb in E. injection E as <- <- <- <-.
    exists d, bn, c', lk'. split; [done|]. split; [done|]. tauto.
  - intros j d1 bn1 c1 lk1. destruct (decide (j = b)) as [->|]; [|apply H3].
    intros [= <- <- <- <-] Hr. apply (H3 b d bn c lk Hb). tauto.
  - intros j d1 bn1 c1 lk1. destruct (decide (j = b)) as [->|]; [|apply H4].
    by intros [= <- <- <- <-].
  - intros k j j' d1 bn1 c1 lk1 c2 lk2 Hl Hl'.
    destruct (decide (j = b)) as [->|], (decide (j' = b)) as [->|]; try done.
    + intros [= <- <- <- <-] E. symmetry.
      by apply (H5 k j' b d bn c2 lk2 c lk).
    + intros E [= <- <- <- <-]. by apply (H5 k j b d bn c1 lk1 c lk).
    + by apply (H5 k).
Qed.

(** A miss puts the free buffer [b] at the head of the list of its new
    block number. *)
Lemma facts_push cs L l b d0 bn0 lk d bn :
  facts cs L → cs b = Some (d0, bn0, 0, lk) →
  L !! bucket_of bn = Some l →
  (∀ j c1 lk1, j ∈ l → cs j ≠ Some (d, bn, c1, lk1)) →
  facts (with_core cs b (d, bn, 1, lk)) (<[bucket_of bn := b :: l]> L).
Proof.
  intros (H1 & H2 & H3 & H4 & H5) Hb Hl Hm.
  assert (∀ k, ¬ listed L k b) as Hun.
  { intros k Hk. destruct (H2 _ _ Hk) as (? & ? & ? & ? & E & _ & Hr).
    rewrite Hb in E. by injection E as <- <- <- <-. }
  pose proof (lookup_lt_Some _ _ _ Hl) as Hlt.
  unfold facts, with_core.
  split; [|split; [|split; [|split]]].
  - intros j d1 bn1 c1 lk1. destruct (decide (j = b)) as [->|]; [|apply H1].
    intros [= <- <- <- <-]. unfold UINT_MOD. lia.
  - intros k j [(-> & _ & Hj)|[Hne Hj]]%listed_insert.
    + destruct (decide (j = b)) as [->|Hjb].
      * exists d, bn, 1, lk. done.
      * apply H2. exists l. split; [done|].
        apply elem_of_cons in Hj as [->|Hj]; done.
    + destruct (decide (j = b)) as [->|Hjb]; [by destruct (Hun k)|by apply H2].
  - intros j d1 bn1 c1 lk1. destruct (decide (j = b)) as [->|Hjb].
    + intros [= <- <- <- <-] _. apply listed_insert. left.
      split; [done|]. split; [done|]. left.
    + intros E Hr. apply listed_insert.
      destruct (H3 _ _ _ _ _ E Hr) as (l' & Hl' & Hj).
      destruct (decide (bucket_of bn1 = bucket_of bn)) as [Hk|Hk].
      * left. split; [done|]. split; [done|]. right. congruence.
      * right. split; [done|]. by exists l'.
  - intros j d1 bn1 c1 lk1. destruct (decide (j = b)) as [->|]; [|apply H4].
    by intros [= <- <- <- <-].
  - assert (∀ k j, listed (<[bucket_of bn := b :: l]> L) k j → j ≠ b →
                   listed L k j ∧ (k = bucket_of bn → j ∈ l)) as Hold.
    { intros k j [(-> & _ & Hj)|[Hne Hj]]%listed_insert Hjb.
      - apply elem_of_cons in Hj as [->|Hj]; [done|]. split; [by exists l|done].
      - done. }
    assert (∀ k, listed (<[bucket_of bn := b :: l]> L) k b → k = bucket_of bn)
      as Hnew.
    { intros k [(-> & _)|[_ Hj]]%listed_insert; [done|by destruct (Hun k)]. }
    intros k j j' d1 bn1 c1 lk1 c2 lk2 Hl1 Hl2.
    destruct (decide (j = b)) as [->|Hj], (decide (j' = b)) as [->|Hj'];
      try done.
    + intros [= <- <- <- <-] E. exfalso.
      destruct (Hold _ _ Hl2 Hj') as [_ Hin].
      by apply (Hm j' c2 lk2 (Hin (Hnew _ Hl1))).
    + intros E [= <- <- <- <-]. exfalso.
      destruct (Hold _ _ Hl1 Hj) as [_ Hin].
      by apply (Hm j c1 lk1 (Hin (Hnew _ Hl2))).
    + intros E1 E2. destruct (Hold _ _ Hl1 Hj), (Hold _ _ Hl2 Hj').
      by apply (H5 k j j' d1 bn1 c1 lk1 c2 lk2).
Qed.

(** The last release takes [b] off its list. *)
Lemma facts_unlink cs L k l1 l2 b d bn c lk :
  facts cs L → cs b = Some (d, bn, c, lk) →
  L !! k = Some (l1 ++ b :: l2) → b ∉ l1 ++ l2 →
  (∀ k', listed L k' b → k' = k) →
  facts (with_core cs b (d, bn, 0, None)) (<[k := l1 ++ l2]> L).
Proof.
  intros (H1 & H2 & H3 & H4 & H5) Hb Hl Hnin Hone.
  pose proof (lookup_lt_Some _ _ _ Hl) as Hlt.
  assert (∀ k' j, listed (<[k := l1 ++ l2]> L) k' j → j ≠ b ∧ listed L k' j)
    as Hold.
  { intros k' j [(-> & _ & Hj)|[Hne Hj]]%listed_insert.
    - split; [by intros ->|]. exists (l1 ++ b :: l2). split; [done|].
      rewrite elem_of_app, elem_of_cons. rewrite elem_of_app in Hj. tauto.
    - split; [|done]. intros ->. by apply Hne, Hone. }
  unfold facts, with_core.
  split; [|split; [|split; [|split]]].
  - intros j d1 bn1 c1 lk1. destruct (decide (j = b)) as [->|]; [|apply H1].
    intros [= <- <- <- <-]. unfold UINT_MOD. lia.
  - intros k' j Hj. destruct (Hold _ _ Hj) as [Hjb Hj'].
    rewrite decide_False by done. by apply H2.
  - intros j d1 bn1 c1 lk1. destruct (decide (j = b)) as [->|Hjb].
    + by intros [= <- <- <- <-].
    + intros E Hr. apply listed_insert.
      destruct (H3 _ _ _ _ _ E Hr) as (l' & Hl' & Hj).
      destruct (decide (bucket_of bn1 = k)) as [Hk|Hk].
      * left. split; [done|]. split; [done|].
        rewrite Hk, Hl in Hl'. injection Hl' as <-.
        rewrite elem_of_app, elem_of_cons in Hj. rewrite elem_of_app. tauto.
      * right. split; [done|]. by exists l'.
  - intros j d1 bn1 c1 lk1. destruct (decide (j = b)) as [->|]; [|apply H4].
    by intros [= <- <- <- <-].
  - intros k' j j' d1 bn1 c1 lk1 c2 lk2 Hl1 Hl2.
    destruct (Hold _ _ Hl1) as [Hj Hj1], (Hold _ _ Hl2) as [Hj' Hj2].
    rewrite !decide_False by done. by apply (H5 k').
Qed.

(** ** The invariant under the stores of the calls *)

Lemma cores_alter f b (bs : list buf) x j :
  bs !! b = Some x →
  cores (alter f b bs) j = with_core (cores bs) b (core (f x)) j.
Proof.
  intros Hx. unfold cores, with_core. destruct (decide (j = b)) as [->|Hne].
  - by rewrite list_lookup_alter_eq, Hx.
  - by rewrite list_lookup_alter_ne.
Qed.

Lemma cores_alter_at (g : buf → buf) q (bs : list buf) j :
  (∀ x, core (g x) = core x) → cores (alter_at g q bs) j = cores bs j.
Proof. intros Hg. unfold cores. by apply lookup_alter_at_keep. Qed.

Lemma cores_alter_map (f : buf → buf) F b (bs : list buf) j :
  (∀ y, core (f y) = F (core y)) →
  cores (alter f b bs) j =
    if decide (j = b) then F <$> cores bs j else cores bs j.
Proof.
  intros Hf. unfold cores. destruct (decide (j = b)) as [->|Hne].
  - rewrite list_lookup_alter_eq. destruct (bs !! b); simpl; [|done].
    by rewrite Hf.
  - by rewrite list_lookup_alter_ne.
Qed.

Lemma cores_core bs b x : bs !! b = Some x →
  cores bs b = Some (dev x, blockno x, refcnt x, lock x).
Proof. intros Hx. unfold cores. by rewrite Hx. Qed.

Lemma inv_ext s s' L :
  bufs s' = bufs s → heads s' = heads s → inv_at s L → inv_at s' L.
Proof.
  intros Hb Hh [Hwf Hf]%inv_at_facts. apply inv_at_facts. split.
  - eapply wf_keep; [done| |done]. intros i. by rewrite Hb.
  - by rewrite Hb.
Qed.

(** A store into one buffer that leaves its identity and its links alone
    and keeps its count away from, or at, 0. *)
Lemma inv_alter s L b x f d lg :
  inv_at s L → bufs s !! b = Some x →
  dev (f x) = dev x → blockno (f x) = blockno x →
  prev (f x) = prev x → next (f x) = next x →
  0 ≤ refcnt (f x) < UINT_MOD → (refcnt (f x) = 0 ↔ refcnt x = 0) →
  (lock (f x) ≠ None → refcnt (f x) ≠ 0) →
  inv_at (State (alter f b (bufs s)) (heads s) d lg) L.
Proof.
  intros [Hwf Hf]%inv_at_facts Hx Hd Hb Hp Hn Hr Hz Hl.
  apply inv_at_facts. split.
  - apply (wf_keep s _ L); [done| |done]. intros i. simpl.
    destruct (decide (b = i)) as [->|Hne].
    + rewrite links_alter_eq. unfold links. rewrite Hx. simpl. congruence.
    + by apply links_alter_ne.
  - simpl. eapply facts_ext; [intros j; by apply cores_alter|].
    unfold core. rewrite Hd, Hb.
    by eapply facts_set; [done|by apply cores_core|..].
Qed.

Lemma listed_attached s L k b : wf s L → listed L k b ↔ attached s k b.
Proof. intros Hwf. symmetry. by apply wf_attached. Qed.

(** The store of a miss. *)
Lemma inv_push s L b x h l dv bn d lg :
  inv_at s L → heads s !! bucket_of bn = Some h →
  L !! bucket_of bn = Some l →
  bufs s !! b = Some x → refcnt x = 0 →
  (∀ j, attached s (bucket_of bn) j → ¬ has_id s j dv bn) →
  inv_at (State (alter_at (set_prev (Some b)) h
                   (alter (fresh dv bn h) b (bufs s)))
                (<[bucket_of bn := Some b]> (heads s)) d lg)
         (<[bucket_of bn := b :: l]> L).
Proof.
  intros Hinv Hh Hl Hx Hr Hm.
  pose proof Hinv as (_ & _ & H2 & _).
  apply inv_at_facts in Hinv as [Hwf Hf].
  assert (unlisted L b) as Hun.
  { intros k lk Hk Hb. destruct (H2 k b) as (x' & Hx' & _ & Hr').
    - by exists lk.
    - congruence. }
  apply inv_at_facts. split.
  - apply wf_push; [done..|by exists x|done].
  - simpl. eapply facts_ext.
    { intros j. rewrite cores_alter_at by done. by apply cores_alter. }
    unfold fresh, core. simpl.
    eapply facts_push; [done| |done|].
    + rewrite (cores_core _ _ _ Hx), Hr. reflexivity.
    + intros j c1 lk1 Hj (y & Hy & Hd & Hb & _)%cores_Some.
      apply (Hm j).
      * apply (wf_attached _ _ _ _ Hwf). by exists l.
      * by exists y.
Qed.

(** The stores of the last release. *)
Lemma inv_unlink s L b x d lg :
  inv_at s L → bufs s !! b = Some x → refcnt x ≠ 0 →
  ∃ h l1 l2,
    heads s !! bucket_of (blockno x) = Some h ∧
    L !! bucket_of (blockno x) = Some (l1 ++ b :: l2) ∧
    (∀ i, prev x = Some i → is_Some (bufs s !! i)) ∧
    (∀ i, next x = Some i → is_Some (bufs s !! i)) ∧
    inv_at (State (alter (set_refcnt 0) b
                     (alter_at (set_prev (prev x)) (next x)
                        (alter_at (set_next (next x)) (prev x)
                           (alter (set_lock None) b (bufs s)))))
                  (if decide (h = Some b)
                   then <[bucket_of (blockno x) := next x]> (heads s)
                   else heads s) d lg)
           (<[bucket_of (blockno x) := l1 ++ l2]> L).
Proof.
  intros Hinv Hx Hr.
  pose proof Hinv as (_ & _ & H2 & H3 & _).
  apply inv_at_facts in Hinv as [Hwf Hf].
  destruct (H3 _ _ Hx Hr) as (l & Hl & Hb).
  destruct (wf_links _ _ _ _ _ _ Hwf Hl Hb Hx)
    as (h & l1 & l2 & Hh & -> & Hlk & Hp & Hn).
  exists h, l1, l2. split; [done|]. split; [done|]. split; [done|].
  split; [done|].
  apply inv_at_facts. split.
  - apply (wf_unlink s L _ h l1 b l2 (prev x) (next x) (set_refcnt 0)
             (set_lock None) d lg Hwf Hh Hl Hlk);
      intros y; split; reflexivity.
  - simpl. eapply facts_ext.
    { intros j.
      rewrite (cores_alter_map _ (λ c, (c.1.1.1, c.1.1.2, 0, c.2))) by done.
      do 2 rewrite cores_alter_at by done.
      rewrite (cores_alter_map _ (λ c, (c.1.1.1, c.1.1.2, c.1.2, None)))
        by done.
      instantiate (1 := with_core (cores (bufs s)) b
                          (dev x, blockno x, 0, None)).
      unfold with_core. destruct (decide (j = b)) as [->|]; [|done].
      by rewrite (cores_core _ _ _ Hx). }
    destruct Hwf as (_ & _ & Hd & Hdis).
    destruct (Hd _ _ _ Hh Hl) as [_ Hnd].
    eapply facts_unlink; [done|by apply cores_core|done|..].
    + by destruct (NoDup_remove_mid _ _ _ Hnd).
    + intros k' (l' & Hl' & Hb'). by eapply Hdis.
Qed.

(** ** The invariant along [bget] *)

Lemma closed_find bs fuel h dv bn :
  closed bs fuel h = true →
  bucket_find bs fuel h dv bn = Missing ∨
  ∃ b, bucket_find bs fuel h dv bn = Cached b.
Proof.
  revert h. induction fuel as [|fuel IH]; intros [i|] Hc; simpl in *;
    try done; try (by left).
  destruct (bs !! i) as [x|]; [|done].
  destruct ((dev x =? dv) && (blockno x =? bn)); [right; eauto|by apply IH].
Qed.

Lemma inv_refcnt s L b x :
  inv_at s L → bufs s !! b = Some x → 0 ≤ refcnt x < UINT_MOD.
Proof.
  intros (_ & Ht & _) Hx. apply (Ht b). unfold count. by rewrite Hx.
Qed.

(** The rest of [bget] after its stores: taking the sleep-lock. *)
Lemma inv_wake s L p b x :
  inv_at s L → bufs s !! b = Some x → refcnt x ≠ 0 →
  (bget_wake p b s = Sleep b s ∧ lock x ≠ None) ∨
  (∃ s', bget_wake p b s = Ret b s' ∧ lock x = None ∧ inv_at s' L ∧
         bufs s' = alter (set_lock (Some p)) b (bufs s) ∧
         heads s' = heads s ∧ disk s' = disk s ∧
         transfers (log s') = transfers (log s)).
Proof.
  intros Hinv Hx Hr. rewrite (bget_wake_eq s p b x Hx).
  destruct (lock x) as [q|] eqn:Hl; [by left|right].
  eexists. split; [reflexivity|]. split; [done|]. split.
  - eapply inv_alter; try done; simpl; try done.
    apply (inv_refcnt _ _ _ _ Hinv Hx).
  - simpl. repeat split. rewrite transfers_app. simpl. by rewrite app_nil_r.
Qed.

(** The rest of [bread] after [bget]. *)
Lemma inv_rest s L b x :
  inv_at s L → bufs s !! b = Some x →
  ∃ s' x', bread_rest b s = Ret b s' ∧ inv_at s' L ∧
           bufs s' !! b = Some x' ∧ core x' = core x ∧ valid x' ≠ 0 ∧
           heads s' = heads s ∧ disk s' = disk s.
Proof.
  intros Hinv Hx. rewrite (bread_rest_eq s b x Hx).
  destruct (valid x =? 0) eqn:Hv.
  - eexists _, _. split; [reflexivity|]. split.
    + pose proof Hinv as (_ & _ & _ & _ & H4 & _).
      eapply inv_alter; try done; simpl; try done.
      * apply (inv_refcnt _ _ _ _ Hinv Hx).
      * apply (H4 b x Hx).
    + simpl. rewrite list_lookup_alter_eq, Hx. simpl. done.
  - exists s, x. apply Z.eqb_neq in Hv. done.
Qed.

Lemma attached_visited s k h b :
  heads s !! k = Some h →
  attached s k b ↔ b ∈ visited (bufs s) (length (bufs s)) h.
Proof. intros Hh. unfold attached, bucket_list. by rewrite Hh. Qed.

(** [bget] in a state of the invariant. *)
Lemma inv_bget s L p dv bn :
  inv_at s L → disciplined (Get p dv bn) s →
  (miss s dv bn ∧ first_free (bufs s) 0 = None ∧
   ∃ s', bget p dv bn s = Panic "bget: no buffers" s') ∨
  (∃ L' b s' x',
     inv_at s' L' ∧
     (bget p dv bn s = Ret b s' ∧ lock x' = Some p ∨
      bget p dv bn s = Sleep b s') ∧
     bufs s' !! b = Some x' ∧ refcnt x' ≠ 0 ∧ dev x' = dv ∧ blockno x' = bn ∧
     disk s' = disk s ∧ transfers (log s') = transfers (log s) ∧
     ∀ k, k ≠ bucket_of bn → L' !! k = L !! k).
Proof.
  intros Hinv Hdis. pose proof Hinv as (Hwf & Ht & H2 & H3 & H4 & H6).
  destruct (wf_list s L bn Hwf) as [l Hl].
  destruct (wf_bucket_list s L _ l Hwf Hl) as (Hbl & h & Hh & Hc).
  pose proof (bget_cases s p dv bn) as Hg. rewrite Hh in Hg.
  destruct (closed_find _ _ _ dv bn Hc) as [Hf|[b Hf]]; rewrite Hf in Hg.
  - (* a miss *)
    assert (miss s dv bn) as Hm by (apply miss_find; eauto).
    destruct (first_free (bufs s) 0) as [b|] eqn:Hff; [right|left; eauto].
    destruct Hg as (x & Hx & Hr & Hg).
    set (S := State _ _ _ _) in Hg.
    assert (inv_at S (<[bucket_of bn := b :: l]> L)) as HS.
    { apply (inv_push s L b x h l dv bn); try done. by destruct Hm. }
    assert (lock x = None) as Hlk.
    { destruct (lock x) eqn:E; [|done]. destruct (H4 b x Hx); [|done].
      by rewrite E. }
    assert (cores (bufs S) b = Some (dv, bn, 1, None)) as Hcb.
    { unfold S. simpl. rewrite cores_alter_at by done.
      rewrite (cores_alter _ _ _ x) by done. unfold with_core.
      rewrite decide_True by done. unfold core. simpl. by rewrite Hlk. }
    apply cores_Some in Hcb as (x1 & Hx1 & Hd1 & Hb1 & Hr1 & Hl1).
    destruct (inv_wake S _ p b x1 HS Hx1) as [[_ Hn]|(s' & Hw & _ & Hi & Hb & _ & Hd & Htr)];
      [lia|done|].
    exists (<[bucket_of bn := b :: l]> L), b, s', (set_lock (Some p) x1).
    split; [done|]. split; [left; split; [congruence|done]|].
    split; [by rewrite Hb, list_lookup_alter_eq, Hx1|].
    simpl. split; [lia|]. split; [done|]. split; [done|]. split; [done|].
    split; [|intros k Hk; by apply list_lookup_insert_ne].
    rewrite Htr. unfold S. simpl. rewrite transfers_app. simpl.
    by rewrite app_nil_r.
  - (* a hit *)
    right. destruct Hg as (x & Hx & Hg).
    apply bucket_find_cached_inv in Hf as [Hv (x0 & Hx0 & Hd0 & Hb0)].
    assert (x0 = x) as -> by congruence.
    assert (attached s (bucket_of bn) b) as Ha by (by apply (attached_visited _ _ h)).
    pose proof (Hdis b x Ha Hx Hd0 Hb0) as Hmax.
    destruct (H2 (bucket_of bn) b) as (x2 & Hx2 & _ & Hr2).
    { apply (wf_attached _ _ _ _ Hwf) in Ha. done. }
    assert (x2 = x) as -> by congruence.
    pose proof (inv_refcnt _ _ _ _ Hinv Hx) as Hrg.
    assert (uint_wrap (refcnt x + 1) = refcnt x + 1) as Hw.
    { unfold uint_wrap. apply Z.mod_small. unfold UINT_MAX in Hmax. lia. }
    rewrite Hw in Hg. set (S := State _ _ _ _) in Hg.
    assert (inv_at S L) as HS.
    { unfold S. eapply inv_alter; try done; simpl.
      - unfold UINT_MAX in Hmax. lia.
      - lia. - lia. }
    assert (bufs S !! b = Some (set_refcnt (refcnt x + 1) x)) as Hx1.
    { unfold S. simpl. by rewrite list_lookup_alter_eq, Hx. }
    assert (transfers (log S) = transfers (log s)) as HtS.
    { unfold S. simpl. rewrite transfers_app. simpl. by rewrite app_nil_r. }
    destruct (inv_wake S _ p b _ HS Hx1) as [[Hsl Hn]|(s' & Hwk & _ & Hi & Hb & _ & Hd & Htr)];
      [simpl; lia| |].
    + exists L, b, S, (set_refcnt (refcnt x + 1) x).
      split; [done|]. split; [right; congruence|]. split; [done|].
      simpl. split; [lia|]. done.
    + exists L, b, s', (set_lock (Some p) (set_refcnt (refcnt x + 1) x)).
      split; [done|]. split; [left; split; [congruence|done]|].
      split; [by rewrite Hb, list_lookup_alter_eq, Hx1|].
      simpl. split; [lia|]. split; [done|]. split; [done|]. split; [done|].
      split; [congruence|done].
Qed.

(** ** The invariant along a call *)

(** [bread] in a state of the invariant. *)
Lemma inv_bread s L p dv bn :
  inv_at s L → disciplined (Read p dv bn) s →
  (miss s dv bn ∧ first_free (bufs s) 0 = None ∧
   ∃ s', bread p dv bn s = Panic "bget: no buffers" s') ∨
  (∃ L' b s' x',
     inv_at s' L' ∧
     (bread p dv bn s = Ret b s' ∧ lock x' = Some p ∧ valid x' ≠ 0 ∨
      bread p dv bn s = Sleep b s') ∧
     bufs s' !! b = Some x' ∧ refcnt x' ≠ 0 ∧ dev x' = dv ∧ blockno x' = bn ∧
     disk s' = disk s ∧
     ∀ k, k ≠ bucket_of bn → L' !! k = L !! k).
Proof.
  intros Hinv Hdis.
  destruct (inv_bget s L p dv bn Hinv Hdis)
    as [(Hm & Hff & s' & Hg)|(L' & b & s1 & x1 & Hi & Hg & Hx1 & Hr & Hd & Hb & Hdk & _ & HL)].
  - left. split; [done|]. split; [done|]. exists s'. by apply bread_panic_iff.
  - right. rewrite bread_eq. unfold bind.
    destruct Hg as [[Hg Hl]|Hg]; rewrite Hg.
    + destruct (inv_rest s1 L' b x1 Hi Hx1)
        as (s' & x' & Hrest & Hi' & Hx' & Hc & Hv & _ & Hdk').
      injection Hc as Hd' Hb' Hr' Hl'.
      exists L', b, s', x'. split; [done|]. split; [left; split; [done|]|].
      * split; [congruence|done].
      * split; [done|]. split; [congruence|]. split; [congruence|].
        split; [congruence|]. split; [congruence|done].
    + exists L', b, s1, x1. split; [done|]. split; [by right|]. done.
Qed.

(** [brelse] in a state of the invariant. *)
Lemma inv_brelse s L p b x :
  inv_at s L → bufs s !! b = Some x → lock x = Some p →
  ∃ s' L', brelse p b s = Ret tt s' ∧ inv_at s' L' ∧
           disk s' = disk s ∧ transfers (log s') = transfers (log s) ∧
           ∀ k, k ≠ bucket_of (blockno x) → L' !! k = L !! k.
Proof.
  intros Hinv Hx Hl. pose proof Hinv as (Hwf & Ht & H2 & H3 & H4 & H6).
  assert (refcnt x ≠ 0) as Hr by (apply (H4 b x Hx); by rewrite Hl).
  pose proof (inv_refcnt _ _ _ _ Hinv Hx) as Hrg.
  destruct (decide (refcnt x = 1)) as [H1|H1].
  - destruct (inv_unlink s L b x (disk s)
      (log s ++ [EReleaseSleep b;
                 EAcquire (BucketLock (bucket_of (blockno x)));
                 ERefcnt b 0;
                 ERelease (BucketLock (bucket_of (blockno x)))]) Hinv Hx Hr)
      as (h & l1 & l2 & Hh & HL & Hp & Hn & Hi).
    eexists _, _. split; [by eapply brelse_last|]. split; [exact Hi|].
    simpl. split; [done|].
    split; [|intros k Hk; by apply list_lookup_insert_ne].
    rewrite transfers_app. simpl. by rewrite app_nil_r.
  - assert (uint_wrap (refcnt x - 1) = refcnt x - 1) as Hw.
    { unfold uint_wrap. apply Z.mod_small. lia. }
    eexists _, L. split; [by apply brelse_shared|]. split.
    + eapply inv_alter; try done; simpl; try done; rewrite Hw; lia.
    + simpl. split; [done|]. split; [|done].
      rewrite transfers_app. simpl. by rewrite app_nil_r.
Qed.

Lemma inv_bpin s L b x :
  inv_at s L → bufs s !! b = Some x → 0 < refcnt x < UINT_MAX →
  ∃ s', bpin b s = Ret tt s' ∧ inv_at s' L.
Proof.
  intros Hinv Hx Hr. pose proof Hinv as (_ & _ & _ & _ & H4 & _).
  assert (uint_wrap (refcnt x + 1) = refcnt x + 1) as Hw.
  { unfold uint_wrap. apply Z.mod_small. unfold UINT_MAX in Hr. lia. }
  eexists. split; [by apply bpin_eq|].
  eapply inv_alter; try done; simpl; try done; rewrite Hw;
    unfold UINT_MAX in Hr; lia.
Qed.

Lemma inv_bunpin s L b x :
  inv_at s L → bufs s !! b = Some x → 1 < refcnt x →
  ∃ s', bunpin b s = Ret tt s' ∧ inv_at s' L.
Proof.
  intros Hinv Hx Hr. pose proof Hinv as (_ & _ & _ & _ & H4 & _).
  pose proof (inv_refcnt _ _ _ _ Hinv Hx) as Hrg.
  assert (uint_wrap (refcnt x - 1) = refcnt x - 1) as Hw.
  { unfold uint_wrap. apply Z.mod_small. lia. }
  eexists. split; [by apply bunpin_eq|].
  eapply inv_alter; try done; simpl; try done; rewrite Hw; lia.
Qed.

Lemma inv_bwrite s L p b x :
  inv_at s L → bufs s !! b = Some x → lock x = Some p →
  ∃ s', bwrite p b s = Ret tt s' ∧ inv_at s' L.
Proof.
  intros Hinv Hx Hl. eexists. split; [by eapply bwrite_eq|].
  by eapply inv_ext; [..|exact Hinv].
Qed.

Lemma after_forget {A} (o : outcome A) : after (forget o) = after o.
Proof. by destruct o. Qed.

(** Every call that keeps the discipline keeps the invariant, and changes
    no list but the one of its bucket. *)
Lemma inv_exec_at a s s' L :
  inv_at s L → disciplined a s → after (exec a s) = Some s' →
  ∃ L', inv_at s' L' ∧ ∀ k, touched a s ≠ Some k → L' !! k = L !! k.
Proof.
  intros Hinv Hdis Ha.
  destruct a as [p dv bn|p dv bn|p b|p b|b|b|p b|p b]; simpl in Ha.
  - destruct (inv_bget s L p dv bn Hinv Hdis)
      as [(_ & _ & s1 & Hg)|(L' & b & s1 & x1 & Hi & Hg & _ & _ & _ & _ & _ & _ & HL)].
    + unfold bind in Ha. by rewrite Hg in Ha.
    + unfold bind in Ha. destruct Hg as [[Hg _]|Hg]; rewrite Hg in Ha;
        simpl in Ha; injection Ha as <-; exists L'; (split; [done|]);
        intros k Hk; apply HL; simpl in Hk; congruence.
  - destruct (inv_bread s L p dv bn Hinv Hdis)
      as [(_ & _ & s1 & Hg)|(L' & b & s1 & x1 & Hi & Hg & _ & _ & _ & _ & _ & HL)].
    + unfold bind in Ha. by rewrite Hg in Ha.
    + unfold bind in Ha. destruct Hg as [[Hg _]|Hg]; rewrite Hg in Ha;
        simpl in Ha; injection Ha as <-; exists L'; (split; [done|]);
        intros k Hk; apply HL; simpl in Hk; congruence.
  - rewrite after_forget in Ha.
    destruct (bufs s !! b) as [x|] eqn:Hx.
    + destruct (decide (lock x = Some p)) as [Hl|Hl].
      * destruct (inv_bwrite s L p b x Hinv Hx Hl) as (s1 & Hw & Hi).
        rewrite Hw in Ha. injection Ha as <-. by exists L.
      * destruct (lock_contract s p b x Hx Hl) as [Hw _]. by rewrite Hw in Ha.
    + exfalso. unfold bwrite, holdingsleep, bind, load in Ha.
      by rewrite Hx in Ha.
  - rewrite after_forget in Ha.
    destruct (bufs s !! b) as [x|] eqn:Hx.
    + destruct (decide (lock x = Some p)) as [Hl|Hl].
      * destruct (inv_brelse s L p b x Hinv Hx Hl)
          as (s1 & L' & Hw & Hi & _ & _ & HL).
        rewrite Hw in Ha. injection Ha as <-. exists L'. split; [done|].
        intros k Hk. apply HL. intros ->. apply Hk. simpl. by rewrite Hx.
      * destruct (lock_contract s p b x Hx Hl) as [_ Hw]. by rewrite Hw in Ha.
    + exfalso. unfold brelse, bind, load in Ha. by rewrite Hx in Ha.
  - rewrite after_forget in Ha. destruct Hdis as (x & Hx & Hr).
    destruct (inv_bpin s L b x Hinv Hx Hr) as (s1 & Hw & Hi).
    rewrite Hw in Ha. injection Ha as <-. by exists L.
  - rewrite after_forget in Ha. destruct Hdis as (x & Hx & Hr).
    destruct (inv_bunpin s L b x Hinv Hx Hr) as (s1 & Hw & Hi).
    rewrite Hw in Ha. injection Ha as <-. by exists L.
  - destruct Hdis as (x & Hx & Hr). unfold bind in Ha.
    destruct (inv_wake s L p b x Hinv Hx Hr) as [[Hw _]|(s1 & Hw & _ & Hi & _)];
      rewrite Hw in Ha; simpl in Ha; injection Ha as <-; by exists L.
  - destruct Hdis as (x & Hx & Hr). unfold bread_wake, bind in Ha.
    destruct (inv_wake s L p b x Hinv Hx Hr) as [[Hw _]|(s1 & Hw & _ & Hi & Hb & _)];
      rewrite Hw in Ha; simpl in Ha.
    + injection Ha as <-. by exists L.
    + destruct (inv_rest s1 L b (set_lock (Some p) x) Hi)
        as (s2 & x2 & Hrest & Hi2 & _).
      { by rewrite Hb, list_lookup_alter_eq, Hx. }
      rewrite Hrest in Ha. simpl in Ha. injection Ha as <-. by exists L.
Qed.

Lemma inv_exec a s s' :
  inv s → disciplined a s → after (exec a s) = Some s' → inv s'.
Proof.
  intros [L Hinv] Hdis Ha.
  destruct (inv_exec_at a s s' L Hinv Hdis Ha) as (L' & Hi & _). by exists L'.
Qed.

Lemma inv_run acts s s' :
  inv s → disciplined_run acts s → run acts s = Some s' → inv s'.
Proof.
  revert s. induction acts as [|a acts IH]; intros s Hinv Hd Hrun; simpl in *.
  - by injection Hrun as <-.
  - destruct Hd as [Ha Hd].
    destruct (after (exec a s)) as [s1|] eqn:E; [|done].
    eapply IH; [by eapply inv_exec|done..].
Qed.

Lemma inv_binit N d : inv_at (binit N d) (replicate (Z.to_nat NBUCKET) []).
Proof.
  split; [apply wf_binit|]. split; [apply binit_typed|].
  assert (∀ k b, ¬ listed (replicate (Z.to_nat NBUCKET) []) k b) as Hno.
  { intros k b (l & Hl & Hb). apply lookup_replicate in Hl as [-> _].
    by apply elem_of_nil in Hb. }
  split; [|split; [|split]].
  - intros k b Hl. by destruct (Hno k b).
  - intros b x Hx Hr. simpl in Hx. by apply lookup_replicate in Hx as [-> _].
  - intros b x Hx Hl. simpl in Hx. by apply lookup_replicate in Hx as [-> _].
  - intros k b b' x x' Hl. by destruct (Hno k b).
Qed.

(** In a state of the invariant no call runs for ever, and none follows a
    pointer out of the pool unless it was handed one. *)
Lemma exec_safe a s :
  inv s → (∀ b, target a = Some b → is_Some (bufs s !! b)) →
  exec a s ≠ Hang ∧ exec a s ≠ Wild.
Proof.
  intros [L Hinv] Hin. pose proof Hinv as (Hwf & Ht & H2 & H3 & H4 & H6).
  assert (∀ p dv bn, ∃ b s', bget p dv bn s = Ret b s' ∧ is_Some (bufs s' !! b)
            ∨ bget p dv bn s = Sleep b s' ∨ (∃ m, bget p dv bn s = Panic m s'))
    as Hbget.
  { intros p dv bn.
    destruct (wf_list s L bn Hwf) as [l Hl].
    destruct (wf_bucket_list s L _ l Hwf Hl) as (Hbl & h & Hh & Hc).
    pose proof (bget_cases s p dv bn) as Hg. rewrite Hh in Hg.
    assert (∀ S b, is_Some (bufs S !! b) →
      ∃ s', bget_wake p b S = Ret b s' ∧ is_Some (bufs s' !! b)
            ∨ bget_wake p b S = Sleep b s') as Hwk.
    { intros S b [y Hy]. rewrite (bget_wake_eq S p b y Hy).
      destruct (lock y); eexists; [by right|left]. split; [done|].
      simpl. apply alter_is_Some. by exists y. }
    destruct (closed_find _ _ _ dv bn Hc) as [Hf|[b Hf]]; rewrite Hf in Hg.
    - destruct (first_free (bufs s) 0) as [b|] eqn:Hff.
      + destruct Hg as (x & Hx & Hr & Hg). rewrite Hg.
        edestruct Hwk as (s' & [H|H]); [|exists b, s'; left; exact H
                                          |exists b, s'; right; left; exact H].
        simpl. destruct h; simpl; rewrite !alter_is_Some; by exists x.
      + exists 0%nat. eexists. right. right. eauto.
    - destruct Hg as (x & Hx & Hg). rewrite Hg.
      edestruct Hwk as (s' & [H|H]); [|exists b, s'; left; exact H
                                        |exists b, s'; right; left; exact H].
      simpl. rewrite alter_is_Some. by exists x. }
  assert (∀ {A} (o : outcome A), forget o = Hang → o = Hang) as Hfh
    by (by intros A []).
  assert (∀ {A} (o : outcome A), forget o = Wild → o = Wild) as Hfw
    by (by intros A []).
  destruct a as [p dv bn|p dv bn|p b|p b|b|b|p b|p b]; simpl.
  - destruct (Hbget p dv bn) as (b & s' & [[E _]|[E|[m E]]]);
      unfold bind; rewrite E; done.
  - destruct (Hbget p dv bn) as (b & s' & [[E [y Hy]]|[E|[m E]]]);
      rewrite bread_eq; unfold bind; rewrite E; try done.
    rewrite (bread_rest_eq s' b y Hy). by destruct (valid y =? 0).
  - destruct (Hin b eq_refl) as [x Hx].
    destruct (decide (lock x = Some p)) as [Hl|Hl].
    + by rewrite (bwrite_eq s p b x Hx Hl).
    + destruct (lock_contract s p b x Hx Hl) as [-> _]. done.
  - destruct (Hin b eq_refl) as [x Hx].
    destruct (decide (lock x = Some p)) as [Hl|Hl].
    + destruct (inv_brelse s L p b x Hinv Hx Hl) as (s1 & L' & -> & _). done.
    + destruct (lock_contract s p b x Hx Hl) as [_ ->]. done.
  - destruct (Hin b eq_refl) as [x Hx]. by rewrite (bpin_eq s b x Hx).
  - destruct (Hin b eq_refl) as [x Hx]. by rewrite (bunpin_eq s b x Hx).
  - destruct (Hin b eq_refl) as [x Hx]. unfold bind.
    rewrite (bget_wake_eq s p b x Hx). by destruct (lock x).
  - destruct (Hin b eq_refl) as [x Hx]. unfold bread_wake, bind.
    rewrite (bget_wake_eq s p b x Hx). destruct (lock x); [done|].
    erewrite bread_rest_eq;
      [|simpl; rewrite list_lookup_alter_eq, Hx; reflexivity].
    simpl. by destruct (valid x =? 0).
Qed.

(** ** What [bget] and [bread] return *)



Lemma idmatch_alter f b' (bs : list buf) j dv bn :
  (∀ y, dev (f y) = dev y ∧ blockno (f y) = blockno y) →
  idmatch (alter f b' bs) j dv bn ↔ idmatch bs j dv bn.
Proof.
  intros Hid. unfold idmatch. destruct (decide (j = b')) as [->|Hne].
  - rewrite list_lookup_alter_eq. destruct (bs !! b') as [y|]; simpl.
    + destruct (Hid y) as [Hd Hb]. split.
      * intros (z & [= <-] & Hd' & Hb'). exists y. split; [done|].
        split; congruence.
      * intros (z & [= <-] & Hd' & Hb'). eexists. split; [done|].
        split; congruence.
    + split; intros (z & ? & _); done.
  - by rewrite list_lookup_alter_ne.
Qed.

(** A store into one buffer that keeps identities and links keeps every
    hit. *)
Lemma hit_keep s s' f b' dv bn b :
  bufs s' = alter f b' (bufs s) → heads s' = heads s →
  (∀ y, prev (f y) = prev y ∧ next (f y) = next y) →
  (∀ y, dev (f y) = dev y ∧ blockno (f y) = blockno y) →
  hit s dv bn b → hit s' dv bn b.
Proof.
  intros Hb Hh Hlk Hid (Ha & Hi & Hu).
  assert (∀ k, bucket_list s' k = bucket_list s k) as Hbl.
  { intros k. apply bucket_list_keep; [done|]. intros i. rewrite Hb.
    by apply links_alter_keep. }
  assert (∀ j, has_id s' j dv bn ↔ has_id s j dv bn) as Hhas.
  { intros j. unfold has_id. rewrite Hb. by apply idmatch_alter. }
  unfold hit, attached. rewrite Hbl. split; [done|]. split; [by apply Hhas|].
  intros j Hj Hjd. apply Hu; [done|by apply Hhas].
Qed.

Lemma alter_same (f : buf → buf) b (bs : list buf) x :
  bs !! b = Some x → f x = x → alter f b bs = bs.
Proof.
  intros Hx Hf. apply list_eq. intros j. destruct (decide (j = b)) as [->|].
  - rewrite list_lookup_alter_eq, Hx. simpl. by rewrite Hf.
  - by rewrite list_lookup_alter_ne.
Qed.

Lemma set_refcnt_same x : set_refcnt (refcnt x) x = x.
Proof. by destruct x. Qed.

Lemma wrap_up_down c : 0 ≤ c < UINT_MOD → uint_wrap (uint_wrap (c + 1) - 1) = c.
Proof.
  intros Hc.
  replace (uint_wrap (c + 1) - 1) with (uint_wrap (c + 1) + -1) by lia.
  rewrite uint_wrap_add. unfold uint_wrap.
  replace (c + 1 + -1) with c by lia. by apply Z.mod_small.
Qed.

Lemma wrap_down_up c : 0 ≤ c < UINT_MOD → uint_wrap (uint_wrap (c - 1) + 1) = c.
Proof.
  intros Hc. rewrite uint_wrap_add. unfold uint_wrap.
  replace (c - 1 + 1) with c by lia. by apply Z.mod_small.
Qed.

(** In a state of the invariant a referenced buffer is the hit of its
    identity. *)
Lemma inv_hit s L b x :
  inv_at s L → bufs s !! b = Some x → refcnt x ≠ 0 →
  hit s (dev x) (blockno x) b.
Proof.
  intros (Hwf & Ht & H2 & H3 & H4 & H6) Hx Hr.
  pose proof (H3 b x Hx Hr) as Hl.
  split; [by apply (wf_attached _ _ _ _ Hwf)|]. split; [by exists x|].
  intros b' Hb' (x' & Hx' & Hd & Hb).
  apply (wf_attached _ _ _ _ Hwf) in Hb'.
  by apply (H6 (bucket_of (blockno x)) b' b x' x).
Qed.

(** ** Misses and last releases under the invariant *)

Lemma inv_free_unlocked s L b x :
  inv_at s L → bufs s !! b = Some x → refcnt x = 0 → lock x = None.
Proof.
  intros (_ & _ & _ & _ & H4 & _) Hx Hr.
  destruct (lock x) eqn:E; [|done]. destruct (H4 b x Hx); [|done].
  by rewrite E.
Qed.

(** A miss in a state of the invariant: the buffer comes back at once. *)
Lemma inv_bget_miss s L p dv bn b :
  inv_at s L → miss s dv bn → first_free (bufs s) 0 = Some b →
  ∃ s' h l x x',
    heads s !! bucket_of bn = Some h ∧ L !! bucket_of bn = Some l ∧
    bufs s !! b = Some x ∧ refcnt x = 0 ∧ lock x = None ∧
    bget p dv bn s = Ret b s' ∧
    inv_at s' (<[bucket_of bn := b :: l]> L) ∧
    bufs s' !! b = Some x' ∧ x' = Buf 0 dv bn (Some p) 1 None h (data x) ∧
    heads s' = <[bucket_of bn := Some b]> (heads s) ∧
    (∀ j, j ≠ b → cores (bufs s') j = cores (bufs s) j) ∧
    disk s' = disk s ∧ transfers (log s') = transfers (log s).
Proof.
  intros Hinv Hm Hff. pose proof Hinv as (Hwf & _).
  pose proof Hff as (x & Hx & Hr & _)%first_free_first.
  pose proof (inv_free_unlocked _ _ _ _ Hinv Hx Hr) as Hl.
  destruct (bget_miss_result s p dv bn b x Hm Hx Hff)
    as (s' & h & Hh & [[Hg _]|[_ Hn]] & Hb & Hhd & Hd & Ht); [|done].
  destruct (wf_list s L bn Hwf) as [l HL].
  rewrite Hl in Hb.
  assert (b ∉ l) as Hbl.
  { intros Hin. destruct Hinv as (_ & _ & H2 & _).
    destruct (H2 (bucket_of bn) b) as (x0 & Hx0 & _ & Hr0); [by exists l|].
    congruence. }
  assert (alter_at (set_prev (Some b)) h (alter (fresh dv bn h) b (bufs s)) !! b
          = Some (fresh dv bn h x)) as Hfb.
  { destruct h as [n|]; simpl; [|by rewrite list_lookup_alter_eq, Hx].
    assert (n ∈ l) as Hn.
    { destruct Hwf as (_ & _ & Hd' & _). destruct (Hd' _ _ _ Hh HL) as [Hdl _].
      by eapply dll_head. }
    rewrite list_lookup_alter_ne by (by intros ->).
    by rewrite list_lookup_alter_eq, Hx. }
  exists s', h, l, x, (Buf 0 dv bn (Some p) 1 None h (data x)).
  split; [done|]. split; [done|]. split; [done|]. split; [done|].
  split; [done|]. split; [done|].
  split; [|split; [|split; [done|split; [done|split; [|done]]]]].
  - set (S := State (alter_at (set_prev (Some b)) h
                         (alter (fresh dv bn h) b (bufs s)))
                      (<[bucket_of bn := Some b]> (heads s)) (disk s') (log s')).
    assert (inv_at S (<[bucket_of bn := b :: l]> L)) as HS.
    { apply (inv_push s L b x h l dv bn); try done. by destruct Hm. }
    apply (inv_ext (State (alter (set_lock (Some p)) b (bufs S)) (heads S)
                      (disk s') (log s'))); [exact Hb|exact Hhd|].
    by apply (inv_alter S _ b (fresh dv bn h x)).
  - by rewrite Hb, list_lookup_alter_eq, Hfb.
  - intros j Hj. rewrite Hb.
    rewrite (cores_alter_map _ (λ c, (c.1.1.1, c.1.1.2, c.1.2, Some p))) by done.
    rewrite decide_False by done. rewrite cores_alter_at by done.
    rewrite (cores_alter _ _ _ x) by done. unfold with_core.
    by rewrite decide_False.
Qed.

Lemma head_split_nodup (l1 l2 l : list nat) b :
  NoDup (b :: l) → l1 ++ b :: l2 = b :: l → l1 = [] ∧ l2 = l.
Proof.
  intros Hnd E. destruct l1 as [|a l1]; simpl in E.
  - by injection E.
  - injection E as -> <-. apply NoDup_cons in Hnd as [Hn _].
    destruct Hn. rewrite elem_of_app, elem_of_cons. auto.
Qed.

Lemma inv_bucket_lists s s' L L' k :
  inv_at s L → inv_at s' L' → L' !! k = L !! k →
  bucket_list s' k = bucket_list s k.
Proof.
  intros (Hwf & _) (Hwf' & _) HL.
  destruct (L !! k) as [l|] eqn:Hl.
  - destruct (wf_bucket_list _ _ _ _ Hwf Hl) as [-> _].
    by destruct (wf_bucket_list _ _ _ _ Hwf' HL) as [-> _].
  - apply lookup_ge_None in Hl. apply lookup_ge_None in HL.
    destruct Hwf as (H1 & H2 & _), Hwf' as (H1' & H2' & _).
    unfold bucket_list.
    rewrite (proj2 (lookup_ge_None (heads s) k)) by lia.
    rewrite (proj2 (lookup_ge_None (heads s') k)) by lia.
    simpl. by rewrite !visited_null.
Qed.

(** The last release in a state of the invariant. *)
Lemma inv_brelse_last s L p b x :
  inv_at s L → bufs s !! b = Some x → lock x = Some p → refcnt x = 1 →
  ∃ s' h l1 l2,
    heads s !! bucket_of (blockno x) = Some h ∧
    L !! bucket_of (blockno x) = Some (l1 ++ b :: l2) ∧
    brelse p b s = Ret tt s' ∧
    inv_at s' (<[bucket_of (blockno x) := l1 ++ l2]> L) ∧
    heads s' = (if decide (h = Some b)
                then <[bucket_of (blockno x) := next x]> (heads s)
                else heads s) ∧
    (∀ j, j ≠ b → cores (bufs s') j = cores (bufs s) j) ∧
    cores (bufs s') b = Some (dev x, blockno x, 0, None) ∧
    disk s' = disk s ∧ transfers (log s') = transfers (log s).
Proof.
  intros Hinv Hx Hl Hr.
  destruct (inv_unlink s L b x (disk s)
    (log s ++ [EReleaseSleep b;
               EAcquire (BucketLock (bucket_of (blockno x)));
               ERefcnt b 0;
               ERelease (BucketLock (bucket_of (blockno x)))]) Hinv Hx)
    as (h & l1 & l2 & Hh & HL & Hp & Hn & Hi); [lia|].
  eexists _, h, l1, l2. split; [done|]. split; [done|].
  split; [by eapply brelse_last|]. split; [exact Hi|]. simpl.
  assert (∀ j, cores (alter (set_refcnt 0) b
      (alter_at (set_prev (prev x)) (next x)
         (alter_at (set_next (next x)) (prev x)
            (alter (set_lock None) b (bufs s))))) j =
      with_core (cores (bufs s)) b (dev x, blockno x, 0, None) j) as Hc.
  { intros j.
    rewrite (cores_alter_map _ (λ c, (c.1.1.1, c.1.1.2, 0, c.2))) by done.
    do 2 rewrite cores_alter_at by done.
    rewrite (cores_alter_map _ (λ c, (c.1.1.1, c.1.1.2, c.1.2, None)))
      by done.
    unfold with_core. destruct (decide (j = b)) as [->|]; [|done].
    by rewrite (cores_core _ _ _ Hx). }
  split; [done|]. split; [|split; [|split; [done|]]].
  - intros j Hj. rewrite Hc. unfold with_core. by rewrite decide_False.
  - rewrite Hc. unfold with_core. by rewrite decide_True.
  - rewrite transfers_app. simpl. by rewrite app_nil_r.
Qed.

Lemma insert_twice_id {A} (L : list A) k (v w : A) :
  L !! k = Some w → <[k := w]> (<[k := v]> L) = L.
Proof.
  intros Hk. rewrite list_insert_insert_eq. by apply list_insert_id.
Qed.

(** ** The events and the frame of a call *)

Lemma lock_run_app H evs1 evs2 :
  lock_run H (evs1 ++ evs2) = lock_run H evs1 ≫= λ H', lock_run H' evs2.
Proof.
  revert H. induction evs1 as [|e evs1 IH]; intros H; simpl; [done|].
  destruct (lock_step H e); [apply IH|done].
Qed.

Lemma locks_ok_app evs1 evs2 :
  locks_ok evs1 → locks_ok evs2 → locks_ok (evs1 ++ evs2).
Proof. unfold locks_ok. intros H1 H2. by rewrite lock_run_app, H1. Qed.

Lemma calm_refl s : calm s s.
Proof. done. Qed.

Lemma calm_trans s1 s2 s3 : calm s1 s2 → calm s2 s3 → calm s1 s3.
Proof.
  intros (A1 & A2 & A3 & A4) (B1 & B2 & B3 & B4). unfold calm.
  split; [congruence|]. split; [congruence|]. split; [congruence|].
  intros j. by rewrite B4.
Qed.

Lemma length_alter_at (f : buf → buf) q (bs : list buf) :
  length (alter_at f q bs) = length bs.
Proof. destruct q; simpl; [apply length_alter|done]. Qed.

(** What a call that did not halt the system did: the outcome, the state
    and the events it added to the log. *)
Lemma bget_wake_trace s p b s' :
  after (bget_wake p b s) = Some s' →
  calm s s' ∧ heads s' = heads s ∧
  ∃ evs, log s' = log s ++ evs ∧ transfers evs = [] ∧ locks_ok evs.
Proof.
  destruct (bufs s !! b) as [x|] eqn:Hx.
  - rewrite (bget_wake_eq _ _ _ _ Hx). destruct (lock x); simpl.
    + intros [= <-]. split; [done|]. split; [done|]. exists [].
      by rewrite app_nil_r.
    + intros [= <-]. split; [|split; [done|by eexists]].
      unfold calm. simpl. rewrite length_alter. repeat split.
      intros j. by apply lookup_alter_keep.
  - unfold bget_wake, acquiresleep, bind, load. by rewrite Hx.
Qed.

Lemma spin_eqb_refl l : spin_eqb l l = true.
Proof. destruct l; simpl; [done|apply Nat.eqb_refl]. Qed.

Lemma bget_trace s p dv bn s' :
  after (bget p dv bn s) = Some s' →
  calm s s' ∧
  (∀ k, k ≠ bucket_of bn → heads s' !! k = heads s !! k) ∧
  ∃ evs, log s' = log s ++ evs ∧ transfers evs = [] ∧ locks_ok evs.
Proof.
  pose proof (bget_cases s p dv bn) as Hc.
  destruct (heads s !! bucket_of bn) as [h|]; [|by rewrite Hc].
  destruct (bucket_find _ _ _ _ _) as [b| | |]; try by rewrite Hc.
  - destruct Hc as (x & Hx & ->).
    intros ((C1 & C2 & C3 & C4) & Hh & evs & Hl & Ht & Hk)%bget_wake_trace.
    simpl in *. rewrite length_alter in C2. split; [|split].
    + repeat split; try done. intros j. rewrite C4.
      by apply lookup_alter_keep.
    + intros k _. by rewrite Hh.
    + eexists. split; [by rewrite Hl, <- app_assoc|].
      split; [by rewrite transfers_app, Ht|].
      apply locks_ok_app; [|done]. unfold locks_ok. simpl.
      by rewrite Nat.eqb_refl.
  - destruct (first_free _ _) as [b|]; [|by rewrite Hc].
    destruct Hc as (x & Hx & Hr & ->).
    intros ((C1 & C2 & C3 & C4) & Hh & evs & Hl & Ht & Hk)%bget_wake_trace.
    simpl in *. rewrite length_alter_at, length_alter in C2.
    rewrite length_insert in C3. split; [|split].
    + repeat split; try done. intros j. rewrite C4.
      rewrite lookup_alter_at_keep by done. by apply lookup_alter_keep.
    + intros k Hk'. rewrite Hh. by apply list_lookup_insert_ne.
    + eexists. split; [by rewrite Hl, <- app_assoc|].
      split; [by rewrite transfers_app, Ht|].
      apply locks_ok_app; [|done]. unfold locks_ok. simpl.
      by rewrite Nat.eqb_refl.
Qed.

Lemma bread_rest_trace s b s' :
  after (bread_rest b s) = Some s' →
  disk s' = disk s ∧ length (bufs s') = length (bufs s) ∧
  heads s' = heads s ∧
  ∃ evs, log s' = log s ++ evs ∧ locks_ok evs ∧
         (transfers evs = [] ∨ transfers evs = [(b, false)]).
Proof.
  destruct (bufs s !! b) as [x|] eqn:Hx.
  - rewrite (bread_rest_eq _ _ _ Hx). destruct (valid x =? 0); simpl.
    + intros [= <-]. simpl. rewrite length_alter. repeat split.
      eexists. split; [done|]. split; [done|]. by right.
    + intros [= <-]. repeat split. exists []. rewrite app_nil_r.
      split; [done|]. split; [done|]. by left.
  - unfold bread_rest, bind, load. by rewrite Hx.
Qed.

Lemma brelse_trace s p b s' :
  after (brelse p b s) = Some s' →
  ∃ x, bufs s !! b = Some x ∧ calm s s' ∧
  (∀ k, k ≠ bucket_of (blockno x) → heads s' !! k = heads s !! k) ∧
  ∃ evs, log s' = log s ++ evs ∧ transfers evs = [] ∧ locks_ok evs.
Proof.
  destruct (bufs s !! b) as [x|] eqn:Hx.
  2: { unfold brelse, bind, load. by rewrite Hx. }
  destruct (decide (lock x = Some p)) as [Hl|Hl].
  2: { by rewrite (proj2 (lock_contract _ _ _ _ Hx Hl)). }
  destruct (decide (refcnt x = 1)) as [Hr|Hr].
  - destruct (heads s !! bucket_of (blockno x)) as [h|] eqn:Hh.
    2: { rewrite (brelse_last_wild _ _ _ _ Hx Hl Hr); [done|auto]. }
    destruct (ptr_in_pool (bufs s) (prev x)) as [Hp|Hp].
    2: { rewrite (brelse_last_wild _ _ _ _ Hx Hl Hr); [done|auto]. }
    destruct (ptr_in_pool (bufs s) (next x)) as [Hn|Hn].
    2: { rewrite (brelse_last_wild _ _ _ _ Hx Hl Hr); [done|auto]. }
    rewrite (brelse_last _ _ _ _ _ Hx Hl Hr Hh Hp Hn). simpl.
    intros [= <-]. exists x. split; [done|]. split; [|split].
    + unfold calm. simpl.
      rewrite length_alter, !length_alter_at, length_alter.
      split; [done|]. split; [done|]. split.
      * case_decide; [by rewrite length_insert|done].
      * intros j. rewrite lookup_alter_keep by done.
        rewrite !lookup_alter_at_keep by done. by apply lookup_alter_keep.
    + intros k Hk. simpl. case_decide; [|done].
      by apply list_lookup_insert_ne.
    + eexists. split; [done|]. split; [done|]. unfold locks_ok. simpl.
      by rewrite Nat.eqb_refl.
  - rewrite (brelse_shared _ _ _ _ Hx Hl Hr). simpl.
    intros [= <-]. exists x. split; [done|]. split; [|split].
    + unfold calm. simpl. rewrite length_alter. repeat split.
      intros j. by apply lookup_alter_keep.
    + done.
    + eexists. split; [done|]. split; [done|]. unfold locks_ok. simpl.
      by rewrite Nat.eqb_refl.
Qed.

Lemma bpin_trace s b s' :
  after (bpin b s) = Some s' →
  calm s s' ∧ heads s' = heads s ∧
  ∃ evs, log s' = log s ++ evs ∧ transfers evs = [] ∧ locks_ok evs.
Proof.
  destruct (bufs s !! b) as [x|] eqn:Hx.
  2: { unfold bpin, bind, load. by rewrite Hx. }
  rewrite (bpin_eq _ _ _ Hx). simpl. intros [= <-]. split; [|split].
  - unfold calm. simpl. rewrite length_alter. repeat split.
    intros j. by apply lookup_alter_keep.
  - done.
  - eexists. split; [done|]. split; [done|]. unfold locks_ok. simpl.
    by rewrite Nat.eqb_refl.
Qed.

Lemma bunpin_trace s b s' :
  after (bunpin b s) = Some s' →
  calm s s' ∧ heads s' = heads s ∧
  ∃ evs, log s' = log s ++ evs ∧ transfers evs = [] ∧ locks_ok evs.
Proof.
  destruct (bufs s !! b) as [x|] eqn:Hx.
  2: { unfold bunpin, bind, load. by rewrite Hx. }
  rewrite (bunpin_eq _ _ _ Hx). simpl. intros [= <-]. split; [|split].
  - unfold calm. simpl. rewrite length_alter. repeat split.
    intros j. by apply lookup_alter_keep.
  - done.
  - eexists. split; [done|]. split; [done|]. unfold locks_ok. simpl.
    by rewrite Nat.eqb_refl.
Qed.

Lemma bwrite_trace s p b s' :
  after (bwrite p b s) = Some s' →
  ∃ x, bufs s !! b = Some x ∧ lock x = Some p ∧
       bufs s' = bufs s ∧ heads s' = heads s ∧
       disk s' = <[(dev x, blockno x) := data x]> (disk s) ∧
       log s' = log s ++ [EDisk b true].
Proof.
  destruct (bufs s !! b) as [x|] eqn:Hx.
  2: { unfold bwrite, holdingsleep, bind, load. by rewrite Hx. }
  destruct (decide (lock x = Some p)) as [Hl|Hl].
  2: { by rewrite (proj1 (lock_contract _ _ _ _ Hx Hl)). }
  rewrite (bwrite_eq _ _ _ _ Hx Hl). simpl. intros [= <-]. by exists x.
Qed.

Lemma after_bind_ret {A B} (m : M A) (g : A → B) s s' :
  after (bind m (λ a, ret (g a)) s) = Some s' → after (m s) = Some s'.
Proof. unfold bind. by destruct (m s). Qed.

Lemma after_bind {A B} (m : M A) (f : A → M B) s s' :
  after (bind m f s) = Some s' →
  (∃ b, m s = Sleep b s') ∨ (∃ a s1, m s = Ret a s1 ∧ after (f a s1) = Some s').
Proof.
  unfold bind. destruct (m s) as [a s1|?|b s1| |]; try done.
  - right. eauto.
  - simpl. intros [= <-]. left. eauto.
Qed.

(** The events, the sizes and the disk of one step. *)
Lemma exec_trace a s s' :
  after (exec a s) = Some s' →
  length (bufs s') = length (bufs s) ∧ length (heads s') = length (heads s) ∧
  (∀ k, touched a s ≠ Some k → heads s' !! k = heads s !! k) ∧
  ∃ evs, log s' = log s ++ evs ∧ locks_ok evs ∧
    match a with
    | Get _ _ _ | Release _ _ | Pin _ | Unpin _ | WakeGet _ _ =>
        calm s s' ∧ transfers evs = []
    | Read _ _ _ | WakeRead _ _ =>
        disk s' = disk s ∧
        (transfers evs = [] ∨ ∃ b, transfers evs = [(b, false)])
    | Write p b =>
        ∃ x, bufs s !! b = Some x ∧ lock x = Some p ∧
             bufs s' = bufs s ∧
             disk s' = <[(dev x, blockno x) := data x]> (disk s) ∧
             transfers evs = [(b, true)]
    end.
Proof.
  destruct a as [p dv bn|p dv bn|p b|p b|b|b|p b|p b]; cbn [exec touched].
  - intros Ha%after_bind_ret.
    destruct (bget_trace _ _ _ _ _ Ha) as (Hc & Hh & evs & Hl & Ht & Hk).
    pose proof Hc as (_ & ? & ? & _). split; [done|]. split; [done|].
    split; [intros k Hk'; apply Hh; congruence|]. by exists evs.
  - intros Ha%after_bind_ret. rewrite bread_eq in Ha.
    apply after_bind in Ha as [[b Hg]|(b & s1 & Hg & Ha)].
    + destruct (bget_trace s p dv bn s') as (Hc & Hh & evs & Hl & Ht & Hk);
        [by rewrite Hg|].
      pose proof Hc as (? & ? & ? & _). split; [done|]. split; [done|].
      split; [intros k Hk'; apply Hh; congruence|].
      exists evs. split; [done|]. split; [done|]. split; [done|by left].
    + destruct (bget_trace s p dv bn s1) as (Hc & Hh & evs & Hl & Ht & Hk);
        [by rewrite Hg|].
      destruct (bread_rest_trace _ _ _ Ha)
        as (Hd & Hn & Hh' & evs' & Hl' & Hk' & Ht').
      pose proof Hc as (? & ? & ? & _).
      split; [congruence|]. split; [congruence|].
      split; [intros k Hk''; rewrite Hh'; apply Hh; congruence|].
      exists (evs ++ evs'). split; [by rewrite Hl', Hl, <- app_assoc|].
      split; [by apply locks_ok_app|]. split; [congruence|].
      rewrite transfers_app, Ht. simpl. destruct Ht'; eauto.
  - rewrite after_forget.
    intros (x & Hx & Hl & Hb & Hh & Hd & Hlg)%bwrite_trace.
    rewrite Hb, Hh. split; [done|]. split; [done|]. split; [done|].
    eexists. split; [done|]. split; [done|]. by exists x.
  - rewrite after_forget.
    intros (x & Hx & Hc & Hh & evs & Hl & Ht & Hk)%brelse_trace.
    pose proof Hc as (_ & ? & ? & _). split; [done|]. split; [done|].
    split; [|by exists evs].
    intros k Hk'. apply Hh. intros ->. apply Hk'. by rewrite Hx.
  - rewrite after_forget. intros (Hc & Hh & evs & Hl & Ht & Hk)%bpin_trace.
    pose proof Hc as (_ & ? & ? & _). split; [done|]. split; [done|].
    split; [by rewrite Hh|]. by exists evs.
  - rewrite after_forget. intros (Hc & Hh & evs & Hl & Ht & Hk)%bunpin_trace.
    pose proof Hc as (_ & ? & ? & _). split; [done|]. split; [done|].
    split; [by rewrite Hh|]. by exists evs.
  - intros Ha%after_bind_ret.
    destruct (bget_wake_trace _ _ _ _ Ha) as (Hc & Hh & evs & Hl & Ht & Hk).
    pose proof Hc as (_ & ? & ? & _). split; [done|]. split; [done|].
    split; [by rewrite Hh|]. by exists evs.
  - intros Ha%after_bind_ret. unfold bread_wake in Ha.
    apply after_bind in Ha as [[b' Hg]|(b' & s1 & Hg & Ha)].
    + destruct (bget_wake_trace s p b s') as (Hc & Hh & evs & Hl & Ht & Hk);
        [by rewrite Hg|].
      pose proof Hc as (? & ? & ? & _). split; [done|]. split; [done|].
      split; [by rewrite Hh|].
      exists evs. split; [done|]. split; [done|]. split; [done|by left].
    + destruct (bget_wake_trace s p b s1) as (Hc & Hh & evs & Hl & Ht & Hk);
        [by rewrite Hg|].
      destruct (bread_rest_trace _ _ _ Ha)
        as (Hd & Hn & Hh' & evs' & Hl' & Hk' & Ht').
      pose proof Hc as (? & ? & ? & _).
      split; [congruence|]. split; [congruence|].
      split; [by rewrite Hh', Hh|].
      exists (evs ++ evs'). split; [by rewrite Hl', Hl, <- app_assoc|].
      split; [by apply locks_ok_app|]. split; [congruence|].
      rewrite transfers_app, Ht. simpl. destruct Ht'; eauto.
Qed.

(** ** Reading the invariant *)

(** What the invariant says of one buffer, in the words of the code. *)
Lemma inv_reads s b x :
  inv s → bufs s !! b = Some x →
  0 ≤ refcnt x < UINT_MOD ∧
  (refcnt x = 0 ↔ detached s b) ∧
  (∀ k, attached s k b → k = bucket_of (blockno x)) ∧
  (lock x ≠ None → refcnt x ≠ 0) ∧
  (refcnt x ≠ 0 → hit s (dev x) (blockno x) b).
Proof.
  intros [L Hinv] Hx. pose proof Hinv as (Hwf & Ht & H2 & H3 & H4 & H6).
  split; [by eapply inv_refcnt|]. split; [|split; [|split]].
  - rewrite (wf_detached _ _ _ Hwf). split.
    + intros Hr k l Hl Hb. destruct (H2 k b) as (x' & Hx' & _ & Hr').
      { by exists l. }
      congruence.
    + intros Hun. destruct (decide (refcnt x = 0)) as [|Hr]; [done|].
      destruct (H3 b x Hx Hr) as (l & Hl & Hb). by destruct (Hun _ _ Hl).
  - intros k Ha%(wf_attached _ _ _ _ Hwf).
    destruct (H2 k b Ha) as (x' & Hx' & Hk & _). congruence.
  - apply (H4 b x Hx).
  - by eapply inv_hit.
Qed.

Lemma inv_nodup s k : inv s → NoDup (bucket_list s k).
Proof.
  intros [L ((H1 & H2 & H3 & H4) & _)].
  destruct (L !! k) as [l|] eqn:Hl.
  - destruct (wf_bucket_list s L k l) as (-> & h & Hh & _); [done..|].
    by destruct (H3 _ _ _ Hh Hl).
  - apply lookup_ge_None in Hl. unfold bucket_list.
    rewrite (proj2 (lookup_ge_None (heads s) k)) by lia.
    simpl. rewrite visited_null. apply NoDup_nil_2.
Qed.

Lemma alter_ext_at (f g : buf → buf) b (bs : list buf) x :
  bs !! b = Some x → f x = g x → alter f b bs = alter g b bs.
Proof.
  intros Hx Hf. apply list_eq. intros j. destruct (decide (j = b)) as [->|].
  - rewrite !list_lookup_alter_eq, Hx. simpl. by rewrite Hf.
  - by rewrite !list_lookup_alter_ne.
Qed.

Lemma ex_held_after :
  after (exec (Read 1 1 5) (binit 2 ∅)) = Some ex_held.
Proof. vm_compute. reflexivity. Qed.

Lemma binit_disciplined p dv bn N d : disciplined (Read p dv bn) (binit N d).
Proof.
  intros b x Ha. unfold attached, bucket_list in Ha.
  assert (default None (heads (binit N d) !! bucket_of bn) = None) as E.
  { destruct (heads (binit N d) !! bucket_of bn) as [h|] eqn:E; [|done].
    unfold binit in E. cbn [heads] in E.
    by apply lookup_replicate in E as [-> _]. }
  rewrite E, visited_null in Ha. by apply elem_of_nil in Ha.
Qed.

Lemma ex_held_inv : inv ex_held.
Proof.
  apply (inv_exec (Read 1 1 5) (binit 2 ∅)).
  - eexists. apply inv_binit.
  - apply binit_disciplined.
  - apply ex_held_after.
Qed.

Lemma wrap_small c : 0 ≤ c < UINT_MOD → uint_wrap c = c.
Proof. intros. unfold uint_wrap. by apply Z.mod_small. Qed.

Lemma cores_count bs bs' j :
  cores bs' j = cores bs j → refcnt <$> bs' !! j = refcnt <$> bs !! j.
Proof.
  unfold cores. destruct (bs' !! j), (bs !! j); simpl; try done.
  by intros [= _ _ -> _].
Qed.

Lemma first_free_same_counts bs bs' b :
  (∀ j, refcnt <$> bs' !! j = refcnt <$> bs !! j) →
  first_free bs 0 = Some b → first_free bs' 0 = Some b.
Proof.
  intros Hc (x & Hx & Hr & Hlow)%first_free_first. apply first_free_first.
  pose proof (Hc b) as Hb. rewrite Hx in Hb.
  apply fmap_Some in Hb as (x' & Hx' & Hr').
  exists x'. split; [done|]. split; [simpl in Hr'; congruence|].
  intros j y Hj Hy. pose proof (Hc j) as Hcj. rewrite Hy in Hcj.
  symmetry in Hcj. apply fmap_Some in Hcj as (y0 & Hy0 & Hr0).
  simpl in Hr0. rewrite Hr0. by eapply Hlow.
Qed.

(** ** Locks and contents along a call *)

(** What the calls do to the sleep-lock and to the contents of the buffers
    they do not pick. *)
Lemma bget_wake_keeps s p b s' :
  after (bget_wake p b s) = Some s' →
  (∀ j, contents <$> bufs s' !! j = contents <$> bufs s !! j) ∧
  (∀ j q, lock <$> bufs s !! j = Some (Some q) →
          lock <$> bufs s' !! j = Some (Some q)).
Proof.
  destruct (bufs s !! b) as [x|] eqn:Hx.
  - rewrite (bget_wake_eq _ _ _ _ Hx). destruct (lock x) eqn:Hl; simpl.
    + by intros [= <-].
    + intros [= <-]. simpl. split.
      * intros j. by apply lookup_alter_keep.
      * intros j q Hj. destruct (decide (j = b)) as [->|Hne].
        -- rewrite Hx in Hj. simpl in Hj. congruence.
        -- by rewrite list_lookup_alter_ne.
  - unfold bget_wake, acquiresleep, bind, load. by rewrite Hx.
Qed.

Lemma bget_keeps s p dv bn s' :
  after (bget p dv bn s) = Some s' →
  (∀ j x, bufs s !! j = Some x → refcnt x ≠ 0 →
          contents <$> bufs s' !! j = Some (contents x)) ∧
  (∀ j q, lock <$> bufs s !! j = Some (Some q) →
          lock <$> bufs s' !! j = Some (Some q)).
Proof.
  pose proof (bget_cases s p dv bn) as Hc.
  destruct (heads s !! bucket_of bn) as [h|]; [|by rewrite Hc].
  destruct (bucket_find _ _ _ _ _) as [b| | |]; try by rewrite Hc.
  - destruct Hc as (x & Hx & ->). intros [Hk Hl]%bget_wake_keeps.
    simpl in *. split.
    + intros j y Hy _. rewrite Hk, lookup_alter_keep by done. by rewrite Hy.
    + intros j q Hj. apply Hl. by rewrite lookup_alter_keep.
  - destruct (first_free _ _) as [b|]; [|by rewrite Hc].
    destruct Hc as (x & Hx & Hr & ->). intros [Hk Hl]%bget_wake_keeps.
    simpl in *. split.
    + intros j y Hy Hry. rewrite Hk, lookup_alter_at_keep by done.
      rewrite list_lookup_alter_ne by congruence. by rewrite Hy.
    + intros j q Hj. apply Hl. rewrite lookup_alter_at_keep by done.
      by rewrite lookup_alter_keep.
Qed.

Lemma bread_rest_keeps s b s' :
  after (bread_rest b s) = Some s' →
  (∀ j x, bufs s !! j = Some x →
     ∃ x', bufs s' !! j = Some x' ∧ dev x' = dev x ∧ blockno x' = blockno x ∧
           (valid x ≠ 0 → valid x' = valid x ∧ data x' = data x)) ∧
  (∀ j, lock <$> bufs s' !! j = lock <$> bufs s !! j).
Proof.
  destruct (bufs s !! b) as [x|] eqn:Hx.
  - rewrite (bread_rest_eq _ _ _ Hx). destruct (valid x =? 0) eqn:Hv; simpl.
    + intros [= <-]. simpl. apply Z.eqb_eq in Hv. split.
      * intros j y Hy. destruct (decide (j = b)) as [->|Hne].
        -- rewrite list_lookup_alter_eq, Hy. eexists. split; [done|].
           simpl. assert (y = x) as -> by congruence. done.
        -- rewrite list_lookup_alter_ne by done. by exists y.
      * intros j. by apply lookup_alter_keep.
    + intros [= <-]. split; [|done]. intros j y Hy. by exists y.
  - unfold bread_rest, bind, load. by rewrite Hx.
Qed.

Lemma brelse_keeps s p b s' :
  after (brelse p b s) = Some s' →
  (∀ j, contents <$> bufs s' !! j = contents <$> bufs s !! j) ∧
  (∀ j, j ≠ b → lock <$> bufs s' !! j = lock <$> bufs s !! j) ∧
  lock <$> bufs s !! b = Some (Some p).
Proof.
  destruct (bufs s !! b) as [x|] eqn:Hx.
  2: { unfold brelse, bind, load. by rewrite Hx. }
  destruct (decide (lock x = Some p)) as [Hl|Hl].
  2: { by rewrite (proj2 (lock_contract _ _ _ _ Hx Hl)). }
  destruct (decide (refcnt x = 1)) as [Hr|Hr].
  - destruct (heads s !! bucket_of (blockno x)) as [h|] eqn:Hh.
    2: { rewrite (brelse_last_wild _ _ _ _ Hx Hl Hr); [done|auto]. }
    destruct (ptr_in_pool (bufs s) (prev x)) as [Hp|Hp].
    2: { rewrite (brelse_last_wild _ _ _ _ Hx Hl Hr); [done|auto]. }
    destruct (ptr_in_pool (bufs s) (next x)) as [Hn|Hn].
    2: { rewrite (brelse_last_wild _ _ _ _ Hx Hl Hr); [done|auto]. }
    rewrite (brelse_last _ _ _ _ _ Hx Hl Hr Hh Hp Hn). simpl.
    intros [= <-]. simpl. split; [|split; [|by rewrite Hl]].
    + intros j. rewrite lookup_alter_keep by done.
      do 2 rewrite lookup_alter_at_keep by done. by apply lookup_alter_keep.
    + intros j Hj. rewrite lookup_alter_keep by done.
      do 2 rewrite lookup_alter_at_keep by done.
      by rewrite list_lookup_alter_ne.
  - rewrite (brelse_shared _ _ _ _ Hx Hl Hr). simpl.
    intros [= <-]. simpl. split; [|split; [|by rewrite Hl]].
    + intros j. by apply lookup_alter_keep.
    + intros j Hj. by rewrite list_lookup_alter_ne.
Qed.

Lemma bpin_keeps s b s' :
  after (bpin b s) = Some s' →
  (∀ j, contents <$> bufs s' !! j = contents <$> bufs s !! j) ∧
  (∀ j, lock <$> bufs s' !! j = lock <$> bufs s !! j).
Proof.
  destruct (bufs s !! b) as [x|] eqn:Hx.
  2: { unfold bpin, bind, load. by rewrite Hx. }
  rewrite (bpin_eq _ _ _ Hx). simpl. intros [= <-]. simpl.
  split; intros j; by apply lookup_alter_keep.
Qed.

Lemma bunpin_keeps s b s' :
  after (bunpin b s) = Some s' →
  (∀ j, contents <$> bufs s' !! j = contents <$> bufs s !! j) ∧
  (∀ j, lock <$> bufs s' !! j = lock <$> bufs s !! j).
Proof.
  destruct (bufs s !! b) as [x|] eqn:Hx.
  2: { unfold bunpin, bind, load. by rewrite Hx. }
  rewrite (bunpin_eq _ _ _ Hx). simpl. intros [= <-]. simpl.
  split; intros j; by apply lookup_alter_keep.
Qed.

Lemma contents_stable (bs' : list buf) j x :
  contents <$> bs' !! j = Some (contents x) →
  ∃ x', bs' !! j = Some x' ∧ dev x' = dev x ∧ blockno x' = blockno x ∧
        (valid x ≠ 0 → valid x' = valid x ∧ data x' = data x).
Proof.
  intros (x' & Hx' & [= Hd Hb Hv Hdt])%fmap_Some. exists x'. by rewrite Hx'.
Qed.

(** * The claims *)

(** C1.  The invariant fails on the code: after [bread], [bpin], [brelse]
    and [bunpin] of one buffer its reference count is 0 and it is still on
    the list of its bucket.  The next miss on that bucket recycles the
    buffer where it is and links it to itself, and a later miss on the
    bucket walks the list for ever. *)
Theorem C1_unpin_to_zero_stays_attached :
  (∃ s x, run pin_release_unpin (binit 2 ∅) = Some s ∧
          bufs s !! 0%nat = Some x ∧ refcnt x = 0 ∧
          attached s 5 0 ∧ ¬ detached s 0) ∧
  (∃ s x, run recycle_attached (binit 2 ∅) = Some s ∧
          bufs s !! 0%nat = Some x ∧ next x = Some 0%nat ∧
          bread 2 1 31 s = Hang).
Proof.
  split.
  - eexists _, _. split; [vm_compute; reflexivity|].
    split; [reflexivity|]. split; [reflexivity|].
    assert (∀ s, attached s 5 0 → attached s 5 0 ∧ ¬ detached s 0) as H.
    { intros s Ha. split; [done|]. intros Hd. by apply (Hd 5%nat). }
    apply H. unfold attached. vm_compute. left.
  - eexists _, _. split; [vm_compute; reflexivity|].
    split; [reflexivity|]. split; [reflexivity|].
    vm_compute. reflexivity.
Qed.

(** C2, counterexample.  After one [bunpin] too many, buffer 0 is on its
    list with reference count [2^32 - 1]; the hit of [bget] takes the count
    to 0, not to one more, so that the count is 0 while the buffer has a
    holder. *)
Lemma C2_hit_at_uint_max_wraps :
  ∃ s x s' x',
    run unpin_twice (binit 2 ∅) = Some s ∧
    hit s 1 5 0 ∧ bufs s !! 0%nat = Some x ∧ refcnt x = 4294967295 ∧
    bget 2 1 5 s = Ret 0%nat s' ∧
    bufs s' !! 0%nat = Some x' ∧ refcnt x' = 0 ∧
    refcnt x' ≠ refcnt x + 1 ∧
    holders (unpin_twice ++ [Get 2 1 5]) (binit 2 ∅) 0 = 1 ∧
    pins (unpin_twice ++ [Get 2 1 5]) (binit 2 ∅) 0 = -1.
Proof.
  eexists _, _, _, _. split; [vm_compute; reflexivity|].
  split.
  { unfold hit, attached, has_id, idmatch. repeat split.
    - vm_compute. left.
    - eexists. split; [reflexivity|]. split; reflexivity.
    - intros b' Hb' _. vm_compute in Hb'.
      by apply list_elem_of_singleton in Hb'. }
  split; [reflexivity|]. split; [reflexivity|].
  split; [vm_compute; reflexivity|].
  split; [reflexivity|]. split; [reflexivity|].
  split; [done|]. split; vm_compute; reflexivity.
Qed.

(** C2, as amended.  A [bget] of an identity whose buffer is on its
    bucket's list picks that buffer: it returns it when the sleep-lock is
    free and sleeps on that lock otherwise.  Of the whole state only the
    buffer's reference count (one more, modulo [2^32]: one more exactly
    unless it was [2^32 - 1]) and its sleep-lock change: [dev], [blockno],
    [valid] and [data] stay, and no disk transfer is made.  Along any run
    from [binit] the reference count of a buffer is, modulo [2^32], the
    holders plus the pins outstanding on it. *)
Theorem C2_get_hit_shares_buffer :
  (∀ s p dv bn b x,
     hit s dv bn b → bufs s !! b = Some x →
     ∃ s',
       (bget p dv bn s = Ret b s' ∧ lock x = None ∨
        bget p dv bn s = Sleep b s' ∧ lock x ≠ None) ∧
       bufs s' =
         alter (set_lock (if lock x is None then Some p else lock x) ∘
                set_refcnt (uint_wrap (refcnt x + 1))) b (bufs s) ∧
       heads s' = heads s ∧ disk s' = disk s ∧
       transfers (log s') = transfers (log s) ∧
       (0 ≤ refcnt x < UINT_MAX → uint_wrap (refcnt x + 1) = refcnt x + 1)) ∧
  (∀ N d acts s b x,
     run acts (binit N d) = Some s → bufs s !! b = Some x →
     refcnt x =
       uint_wrap (holders acts (binit N d) b + pins acts (binit N d) b)).
Proof.
  split.
  - intros s p dv bn b x Hh Hx.
    destruct (bget_hit_result s p dv bn b x Hh Hx) as (s' & H1 & H2 & H3 & H4 & H5).
    exists s'. repeat split; try done.
    intros Hr. unfold uint_wrap. apply Z.mod_small.
    unfold UINT_MAX in Hr. lia.
  - intros N d acts s b x Hrun Hx.
    pose proof (run_count acts _ s b (binit_typed N d) Hrun) as Hc.
    unfold count at 1 in Hc. rewrite Hx in Hc. simpl in Hc.
    unfold count in Hc.
    destruct (bufs (binit N d) !! b) as [x0|] eqn:Hx0; [|done].
    simpl in Hx0. apply lookup_replicate in Hx0 as [-> _].
    simpl in Hc. by injection Hc.
Qed.

(** C2, on the example: a hit on the cached buffer 0 takes its count from 1
    to 2, and the books of the run that cached it add up to its count. *)
Lemma C2_get_hit_shares_buffer_witness :
  hit ex_cached 1 5 0 ∧
  run read_pin_release (binit 2 ∅) = Some ex_cached ∧
  (∃ s', bget 2 1 5 ex_cached = Ret 0%nat s' ∧
         refcnt <$> bufs s' !! 0%nat = Some 2) ∧
  uint_wrap (holders read_pin_release (binit 2 ∅) 0 +
             pins read_pin_release (binit 2 ∅) 0) = 1.
Proof.
  destruct C2_get_hit_shares_buffer as [H1 H2].
  split; [apply ex_cached_hit|]. split; [vm_compute; reflexivity|]. split.
  - destruct (H1 ex_cached 2%nat 1 5 0%nat _ ex_cached_hit eq_refl)
      as (s' & [[Hg _]|[_ Hl]] & Hb & _); [|done].
    exists s'. split; [done|]. rewrite Hb. reflexivity.
  - symmetry. apply (H2 2%nat ∅ read_pin_release ex_cached 0%nat
                       (Buf 1 1 5 None 1 None None [])); reflexivity.
Defined.

(** C3. On a miss [bget] takes the first buffer of the pool, in index
    order, whose reference count is 0: it returns it when its sleep-lock is
    free and sleeps on that lock otherwise.  The buffer gets reference
    count 1, the identity asked for and [valid = 0], and becomes the head
    of the list of bucket [blockno % NBUCKET]; no disk transfer is made.
    Whatever buffer a miss picks had reference count 0, and every buffer
    before it in the pool had not. *)
Theorem C3_get_miss_recycles_first_free :
  (∀ s p dv bn b x,
     miss s dv bn → bufs s !! b = Some x → refcnt x = 0 →
     (∀ j y, (j < b)%nat → bufs s !! j = Some y → refcnt y ≠ 0) →
     ∃ s' h x',
       heads s !! bucket_of bn = Some h ∧
       (bget p dv bn s = Ret b s' ∧ lock x = None ∨
        bget p dv bn s = Sleep b s' ∧ lock x ≠ None) ∧
       bufs s' =
         alter (set_lock (if lock x is None then Some p else lock x)) b
           (alter_at (set_prev (Some b)) h
              (alter (fresh dv bn h) b (bufs s))) ∧
       heads s' = <[bucket_of bn := Some b]> (heads s) ∧
       disk s' = disk s ∧
       transfers (log s') = transfers (log s) ∧
       bufs s' !! b = Some x' ∧
       refcnt x' = 1 ∧ dev x' = dv ∧ blockno x' = bn ∧ valid x' = 0 ∧
       attached s' (bucket_of bn) b) ∧
  (∀ s p dv bn b s',
     miss s dv bn →
     bget p dv bn s = Ret b s' ∨ bget p dv bn s = Sleep b s' →
     ∃ x, bufs s !! b = Some x ∧ refcnt x = 0 ∧
          ∀ j y, (j < b)%nat → bufs s !! j = Some y → refcnt y ≠ 0).
Proof.
  split.
  - intros s p dv bn b x Hm Hx Hr Hlow.
    assert (first_free (bufs s) 0 = Some b) as Hff.
    { apply first_free_first. eauto. }
    destruct (bget_miss_result s p dv bn b x Hm Hx Hff)
      as (s' & h & Hh & Hg & Hb & Hhd & Hd & Ht).
    assert ((λ y, (refcnt y, dev y, blockno y, valid y)) <$> bufs s' !! b
            = Some (1, dv, bn, 0)) as Hf.
    { rewrite Hb. rewrite lookup_alter_keep by done.
      rewrite lookup_alter_at_keep by done.
      by rewrite list_lookup_alter_eq, Hx. }
    apply fmap_Some in Hf as (x' & Hx' & Hf). injection Hf as ? ? ? ?.
    exists s', h, x'. repeat split; try done.
    unfold attached, bucket_list. rewrite Hhd.
    rewrite list_lookup_insert_eq by (by eapply lookup_lt_Some).
    simpl. apply visited_first; [by rewrite Hx'|].
    apply lookup_lt_Some in Hx'. lia.
  - intros s p dv bn b s' Hm Hg.
    pose proof Hm as (h & Hh & Hf)%miss_find.
    pose proof (bget_cases s p dv bn) as Hc. rewrite Hh, Hf in Hc.
    destruct (first_free (bufs s) 0) as [b'|] eqn:Hff.
    + destruct Hc as (x & Hx & Hr & Hc).
      assert (b = b') as ->.
      { rewrite Hc in Hg. set (S := State _ _ _ _) in *.
        destruct Hg as [Hg|Hg];
          (destruct (bget_wake_count S p b' s') as [_ [E|E]];
            [by rewrite Hg|congruence..]). }
      apply first_free_first in Hff as (x' & Hx' & Hr' & Hlow). eauto.
    + destruct Hg as [Hg|Hg]; congruence.
Qed.

(** C3, on the example: the first [bget] on a fresh pool is a miss and
    takes buffer 0. *)
Lemma C3_get_miss_recycles_first_free_witness :
  miss (binit 2 ∅) 1 5 ∧
  ∃ s', bget 1 1 5 (binit 2 ∅) = Ret 0%nat s' ∧ attached s' 5 0 ∧
        ∃ x, bufs (binit 2 ∅) !! 0%nat = Some x ∧ refcnt x = 0.
Proof.
  destruct C3_get_miss_recycles_first_free as [H1 H2].
  split; [apply binit_miss|].
  destruct (H1 (binit 2 ∅) 1%nat 1 5 0%nat buf0 binit_miss eq_refl eq_refl)
    as (s' & h & x' & _ & [[Hg _]|[_ Hl]] & _ & _ & _ & _ & _ & _ & _ & _ & _
        & Ha); [intros; lia| |done].
  exists s'. split; [done|]. split; [done|].
  destruct (H2 (binit 2 ∅) 1%nat 1 5 0%nat s' binit_miss (or_introl Hg))
    as (x & Hx & Hr & _).
  eauto.
Defined.

(** C4. [bget], and so [bread], panics exactly when the request is a miss
    and no buffer of the pool has reference count 0.  The panic is raised
    on the spot, after one look at the list and one scan of the pool, and
    the state at the panic has the pool, the bucket heads and the disk of
    the state of the call.  With a pool of [N] buffers, after [bget] of [N]
    distinct identities, none released, each buffer holds one of them, and
    [bget] of one more identity panics. *)
Theorem C4_exhaustion_is_fatal :
  (∀ s p dv bn,
     ((∃ m s', bget p dv bn s = Panic m s') ↔
      miss s dv bn ∧ ∀ x, x ∈ bufs s → refcnt x ≠ 0) ∧
     ((∃ m s', bread p dv bn s = Panic m s') ↔
      miss s dv bn ∧ ∀ x, x ∈ bufs s → refcnt x ≠ 0) ∧
     (miss s dv bn → (∀ x, x ∈ bufs s → refcnt x ≠ 0) →
      ∃ s', bget p dv bn s = Panic "bget: no buffers" s' ∧
            bread p dv bn s = Panic "bget: no buffers" s' ∧
            bufs s' = bufs s ∧ heads s' = heads s ∧ disk s' = disk s ∧
            log s' = log s ++ [EAcquire (BucketLock (bucket_of bn));
                               EAcquire PoolLock])) ∧
  (∀ N d p ids id,
     NoDup (ids ++ [id]) → length ids = N →
     ∃ s s',
       run (gets p ids) (binit N d) = Some s ∧
       length (bufs s) = N ∧
       (∀ b id', ids !! b = Some id' →
          ∃ x, bufs s !! b = Some x ∧ dev x = id'.1 ∧ blockno x = id'.2 ∧
               refcnt x = 1 ∧ lock x = Some p) ∧
       bget p id.1 id.2 s = Panic "bget: no buffers" s' ∧
       bufs s' = bufs s ∧ heads s' = heads s).
Proof.
  split.
  - intros s p dv bn. split; [apply bget_panic_iff|]. split.
    + rewrite <- bget_panic_iff with (p := p).
      split; intros (m & s' & H); exists m, s'; by apply bread_panic_iff.
    + intros Hm Hn. apply first_free_none with (i := 0%nat) in Hn.
      eexists. split; [by apply bget_exhausted|].
      split; [apply bread_panic_iff; by apply bget_exhausted|done].
  - intros N d p ids id Hnd Hlen.
    apply NoDup_app in Hnd as (Hnd & Hd & _).
    destruct (all_held_run ids N d p Hnd) as (s & Hrun & Hall & HN); [lia|].
    assert (id ∉ ids) as Hid by (intros Hi; apply (Hd _ Hi); left).
    pose proof (all_held_miss _ _ _ _ Hall Hid) as Hm.
    pose proof (all_held_first_free _ _ _ Hall) as Hff.
    rewrite decide_False in Hff by lia.
    eexists s, _. split; [done|]. split; [done|]. split.
    + by destruct Hall as (L & _ & Hid' & _).
    + split; [by apply bget_exhausted|done].
Qed.

(** C4, on the examples: a full pool of one, and a pool of two filled by
    two [bget]. *)
Lemma C4_exhaustion_is_fatal_witness :
  (miss ex_full 1 2 ∧ (∀ x, x ∈ bufs ex_full → refcnt x ≠ 0) ∧
   ∃ s', bread 1 1 2 ex_full = Panic "bget: no buffers" s') ∧
  (NoDup ([(1, 1); (1, 2)] ++ [(1, 3)]) ∧
   ∃ s s', run (gets 1 [(1, 1); (1, 2)]) (binit 2 ∅) = Some s ∧
           bget 1 1 3 s = Panic "bget: no buffers" s').
Proof.
  destruct C4_exhaustion_is_fatal as [H1 H2].
  assert (∀ x, x ∈ bufs ex_full → refcnt x ≠ 0) as Hfull.
  { intros x ->%list_elem_of_singleton. done. }
  assert (NoDup ([(1, 1); (1, 2)] ++ [(1, 3)])) as Hnd.
  { apply (bool_decide_unpack _). vm_compute. exact I. }
  split.
  - split; [apply ex_full_miss|]. split; [done|].
    destruct (H1 ex_full 1%nat 1 2) as (_ & _ & H3).
    destruct (H3 ex_full_miss Hfull) as (s' & _ & Hb & _). eauto.
  - split; [done|].
    destruct (H2 2%nat ∅ 1%nat [(1, 1); (1, 2)] (1, 3) Hnd eq_refl)
      as (s & s' & Hrun & _ & _ & Hp & _).
    eauto.
Defined.

(** C5, counterexample.  Block (1, 5) is read into buffer 1, which sets
    [valid], and both buffers are released.  Buffer 1 is then never
    recycled (it is the same before and after), yet the next [bread] of
    (1, 5) makes a disk transfer, into buffer 0. *)
Lemma C5_reread_after_release_transfers :
  ∃ s s' x,
    run read_release_twice (binit 2 ∅) = Some s ∧
    bufs s !! 1%nat = Some x ∧ dev x = 1 ∧ blockno x = 5 ∧ valid x = 1 ∧
    bread 1 1 5 s = Ret 0%nat s' ∧
    bufs s' !! 1%nat = Some x ∧
    transfers (log s') = transfers (log s) ++ [(0%nat, false)].
Proof.
  eexists _, _, _. split; [vm_compute; reflexivity|].
  do 4 (split; [reflexivity|]).
  split; [vm_compute; reflexivity|]. split; reflexivity.
Qed.

(** C5, as amended.  [bread] calls [bget]; when the buffer [bget] returned
    is not valid it makes one disk transfer in read mode, which fills
    [data], and sets [valid]; when the buffer is valid it makes no
    transfer and returns what [bget] returned.  So a [bread] of a block
    whose buffer is on its bucket's list and valid makes no transfer. *)
Theorem C5_read_transfers_once s p dv bn b :
  (∀ s1 x, bget p dv bn s = Ret b s1 → bufs s1 !! b = Some x →
     bread p dv bn s =
       if valid x =? 0
       then Ret b (State
              (alter (set_valid 1 ∘
                      set_data (default [] (disk s1 !! (dev x, blockno x))))
                 b (bufs s1))
              (heads s1) (disk s1) (log s1 ++ [EDisk b false]))
       else Ret b s1) ∧
  (∀ x, hit s dv bn b → bufs s !! b = Some x → valid x ≠ 0 →
     ∃ s', (bread p dv bn s = Ret b s' ∨ bread p dv bn s = Sleep b s') ∧
           transfers (log s') = transfers (log s)).
Proof.
  split.
  - intros s1 x Hg Hx. rewrite bread_eq. unfold bind. rewrite Hg.
    by apply bread_rest_eq.
  - intros x Hh Hx Hv.
    destruct (bget_hit_result s p dv bn b x Hh Hx)
      as (s' & [[Hg Hl]|[Hg Hl]] & Hb & _ & _ & Ht).
    + exists s'. split; [|done]. left.
      rewrite bread_eq. unfold bind. rewrite Hg.
      erewrite bread_rest_eq;
        [|rewrite Hb, list_lookup_alter_eq, Hx; reflexivity].
      simpl. by destruct (Z.eqb_spec (valid x) 0).
    + exists s'. split; [|done]. right.
      rewrite bread_eq. unfold bind. by rewrite Hg.
Qed.

(** C5, on the example: [bread] of the cached, valid block makes no
    transfer and returns what [bget] returns. *)
Lemma C5_read_transfers_once_witness :
  hit ex_cached 1 5 0 ∧
  (∃ s', (bread 2 1 5 ex_cached = Ret 0%nat s' ∨
          bread 2 1 5 ex_cached = Sleep 0 s') ∧
         transfers (log s') = transfers (log ex_cached)) ∧
  (∃ s1, bget 2 1 5 ex_cached = Ret 0%nat s1 ∧
         bread 2 1 5 ex_cached = Ret 0%nat s1).
Proof.
  destruct (C5_read_transfers_once ex_cached 2%nat 1 5 0%nat) as [H1 H2].
  split; [apply ex_cached_hit|]. split.
  - by apply (H2 (Buf 1 1 5 None 1 None None []) ex_cached_hit eq_refl).
  - assert (bget 2 1 5 ex_cached =
      Ret 0%nat
        (State [Buf 1 1 5 (Some 2%nat) 2 None None []; buf0]
               (heads ex_cached) ∅
               (log ex_cached ++
                [EAcquire (BucketLock 5); ERefcnt 0 2;
                 ERelease (BucketLock 5); EAcquireSleep 0 2]))) as Hg.
    { vm_compute. reflexivity. }
    eexists. split; [exact Hg|]. by rewrite (H1 _ _ Hg eq_refl).
Defined.

(** C6. [brelse] by the holder of the sleep-lock returns; it first releases
    the sleep-lock and then, between taking and dropping the spin-lock of
    the buffer's bucket, stores the new reference count.  When the count
    was above 1 it goes down by one and no list changes, so the buffer
    stays on the list it was on.  When the count was 1 and the buffer is on
    the list of its bucket, the lists being well formed, the count becomes
    0, the buffer is on no list any more, the lists stay well formed, and
    the scan of [bget] can take the buffer. *)
Theorem C6_release_decrements_or_detaches :
  (∀ s p b x,
     bufs s !! b = Some x → lock x = Some p → 1 < refcnt x < UINT_MOD →
     ∃ s',
       brelse p b s = Ret tt s' ∧
       bufs s' = alter (set_refcnt (refcnt x - 1) ∘ set_lock None) b (bufs s) ∧
       heads s' = heads s ∧
       log s' = log s ++ [EReleaseSleep b;
                          EAcquire (BucketLock (bucket_of (blockno x)));
                          ERefcnt b (refcnt x - 1);
                          ERelease (BucketLock (bucket_of (blockno x)))] ∧
       (∀ k, bucket_list s' k = bucket_list s k) ∧
       (∀ k, attached s k b → attached s' k b)) ∧
  (∀ s L p b x l,
     wf s L → bufs s !! b = Some x → lock x = Some p → refcnt x = 1 →
     L !! bucket_of (blockno x) = Some l → b ∈ l →
     ∃ s' L',
       brelse p b s = Ret tt s' ∧
       log s' = log s ++ [EReleaseSleep b;
                          EAcquire (BucketLock (bucket_of (blockno x)));
                          ERefcnt b 0;
                          ERelease (BucketLock (bucket_of (blockno x)))] ∧
       refcnt <$> bufs s' !! b = Some 0 ∧
       lock <$> bufs s' !! b = Some None ∧
       detached s' b ∧ wf s' L' ∧
       ∃ j, first_free (bufs s') 0 = Some j ∧ (j ≤ b)%nat).
Proof.
  split.
  - intros s p b x Hx Hl Hr.
    assert (uint_wrap (refcnt x - 1) = refcnt x - 1) as Hw.
    { unfold uint_wrap. apply Z.mod_small. lia. }
    eexists. split; [apply brelse_shared; [done..|lia]|]. simpl.
    rewrite Hw. split; [done|]. split; [done|]. split; [done|].
    assert (∀ k, bucket_list
      (State (alter (set_refcnt (refcnt x - 1) ∘ set_lock None) b (bufs s))
             (heads s) (disk s)
             (log s ++ [EReleaseSleep b;
                EAcquire (BucketLock (bucket_of (blockno x)));
                ERefcnt b (refcnt x - 1);
                ERelease (BucketLock (bucket_of (blockno x)))])) k
      = bucket_list s k) as Hk.
    { intros k. apply bucket_list_keep; [done|]. intros i. simpl.
      by apply links_alter_keep. }
    split; [done|]. intros k. unfold attached. by rewrite Hk.
  - intros s L p b x l Hwf Hx Hl Hr Hk Hb.
    destruct (wf_links _ _ _ _ _ _ Hwf Hk Hb Hx)
      as (h & l1 & l2 & Hh & -> & Hlk & Hp & Hn).
    pose proof (wf_unlink _ _ _ _ _ _ _ _ _ (set_refcnt 0) (set_lock None)
      (disk s) (log s ++ [EReleaseSleep b;
         EAcquire (BucketLock (bucket_of (blockno x))); ERefcnt b 0;
         ERelease (BucketLock (bucket_of (blockno x)))])
      Hwf Hh Hk Hlk (λ _, conj eq_refl eq_refl) (λ _, conj eq_refl eq_refl))
      as Hwf'.
    eexists _, _. split; [by eapply brelse_last|]. simpl.
    split; [done|].
    assert (refcnt <$> alter (set_refcnt 0) b
      (alter_at (set_prev (prev x)) (next x)
         (alter_at (set_next (next x)) (prev x)
            (alter (set_lock None) b (bufs s)))) !! b = Some 0) as Hc.
    { rewrite (field_alter_set refcnt _ _ _ _ 0) by done.
      rewrite decide_True by done.
      rewrite !lookup_alter_at_keep, lookup_alter_keep by done.
      by rewrite Hx. }
    split; [done|]. split; [|split; [|split; [exact Hwf'|]]].
    + rewrite lookup_alter_keep, !lookup_alter_at_keep by done.
      rewrite (field_alter_set lock _ _ _ _ None) by done.
      rewrite decide_True by done. by rewrite Hx.
    + apply (wf_detached _ _ _ Hwf'). intros k' l' Hk' Hb'.
      destruct Hwf as (_ & _ & H3 & H4). destruct (H3 _ _ _ Hh Hk) as [_ Hnd].
      apply lookup_insert_list in Hk' as [(-> & -> & _)|[Hne Hk']].
      * by destruct (NoDup_remove_mid _ _ _ Hnd).
      * apply Hne. eapply H4; [done..|].
        rewrite elem_of_app, elem_of_cons. auto.
    + apply fmap_Some in Hc as (x' & Hx' & Hr').
      destruct (first_free_below _ 0 _ _ Hx') as (j & Hj & Hle); eauto.
Qed.

(** C6, on the examples: [brelse] of a buffer with count 2, and of one with
    count 1. *)
Lemma C6_release_decrements_or_detaches_witness :
  (∃ s', brelse 1 0 ex_pinned = Ret tt s' ∧
         refcnt <$> bufs s' !! 0%nat = Some 1 ∧ attached s' 5 0) ∧
  wf ex_held ex_lists ∧
  (∃ s', brelse 1 0 ex_held = Ret tt s' ∧ detached s' 0 ∧
         refcnt <$> bufs s' !! 0%nat = Some 0).
Proof.
  destruct C6_release_decrements_or_detaches as [H1 H2]. split; [|split].
  - destruct (H1 ex_pinned 1%nat 0%nat
                (Buf 1 1 5 (Some 1%nat) 2 None None []) eq_refl eq_refl)
      as (s' & Hr & Hb & _ & _ & _ & Ha); [done|].
    exists s'. split; [done|]. split; [rewrite Hb; reflexivity|].
    apply Ha. unfold attached. vm_compute. left.
  - apply ex_held_wf.
  - destruct (H2 ex_held ex_lists 1%nat 0%nat
                (Buf 1 1 5 (Some 1%nat) 1 None None []) [0%nat]
                ex_held_wf eq_refl eq_refl eq_refl eq_refl)
      as (s' & L' & Hr & _ & Hc & _ & Hd & _); [left|].
    exists s'. by repeat split.
Defined.

(** C7. [bwrite] and [brelse] called by a context that does not hold the
    buffer's sleep-lock panic at once.  The state at the panic is the state
    of the call: nothing was stored, so no reference count, valid flag or
    link changed, and the log is the same, so no disk transfer was made. *)
Theorem C7_lock_contract_fail_fast s p b x :
  bufs s !! b = Some x → lock x ≠ Some p →
  bwrite p b s = Panic "bwrite" s ∧ brelse p b s = Panic "brelse" s.
Proof. apply lock_contract. Qed.

(** C7, on the example: nobody holds the sleep-lock of a fresh buffer. *)
Lemma C7_lock_contract_fail_fast_witness :
  bufs (binit 2 ∅) !! 0%nat = Some buf0 ∧ lock buf0 ≠ Some 1%nat ∧
  bwrite 1 0 (binit 2 ∅) = Panic "bwrite" (binit 2 ∅) ∧
  brelse 1 0 (binit 2 ∅) = Panic "brelse" (binit 2 ∅).
Proof.
  split; [reflexivity|]. split; [discriminate|].
  apply (C7_lock_contract_fail_fast (binit 2 ∅) 1%nat 0%nat buf0);
    [reflexivity|discriminate].
Defined.

(** C8. [bwrite] by the holder of the sleep-lock makes one disk transfer in
    write mode, whatever the valid flag is, and changes neither the pool
    (so neither [valid], [refcnt], [dev], [blockno] nor the links of any
    buffer) nor the bucket heads. *)
Theorem C8_write_unconditional s p b x :
  bufs s !! b = Some x → lock x = Some p →
  ∃ s', bwrite p b s = Ret tt s' ∧
        bufs s' = bufs s ∧ heads s' = heads s ∧
        disk s' = <[(dev x, blockno x) := data x]> (disk s) ∧
        log s' = log s ++ [EDisk b true] ∧
        transfers (log s') = transfers (log s) ++ [(b, true)].
Proof.
  intros Hx Hl. eexists. split; [by eapply bwrite_eq|]. simpl.
  repeat split. by rewrite transfers_app.
Qed.

(** C8, on the example: [bwrite] of a valid buffer makes the transfer. *)
Lemma C8_write_unconditional_witness :
  valid <$> bufs ex_held !! 0%nat = Some 1 ∧
  lock <$> bufs ex_held !! 0%nat = Some (Some 1%nat) ∧
  ∃ s', bwrite 1 0 ex_held = Ret tt s' ∧
        transfers (log s') = transfers (log ex_held) ++ [(0%nat, true)].
Proof.
  split; [reflexivity|]. split; [reflexivity|].
  destruct (C8_write_unconditional ex_held 1%nat 0%nat
              (Buf 1 1 5 (Some 1%nat) 1 None None []) eq_refl eq_refl)
    as (s' & Hw & _ & _ & _ & _ & Ht).
  eauto.
Defined.

(** C9.  The claim fails on the code: after a [brelse] that leaves buffer 0
    cached (reference count 1) the head of its bucket's list is still
    buffer 1, and buffer 0 is still second. *)
Theorem C9_release_keeps_list_order :
  ∃ s x, run two_on_a_list (binit 2 ∅) = Some s ∧
         bufs s !! 0%nat = Some x ∧ refcnt x = 1 ∧
         bucket_of (blockno x) = 5%nat ∧
         heads s !! 5%nat = Some (Some 1%nat) ∧
         bucket_list s 5 = [1; 0]%nat.
Proof.
  eexists _, _. split; [vm_compute; reflexivity|].
  repeat split; reflexivity.
Qed.

(** C10, counterexample.  A [bunpin] on reference count 0 wraps the count
    of buffer 0 to [2^32 - 1].  The next [bread] of its block is a hit and
    takes the count back to 0, and the [bget] of another block then takes
    buffer 0 for recycling: its identity becomes (1, 6). *)
Lemma C10_wrapped_buffer_recycled_again :
  ∃ s x s1 x1 s2 s3 x3,
    run pin_release_unpin (binit 2 ∅) = Some s ∧
    bufs s !! 0%nat = Some x ∧ refcnt x = 0 ∧
    bunpin 0 s = Ret tt s1 ∧
    bufs s1 !! 0%nat = Some x1 ∧ refcnt x1 = 4294967295 ∧
    bread 2 1 5 s1 = Ret 0%nat s2 ∧
    miss s2 1 6 ∧ first_free (bufs s2) 0 = Some 0%nat ∧
    bget 3 1 6 s2 = Sleep 0 s3 ∧
    bufs s3 !! 0%nat = Some x3 ∧ dev x3 = 1 ∧ blockno x3 = 6 ∧ valid x3 = 0.
Proof.
  eexists _, _, _, _, _, _, _. split; [vm_compute; reflexivity|].
  split; [reflexivity|]. split; [reflexivity|].
  split; [vm_compute; reflexivity|].
  split; [reflexivity|]. split; [reflexivity|].
  split; [vm_compute; reflexivity|].
  split.
  { apply miss_find. eexists. split; vm_compute; reflexivity. }
  split; [reflexivity|].
  split; [vm_compute; reflexivity|].
  repeat split; reflexivity.
Qed.

(** C10, as amended.  [bunpin] takes one off the reference count without
    looking at it, and never panics: on a count of 0 the counter wraps to
    [2^32 - 1].  [brelse] by the holder of the sleep-lock does the same on
    a count of 0.  A buffer whose count is not 0 is not what the scan of
    [bget] takes, so a wrapped buffer is out of reach of recycling for as
    long as its count stays away from 0. *)
Theorem C10_unpin_wraps_at_zero s b x :
  bufs s !! b = Some x →
  (∃ s', bunpin b s = Ret tt s' ∧
         bufs s' = alter (set_refcnt (uint_wrap (refcnt x - 1))) b (bufs s) ∧
         heads s' = heads s ∧ disk s' = disk s ∧
         log s' = log s ++ [EAcquire (BucketLock (bucket_of (blockno x)));
                            ERefcnt b (uint_wrap (refcnt x - 1));
                            ERelease (BucketLock (bucket_of (blockno x)))]) ∧
  (refcnt x = 0 → uint_wrap (refcnt x - 1) = 2 ^ 32 - 1) ∧
  (∀ p, lock x = Some p → refcnt x = 0 →
     ∃ s', brelse p b s = Ret tt s' ∧
           bufs s' = alter (set_refcnt (2 ^ 32 - 1) ∘ set_lock None) b
                       (bufs s) ∧
           heads s' = heads s) ∧
  (∀ t y, bufs t !! b = Some y → refcnt y ≠ 0 →
          first_free (bufs t) 0 ≠ Some b).
Proof.
  intros Hx. split; [|split; [|split]].
  - eexists. split; [by apply bunpin_eq|done].
  - intros ->. reflexivity.
  - intros p Hl Hr. eexists. split; [apply brelse_shared; [done..|lia]|].
    simpl. by rewrite Hr.
  - intros t y Hy Hr (y' & Hy' & Hr' & _)%first_free_first. congruence.
Qed.

(** C10, on the example: the count of buffer 0 is 0 and its sleep-lock is
    held by context 1. *)
Lemma C10_unpin_wraps_at_zero_witness :
  refcnt <$> bufs ex_unpinned !! 0%nat = Some 0 ∧
  (∃ s', bunpin 0 ex_unpinned = Ret tt s' ∧
         refcnt <$> bufs s' !! 0%nat = Some 4294967295) ∧
  (∃ s', brelse 1 0 ex_unpinned = Ret tt s' ∧
         refcnt <$> bufs s' !! 0%nat = Some 4294967295 ∧
         first_free (bufs s') 0 ≠ Some 0%nat).
Proof.
  destruct (C10_unpin_wraps_at_zero ex_unpinned 0%nat
              (Buf 1 1 5 (Some 1%nat) 0 None None []) eq_refl)
    as ((s1 & Hu & Hb1 & _) & Hw & Hr & Hn).
  split; [reflexivity|]. split.
  - exists s1. split; [done|]. rewrite Hb1. reflexivity.
  - destruct (Hr 1%nat eq_refl eq_refl) as (s2 & Hr2 & Hb2 & _).
    exists s2. split; [done|]. split; [rewrite Hb2; reflexivity|].
    apply (Hn s2 (Buf 1 1 5 None 4294967295 None None []));
      [rewrite Hb2; reflexivity|done].
Defined.

(** * Further properties of the code *)

(** X1.  The invariant of the cache is kept by every call that keeps the
    discipline of the callers, whether the call returns or goes to sleep
    in [acquiresleep]: the lists stay well formed, the buffers with a
    reference are those on the list of their block number, a locked buffer
    has a reference, and no list holds an identity twice. *)
Theorem X1_disciplined_call_keeps_invariant a s s' :
  inv s → disciplined a s → after (exec a s) = Some s' → inv s'.
Proof. apply inv_exec. Qed.

(** X1, on the example: the first [bread] on a fresh pool. *)
Lemma X1_disciplined_call_keeps_invariant_witness :
  inv (binit 2 ∅) ∧ disciplined (Read 1 1 5) (binit 2 ∅) ∧
  after (exec (Read 1 1 5) (binit 2 ∅)) = Some ex_held ∧ inv ex_held.
Proof.
  assert (inv (binit 2 ∅)) as Hi by (eexists; apply inv_binit).
  split; [exact Hi|]. split; [apply binit_disciplined|].
  split; [apply ex_held_after|].
  apply (X1_disciplined_call_keeps_invariant (Read 1 1 5) (binit 2 ∅));
    [exact Hi|apply binit_disciplined|apply ex_held_after].
Defined.

(** X2.  In every state that a run of disciplined calls reaches from
    [binit], every reference count is a [uint], a buffer has reference
    count 0 exactly when it is on no list, a buffer is on no list but the
    one of its block number, a buffer whose sleep-lock is held has a
    reference, a buffer with a reference is the one hit of its identity,
    and no list holds a buffer twice. *)
Theorem X2_reachable_states N d acts s b x :
  disciplined_run acts (binit N d) → run acts (binit N d) = Some s →
  bufs s !! b = Some x →
  0 ≤ refcnt x < UINT_MOD ∧
  (refcnt x = 0 ↔ detached s b) ∧
  (∀ k, attached s k b → k = bucket_of (blockno x)) ∧
  (lock x ≠ None → refcnt x ≠ 0) ∧
  (refcnt x ≠ 0 → hit s (dev x) (blockno x) b) ∧
  ∀ k, NoDup (bucket_list s k).
Proof.
  intros Hd Hrun Hx.
  assert (inv s) as Hinv.
  { apply (inv_run acts (binit N d)); [|done..]. eexists. apply inv_binit. }
  destruct (inv_reads s b x Hinv Hx) as (H1 & H2 & H3 & H4 & H5).
  do 5 (split; [done|]). intros k. by apply inv_nodup.
Qed.

(** X2, on the example: the state after a block was read, pinned and
    released. *)
Lemma X2_reachable_states_witness :
  disciplined_run read_pin_release (binit 2 ∅) ∧
  run read_pin_release (binit 2 ∅) = Some ex_cached ∧
  hit ex_cached 1 5 0 ∧ ¬ detached ex_cached 0.
Proof.
  assert (disciplined_run read_pin_release (binit 2 ∅)) as Hd.
  { unfold read_pin_release. cbn [disciplined_run].
    split; [apply binit_disciplined|]. rewrite ex_held_after.
    split; [exists (Buf 1 1 5 (Some 1%nat) 1 None None []); by vm_compute|].
    assert (after (exec (Pin 0) ex_held) = Some ex_pinned) as ->
      by (vm_compute; reflexivity).
    split; [done|].
    assert (after (exec (Release 1 0) ex_pinned) = Some ex_cached) as ->
      by (vm_compute; reflexivity).
    done. }
  assert (run read_pin_release (binit 2 ∅) = Some ex_cached) as Hrun
    by (vm_compute; reflexivity).
  split; [exact Hd|]. split; [exact Hrun|].
  destruct (X2_reachable_states 2 ∅ read_pin_release ex_cached 0
              (Buf 1 1 5 None 1 None None []) Hd Hrun eq_refl)
    as (_ & Hz & _ & _ & Hh & _).
  split; [by apply Hh|]. intros Hdet. by apply Hz in Hdet.
Defined.

(** X3.  In a state of the invariant no call runs for ever and none
    follows a pointer out of the pool, whatever its arguments, as long as
    the buffer it is handed is one of the pool: the call returns, sleeps in
    [acquiresleep] or panics. *)
Theorem X3_no_hang_no_wild a s :
  inv s → (∀ b, target a = Some b → is_Some (bufs s !! b)) →
  exec a s ≠ Hang ∧ exec a s ≠ Wild.
Proof. apply exec_safe. Qed.

(** X3, on the example: [brelse] of the buffer held after a [bread]. *)
Lemma X3_no_hang_no_wild_witness :
  inv ex_held ∧ is_Some (bufs ex_held !! 0%nat) ∧
  exec (Release 1 0) ex_held ≠ Hang ∧ exec (Release 1 0) ex_held ≠ Wild.
Proof.
  split; [apply ex_held_inv|]. split; [by eexists|].
  apply (X3_no_hang_no_wild (Release 1 0) ex_held); [apply ex_held_inv|].
  intros b [= <-]. by eexists.
Defined.





(** X6.  The sleep-lock serialises the users of a buffer.  When context [p]
    has got a cached buffer, the [bget] of the same block by context [q]
    adds its reference and goes to sleep on the lock; the [brelse] of [p]
    takes one reference away and leaves the buffer on its list for the
    sleeper; and [q], woken up, returns from [bget] with the same buffer,
    now locked by [q].  In the end the buffer has one reference more than
    before the two calls and nothing else changed. *)
Theorem X6_lock_hand_over s p q dv bn b x :
  hit s dv bn b → bufs s !! b = Some x → lock x = None →
  0 ≤ refcnt x → refcnt x + 2 < UINT_MOD →
  ∃ s1 s2 s3 s4,
    bget p dv bn s = Ret b s1 ∧
    bget q dv bn s1 = Sleep b s2 ∧
    brelse p b s2 = Ret tt s3 ∧
    bget_wake q b s3 = Ret b s4 ∧
    bufs s4 = alter (set_lock (Some q) ∘ set_refcnt (refcnt x + 1)) b
                (bufs s) ∧
    heads s4 = heads s ∧ disk s4 = disk s ∧ hit s4 dv bn b.
Proof.
  intros Hh Hx Hl H0 H2.
  assert (uint_wrap (refcnt x + 1) = refcnt x + 1) as W1
    by (apply wrap_small; lia).
  assert (uint_wrap (refcnt x + 1 + 1) = refcnt x + 2) as W2
    by (rewrite wrap_small; lia).
  assert (uint_wrap (refcnt x + 2 - 1) = refcnt x + 1) as W3
    by (rewrite wrap_small; lia).
  destruct (bget_hit_result s p dv bn b x Hh Hx)
    as (s1 & [[Hg1 _]|[_ Hn]] & Hb1 & Hh1 & Hd1 & _); [|done].
  rewrite Hl, W1 in Hb1.
  set (x1 := set_lock (Some p) (set_refcnt (refcnt x + 1) x)).
  assert (bufs s1 !! b = Some x1) as Hx1
    by (by rewrite Hb1, list_lookup_alter_eq, Hx).
  assert (hit s1 dv bn b) as Hhit1 by (by eapply hit_keep).
  destruct (bget_hit_result s1 q dv bn b x1 Hhit1 Hx1)
    as (s2 & [[_ Hl2]|[Hg2 _]] & Hb2 & Hh2 & Hd2 & _); [done|].
  simpl in Hb2. rewrite W2 in Hb2.
  set (x2 := set_lock (Some p) (set_refcnt (refcnt x + 2) x1)).
  assert (bufs s2 !! b = Some x2) as Hx2
    by (by rewrite Hb2, list_lookup_alter_eq, Hx1).
  pose proof (brelse_shared s2 p b x2 Hx2 eq_refl) as Hr3.
  simpl in Hr3. rewrite W3 in Hr3. specialize (Hr3 ltac:(lia)).
  set (s3 := State _ _ _ _) in Hr3.
  set (x3 := set_refcnt (refcnt x + 1) (set_lock None x2)).
  assert (bufs s3 !! b = Some x3) as Hx3
    by (unfold s3; simpl; by rewrite list_lookup_alter_eq, Hx2).
  pose proof (bget_wake_eq s3 q b x3 Hx3) as Hw4. simpl in Hw4.
  assert (alter (set_lock (Some q)) b
            (alter (set_refcnt (refcnt x + 1) ∘ set_lock None) b (bufs s2)) =
          alter (set_lock (Some q) ∘ set_refcnt (refcnt x + 1)) b (bufs s))
    as Hfin.
  { rewrite Hb2, Hb1. rewrite !list_alter_alter_eq.
    apply (alter_ext_at _ _ _ _ x Hx). by destruct x. }
  eexists s1, s2, s3, _. split; [done|]. split; [done|]. split; [done|].
  split; [exact Hw4|]. simpl. split; [exact Hfin|].
  split; [congruence|]. split; [congruence|].
  eapply hit_keep; [..|exact Hh]; simpl; [exact Hfin|congruence|done..].
Qed.

(** X6, on the example: block (1, 5) is cached in buffer 0, whose lock is
    free. *)
Lemma X6_lock_hand_over_witness :
  hit ex_cached 1 5 0 ∧
  ∃ s1 s2 s3 s4,
    bget 2 1 5 ex_cached = Ret 0%nat s1 ∧
    bget 3 1 5 s1 = Sleep 0 s2 ∧
    brelse 2 0 s2 = Ret tt s3 ∧
    bget_wake 3 0 s3 = Ret 0%nat s4 ∧
    bufs s4 !! 0%nat = Some (Buf 1 1 5 (Some 3%nat) 2 None None []).
Proof.
  split; [apply ex_cached_hit|].
  destruct (X6_lock_hand_over ex_cached 2%nat 3%nat 1 5 0%nat
              (Buf 1 1 5 None 1 None None []) ex_cached_hit eq_refl eq_refl)
    as (s1 & s2 & s3 & s4 & H1 & H2 & H3 & H4 & Hb & _); [done|done|].
  exists s1, s2, s3, s4. do 4 (split; [done|]). rewrite Hb. reflexivity.
Defined.

(** X7.  [bunpin] undoes [bpin] and [bpin] undoes [bunpin], for every
    reference count of the [uint] range and so across the wrap-around at
    either end: after the pair the pool, the bucket heads and the disk are
    what they were. *)
Theorem X7_pin_unpin_round_trip s b x :
  bufs s !! b = Some x → 0 ≤ refcnt x < UINT_MOD →
  (∃ s1 s2, bpin b s = Ret tt s1 ∧ bunpin b s1 = Ret tt s2 ∧
            bufs s2 = bufs s ∧ heads s2 = heads s ∧ disk s2 = disk s) ∧
  (∃ s1 s2, bunpin b s = Ret tt s1 ∧ bpin b s1 = Ret tt s2 ∧
            bufs s2 = bufs s ∧ heads s2 = heads s ∧ disk s2 = disk s).
Proof.
  intros Hx Hr. split.
  - pose proof (bpin_eq s b x Hx) as H1. set (s1 := State _ _ _ _) in H1.
    assert (bufs s1 !! b = Some (set_refcnt (uint_wrap (refcnt x + 1)) x))
      as Hx1 by (unfold s1; simpl; by rewrite list_lookup_alter_eq, Hx).
    pose proof (bunpin_eq s1 b _ Hx1) as H2. simpl in H2.
    eexists s1, _. split; [done|]. split; [exact H2|]. simpl.
    split; [|done]. rewrite list_alter_alter_eq.
    apply (alter_same _ _ _ x Hx). simpl. rewrite wrap_up_down by done.
    by destruct x.
  - pose proof (bunpin_eq s b x Hx) as H1. set (s1 := State _ _ _ _) in H1.
    assert (bufs s1 !! b = Some (set_refcnt (uint_wrap (refcnt x - 1)) x))
      as Hx1 by (unfold s1; simpl; by rewrite list_lookup_alter_eq, Hx).
    pose proof (bpin_eq s1 b _ Hx1) as H2. simpl in H2.
    eexists s1, _. split; [done|]. split; [exact H2|]. simpl.
    split; [|done]. rewrite list_alter_alter_eq.
    apply (alter_same _ _ _ x Hx). simpl. rewrite wrap_down_up by done.
    by destruct x.
Qed.

(** X7, on the example: a free buffer, whose count [bunpin] wraps to
    [2^32 - 1] and [bpin] brings back to 0. *)
Lemma X7_pin_unpin_round_trip_witness :
  bufs (binit 2 ∅) !! 0%nat = Some buf0 ∧
  ∃ s1 s2, bunpin 0 (binit 2 ∅) = Ret tt s1 ∧
           refcnt <$> bufs s1 !! 0%nat = Some 4294967295 ∧
           bpin 0 s1 = Ret tt s2 ∧ bufs s2 = bufs (binit 2 ∅).
Proof.
  split; [reflexivity|].
  destruct (X7_pin_unpin_round_trip (binit 2 ∅) 0%nat buf0 eq_refl)
    as [_ (s1 & s2 & H1 & H2 & Hb & _)]; [done|].
  exists s1, s2. split; [done|]. split; [|done].
  assert (bunpin 0 (binit 2 ∅) =
          Ret tt (State [Buf 0 0 0 None 4294967295 None None []; buf0]
                        (heads (binit 2 ∅)) ∅
                        [EAcquire (BucketLock 0); ERefcnt 0 4294967295;
                         ERelease (BucketLock 0)])) as E
    by (vm_compute; reflexivity).
  rewrite E in H1. by injection H1 as <-.
Defined.

(** X8.  In a state of the invariant, a [bget] that misses followed by the
    [brelse] of the buffer it returned leaves the cache as it found it:
    the bucket heads and every bucket's list are the same, every reference
    count is the same, the buffer is again the first free one, the disk is
    the same and no transfer was made.  Both calls return, and the
    invariant holds again. *)
Theorem X8_miss_release_round_trip s p dv bn b :
  inv s → miss s dv bn → first_free (bufs s) 0 = Some b →
  ∃ s1 s2,
    bget p dv bn s = Ret b s1 ∧ brelse p b s1 = Ret tt s2 ∧
    heads s2 = heads s ∧ (∀ k, bucket_list s2 k = bucket_list s k) ∧
    same_counts s s2 ∧ first_free (bufs s2) 0 = Some b ∧
    disk s2 = disk s ∧ transfers (log s2) = transfers (log s) ∧ inv s2.
Proof.
  intros [L Hinv] Hm Hff.
  destruct (inv_bget_miss s L p dv bn b Hinv Hm Hff)
    as (s1 & h & l & x & x1 & Hh & HL & Hx & Hr & Hl & Hg & Hi1 & Hx1 & -> &
        Hh1 & Hc1 & Hd1 & Ht1).
  destruct (inv_brelse_last s1 _ p b _ Hi1 Hx1 eq_refl eq_refl)
    as (s2 & h1 & l1 & l2 & Hh2 & HL2 & Hrel & Hi2 & Hhd2 & Hc2 & Hcb & Hd2 &
        Ht2).
  simpl in *.
  pose proof (lookup_lt_Some _ _ _ Hh) as Hlt.
  pose proof (lookup_lt_Some _ _ _ HL) as HltL.
  rewrite Hh1, list_lookup_insert_eq in Hh2 by done. injection Hh2 as <-.
  rewrite decide_True in Hhd2 by done.
  rewrite list_lookup_insert_eq in HL2 by done. injection HL2 as HL2.
  assert (NoDup (b :: l)) as Hnd.
  { destruct Hi1 as ((_ & _ & Hd & _) & _).
    refine (proj2 (Hd (bucket_of bn) (Some b) (b :: l) _ _)).
    - by rewrite Hh1, list_lookup_insert_eq.
    - by rewrite list_lookup_insert_eq. }
  destruct (head_split_nodup l1 l2 l b Hnd) as [-> ->]; [done|].
  simpl in Hi2. rewrite insert_twice_id in Hi2 by done.
  assert (heads s2 = heads s) as Hheads.
  { rewrite Hhd2, Hh1. by apply insert_twice_id. }
  assert (same_counts s s2) as Hsame.
  { intros j. unfold count. destruct (decide (j = b)) as [->|Hj].
    - apply cores_Some in Hcb as (y & Hy & _ & _ & Hry & _).
      rewrite Hy, Hx. simpl. by rewrite Hr, Hry.
    - apply cores_count. rewrite Hc2 by done. by apply Hc1. }
  exists s1, s2. split; [done|]. split; [done|]. split; [done|].
  split; [intros k; by eapply (inv_bucket_lists s s2 L L)|]. split; [done|].
  split; [by eapply first_free_same_counts|].
  split; [congruence|]. split; [congruence|]. by exists L.
Qed.

(** X8, on the example: a fresh pool. *)
Lemma X8_miss_release_round_trip_witness :
  inv (binit 2 ∅) ∧ miss (binit 2 ∅) 1 5 ∧
  ∃ s1 s2, bget 1 1 5 (binit 2 ∅) = Ret 0%nat s1 ∧
           brelse 1 0 s1 = Ret tt s2 ∧ heads s2 = heads (binit 2 ∅) ∧
           first_free (bufs s2) 0 = Some 0%nat.
Proof.
  assert (inv (binit 2 ∅)) as Hi by (eexists; apply inv_binit).
  split; [exact Hi|]. split; [apply binit_miss|].
  destruct (X8_miss_release_round_trip (binit 2 ∅) 1%nat 1 5 0%nat Hi
              binit_miss eq_refl)
    as (s1 & s2 & H1 & H2 & H3 & _ & _ & H4 & _).
  by exists s1, s2.
Defined.

(** X9.  A buffer that its holder pinned outlives the holder's [brelse]:
    after [bpin] and [brelse] it has the reference count it had, its
    sleep-lock is free, it is still on its list and is the hit of its
    identity, so that the next [bget] of its block finds it; nothing else
    changed. *)
Theorem X9_pinned_buffer_outlives_release s p b x :
  inv s → bufs s !! b = Some x → lock x = Some p → refcnt x < UINT_MAX →
  ∃ s1 s2,
    bpin b s = Ret tt s1 ∧ brelse p b s1 = Ret tt s2 ∧
    bufs s2 = alter (set_lock None) b (bufs s) ∧ heads s2 = heads s ∧
    disk s2 = disk s ∧ hit s2 (dev x) (blockno x) b ∧ inv s2.
Proof.
  intros [L Hinv] Hx Hl Hmax.
  pose proof Hinv as (_ & _ & _ & _ & H4 & _).
  assert (refcnt x ≠ 0) as Hr by (apply (H4 b x Hx); by rewrite Hl).
  pose proof (inv_refcnt _ _ _ _ Hinv Hx) as Hrg.
  assert (uint_wrap (refcnt x + 1) = refcnt x + 1) as W1.
  { apply wrap_small. unfold UINT_MAX in Hmax. lia. }
  assert (uint_wrap (refcnt x + 1 - 1) = refcnt x) as W2.
  { replace (refcnt x + 1 - 1) with (refcnt x) by lia. by apply wrap_small. }
  pose proof (bpin_eq s b x Hx) as H1. rewrite W1 in H1.
  set (s1 := State _ _ _ _) in H1.
  assert (bufs s1 !! b = Some (set_refcnt (refcnt x + 1) x)) as Hx1
    by (unfold s1; simpl; by rewrite list_lookup_alter_eq, Hx).
  pose proof (brelse_shared s1 p b _ Hx1 Hl) as H2. simpl in H2.
  rewrite W2 in H2. specialize (H2 ltac:(lia)).
  assert (alter (set_refcnt (refcnt x) ∘ set_lock None) b
            (alter (set_refcnt (refcnt x + 1)) b (bufs s)) =
          alter (set_lock None) b (bufs s)) as Hfin.
  { rewrite list_alter_alter_eq. apply (alter_ext_at _ _ _ _ x Hx).
    by destruct x. }
  eexists s1, _. split; [done|]. split; [exact H2|]. simpl.
  split; [exact Hfin|]. split; [done|]. split; [done|]. split.
  - eapply hit_keep; [..|by eapply inv_hit]; simpl; [exact Hfin|done..].
  - exists L.
    apply (inv_ext (State (alter (set_lock None) b (bufs s)) (heads s)
                      (disk s) (log s))); [exact Hfin|done|].
    by eapply inv_alter.
Qed.

(** X9, on the example: the buffer pinned after a [bread]. *)
Lemma X9_pinned_buffer_outlives_release_witness :
  inv ex_held ∧
  ∃ s1 s2, bpin 0 ex_held = Ret tt s1 ∧ brelse 1 0 s1 = Ret tt s2 ∧
           hit s2 1 5 0.
Proof.
  split; [apply ex_held_inv|].
  destruct (X9_pinned_buffer_outlives_release ex_held 1%nat 0%nat
              (Buf 1 1 5 (Some 1%nat) 1 None None []) ex_held_inv eq_refl
              eq_refl)
    as (s1 & s2 & H1 & H2 & _ & _ & _ & Hh & _); [done|].
  by exists s1, s2.
Defined.

(** X10.  What [bwrite] wrote is what the next [bread] of the block reads
    back (with the disk transfers as the spec describes them).  The holder
    of the one reference writes the buffer and releases it; the buffer
    leaves its list, so that the block is no longer cached; the next
    [bread] of the block misses, takes a free buffer at or before the old
    one, and fills it from the disk with the data written, setting
    [valid].  The run makes two transfers, the write and the read. *)
Theorem X10_written_block_is_read_back s p q b x :
  inv s → bufs s !! b = Some x → lock x = Some p → refcnt x = 1 →
  ∃ s1 s2 b' s3 x',
    bwrite p b s = Ret tt s1 ∧ brelse p b s1 = Ret tt s2 ∧
    detached s2 b ∧ miss s2 (dev x) (blockno x) ∧
    bread q (dev x) (blockno x) s2 = Ret b' s3 ∧ (b' ≤ b)%nat ∧
    bufs s3 !! b' = Some x' ∧ data x' = data x ∧ valid x' = 1 ∧
    lock x' = Some q ∧
    transfers (log s3) = transfers (log s) ++ [(b, true); (b', false)].
Proof.
  intros [L Hinv] Hx Hl Hr.
  pose proof Hinv as (Hwf & _ & _ & _ & _ & H6).
  pose proof (bwrite_eq s p b x Hx Hl) as H1. set (s1 := State _ _ _ _) in H1.
  assert (inv_at s1 L) as Hi1 by (by apply (inv_ext s)).
  destruct (inv_brelse_last s1 L p b x Hi1 Hx Hl Hr)
    as (s2 & h & l1 & l2 & Hh & HL & Hrel & Hi2 & _ & Hc2 & Hcb & Hd2 & Ht2).
  simpl in Hh, Hc2, Hd2, Ht2.
  set (k := bucket_of (blockno x)) in *.
  pose proof (lookup_lt_Some _ _ _ HL) as HltL.
  assert (NoDup (l1 ++ b :: l2)) as Hnd.
  { destruct Hwf as (_ & _ & Hd & _). exact (proj2 (Hd _ _ _ Hh HL)). }
  destruct (NoDup_remove_mid _ _ _ Hnd) as [_ Hnb].
  pose proof Hi2 as (Hwf2 & _).
  assert (<[k := l1 ++ l2]> L !! k = Some (l1 ++ l2)) as HL2
    by (by apply list_lookup_insert_eq).
  destruct (wf_bucket_list _ _ _ _ Hwf2 HL2) as (Hbl & h2 & Hh2 & Hcl).
  assert (detached s2 b) as Hdet.
  { apply (wf_detached _ _ _ Hwf2). intros k' l' Hk' Hb'.
    apply lookup_insert_list in Hk' as [(-> & -> & _)|[Hne Hk']]; [done|].
    apply Hne. destruct Hwf as (_ & _ & _ & Hdis).
    eapply Hdis; [done..|]. rewrite elem_of_app, elem_of_cons. auto. }
  assert (miss s2 (dev x) (blockno x)) as Hm.
  { split; [by exists h2|]. intros j Ha (y & Hy & Hd & Hb).
    unfold attached in Ha. fold k in Ha. rewrite Hbl in Ha.
    assert (j ≠ b) as Hj by (by intros ->).
    assert (cores (bufs s) j = Some (dev x, blockno x, refcnt y, lock y))
      as Hc.
    { rewrite <- (Hc2 j Hj). apply cores_Some. by exists y. }
    apply cores_Some in Hc as (y0 & Hy0 & Hd0 & Hb0 & _).
    apply Hj. apply (H6 k j b y0 x); try done.
    - exists (l1 ++ b :: l2). split; [done|].
      rewrite elem_of_app, elem_of_cons. rewrite elem_of_app in Ha. tauto.
    - exists (l1 ++ b :: l2). split; [done|].
      rewrite elem_of_app, elem_of_cons. auto. }
  apply cores_Some in Hcb as (y & Hy & _ & _ & Hry & _).
  destruct (first_free_below (bufs s2) 0 b y Hy Hry) as (b' & Hff & Hle).
  destruct (inv_bget_miss s2 _ q _ _ b' Hi2 Hm Hff)
    as (s3 & h' & l' & x0 & x1 & _ & _ & Hx0 & _ & _ & Hg & Hi3 & Hx1 & -> &
        _ & _ & Hd3 & Ht3).
  pose proof (bread_rest_eq s3 b' _ Hx1) as Hrest. simpl in Hrest.
  exists s1, s2, b'. eexists _, _. split; [done|]. split; [done|].
  split; [done|]. split; [done|].
  split; [rewrite bread_eq; unfold bind; rewrite Hg; exact Hrest|].
  split; [lia|]. simpl.
  split; [by rewrite list_lookup_alter_eq, Hx1|]. simpl.
  split; [|split; [done|split; [done|]]].
  - rewrite Hd3, Hd2. unfold s1. simpl. by rewrite lookup_insert_eq.
  - rewrite transfers_app, Ht3, Ht2. unfold s1. simpl.
    rewrite transfers_app. simpl. by rewrite <- app_assoc.
Qed.

(** X10, on the example: the buffer held after a [bread] of block
    (1, 5). *)
Lemma X10_written_block_is_read_back_witness :
  inv ex_held ∧
  ∃ s1 s2 b' s3 x',
    bwrite 1 0 ex_held = Ret tt s1 ∧ brelse 1 0 s1 = Ret tt s2 ∧
    bread 2 1 5 s2 = Ret b' s3 ∧ bufs s3 !! b' = Some x' ∧
    data x' = [] ∧ valid x' = 1.
Proof.
  split; [apply ex_held_inv|].
  destruct (X10_written_block_is_read_back ex_held 1%nat 2%nat 0%nat
              (Buf 1 1 5 (Some 1%nat) 1 None None []) ex_held_inv eq_refl
              eq_refl eq_refl)
    as (s1 & s2 & b' & s3 & x' & H1 & H2 & _ & _ & H3 & _ & H4 & H5 & H6 & _).
  by exists s1, s2, b', s3, x'.
Defined.

(** X11.  What a call leaves alone.  No call changes the size of the pool
    or the number of bucket heads.  [bwrite] changes the disk at the block
    of its buffer and nothing of the pool; no other call changes the disk.
    [bread] makes at most one transfer, a read.  [bget], [brelse], [bpin]
    and [bunpin] make no transfer and change the data of no buffer. *)
Theorem X11_what_a_call_leaves_alone a s s' :
  after (exec a s) = Some s' →
  length (bufs s') = length (bufs s) ∧ length (heads s') = length (heads s) ∧
  match a with
  | Write p b =>
      ∃ x, bufs s !! b = Some x ∧ lock x = Some p ∧ bufs s' = bufs s ∧
           disk s' = <[(dev x, blockno x) := data x]> (disk s)
  | Read _ _ _ | WakeRead _ _ =>
      disk s' = disk s ∧
      (transfers (log s') = transfers (log s) ∨
       ∃ b, transfers (log s') = transfers (log s) ++ [(b, false)])
  | Get _ _ _ | Release _ _ | Pin _ | Unpin _ | WakeGet _ _ =>
      disk s' = disk s ∧ transfers (log s') = transfers (log s) ∧
      ∀ j, data <$> bufs s' !! j = data <$> bufs s !! j
  end.
Proof.
  intros Ha.
  destruct (exec_trace a s s' Ha) as (Hn & Hh & _ & evs & Hl & _ & He).
  split; [done|]. split; [done|].
  destruct a; try (destruct He as [(Hd & _ & _ & Hdt) Ht]; split; [done|];
                   split; [|done]; rewrite Hl, transfers_app, Ht;
                   by rewrite app_nil_r).
  - destruct He as [Hd [Ht|[b Ht]]]; (split; [done|]);
      rewrite Hl, transfers_app, Ht; [left; by rewrite app_nil_r|right; eauto].
  - destruct He as (x & Hx & Hlk & Hb & Hd & _). by exists x.
  - destruct He as [Hd [Ht|[b' Ht]]]; (split; [done|]);
      rewrite Hl, transfers_app, Ht; [left; by rewrite app_nil_r|right; eauto].
Qed.

(** X11, on the example: [brelse] of the buffer held after a [bread]. *)
Lemma X11_what_a_call_leaves_alone_witness :
  ∃ s', after (exec (Release 1 0) ex_held) = Some s' ∧
        disk s' = disk ex_held ∧ length (bufs s') = 2%nat ∧
        transfers (log s') = transfers (log ex_held).
Proof.
  assert (∃ s', after (exec (Release 1 0) ex_held) = Some s') as [s' Ha]
    by (eexists; vm_compute; reflexivity).
  exists s'. split; [exact Ha|].
  destruct (X11_what_a_call_leaves_alone (Release 1 0) ex_held s' Ha)
    as (Hn & _ & Hd & Ht & _).
  done.
Defined.

(** X12.  The discipline of the spin-locks.  The events a call adds to the
    log, when it returns or goes to sleep, keep these rules: a bucket's
    lock is taken with no spin-lock held, and [bcache.lock] only under one
    bucket's lock; a spin-lock is released by the call that took it, the
    latest first; every store to a reference count is made under a
    spin-lock; [acquiresleep], [releasesleep] and the disk driver are
    called with no spin-lock held; and no spin-lock is held when the call
    returns or sleeps. *)
Theorem X12_spin_lock_discipline a s s' :
  after (exec a s) = Some s' → ∃ evs, log s' = log s ++ evs ∧ locks_ok evs.
Proof.
  intros Ha.
  destruct (exec_trace a s s' Ha) as (_ & _ & _ & evs & Hl & Hk & _).
  by exists evs.
Qed.

(** X12, on the example: the events of the first [bread] on a fresh
    pool. *)
Lemma X12_spin_lock_discipline_witness :
  after (exec (Read 1 1 5) (binit 2 ∅)) = Some ex_held ∧
  ∃ evs, log ex_held = log (binit 2 ∅) ++ evs ∧ locks_ok evs ∧
         evs = [EAcquire (BucketLock 5); EAcquire PoolLock; ERefcnt 0 1;
                ERelease PoolLock; ERelease (BucketLock 5);
                EAcquireSleep 0 1; EDisk 0 false].
Proof.
  split; [apply ex_held_after|].
  destruct (X12_spin_lock_discipline (Read 1 1 5) (binit 2 ∅) ex_held
              ex_held_after) as (evs & Hl & Hk).
  exists evs. split; [done|]. split; [done|]. simpl in Hl. by rewrite Hl.
Defined.

(** X13.  Each bucket is on its own.  In a state of the invariant a
    disciplined call changes neither the head nor the list of any bucket
    but the one whose lock it takes to change a list: the bucket of the
    block asked for, in [bget] and [bread], and the bucket of the buffer
    released, in [brelse].  [bwrite], [bpin] and [bunpin] change no
    list. *)
Theorem X13_other_buckets_untouched a s s' k :
  inv s → disciplined a s → after (exec a s) = Some s' →
  touched a s ≠ Some k →
  heads s' !! k = heads s !! k ∧ bucket_list s' k = bucket_list s k.
Proof.
  intros [L Hinv] Hdis Ha Hk.
  destruct (exec_trace a s s' Ha) as (_ & _ & Hh & _).
  split; [by apply Hh|].
  destruct (inv_exec_at a s s' L Hinv Hdis Ha) as (L' & Hi & HL).
  eapply inv_bucket_lists; [done..|]. by apply HL.
Qed.

(** X13, on the example: the first [bread] of block (1, 5) leaves bucket 4
    alone. *)
Lemma X13_other_buckets_untouched_witness :
  inv (binit 2 ∅) ∧ disciplined (Read 1 1 5) (binit 2 ∅) ∧
  after (exec (Read 1 1 5) (binit 2 ∅)) = Some ex_held ∧
  touched (Read 1 1 5) (binit 2 ∅) ≠ Some 4%nat ∧
  bucket_list ex_held 4 = bucket_list (binit 2 ∅) 4.
Proof.
  assert (inv (binit 2 ∅)) as Hi by (eexists; apply inv_binit).
  assert (touched (Read 1 1 5) (binit 2 ∅) ≠ Some 4%nat) as Ht
    by (by vm_compute).
  split; [exact Hi|]. split; [apply binit_disciplined|].
  split; [apply ex_held_after|]. split; [exact Ht|].
  apply (X13_other_buckets_untouched (Read 1 1 5) (binit 2 ∅) ex_held 4 Hi
           (binit_disciplined 1 1 5 2 ∅) ex_held_after Ht).
Defined.

(** X14.  The cache leaves a referenced buffer to its users.  Whatever the
    state, no call changes the identity ([dev] and [blockno]) of a buffer
    whose reference count is not 0, and none changes the valid flag or the
    data of such a buffer once it is valid: only a free buffer is
    recycled, and only a buffer that is not valid is filled from the
    disk. *)
Theorem X14_referenced_buffer_is_stable a s s' j x :
  after (exec a s) = Some s' → bufs s !! j = Some x → refcnt x ≠ 0 →
  ∃ x', bufs s' !! j = Some x' ∧ dev x' = dev x ∧ blockno x' = blockno x ∧
        (valid x ≠ 0 → valid x' = valid x ∧ data x' = data x).
Proof.
  intros Ha Hx Hr.
  assert (∀ t, (∀ i, contents <$> bufs t !! i = contents <$> bufs s !! i) →
    ∃ x', bufs t !! j = Some x' ∧ dev x' = dev x ∧ blockno x' = blockno x ∧
          (valid x ≠ 0 → valid x' = valid x ∧ data x' = data x)) as Hsame.
  { intros t Ht. apply contents_stable. by rewrite Ht, Hx. }
  assert (∀ t t' b, (∃ x', bufs t !! j = Some x' ∧ dev x' = dev x ∧
                       blockno x' = blockno x ∧
                       (valid x ≠ 0 → valid x' = valid x ∧ data x' = data x)) →
    after (bread_rest b t) = Some t' →
    ∃ x', bufs t' !! j = Some x' ∧ dev x' = dev x ∧ blockno x' = blockno x ∧
          (valid x ≠ 0 → valid x' = valid x ∧ data x' = data x)) as Hrest.
  { intros t t' b (x1 & Hx1 & Hd1 & Hb1 & Hv1) [Hk _]%bread_rest_keeps.
    destruct (Hk j x1 Hx1) as (x2 & Hx2 & Hd2 & Hb2 & Hv2).
    exists x2. split; [done|]. split; [congruence|]. split; [congruence|].
    intros Hv. destruct (Hv1 Hv) as [E1 E2].
    destruct Hv2 as [E3 E4]; [congruence|]. split; congruence. }
  destruct a as [p dv bn|p dv bn|p b|p b|b|b|p b|p b]; cbn [exec] in Ha.
  - apply after_bind_ret in Ha. apply bget_keeps in Ha as [Hk _].
    apply contents_stable. by apply Hk.
  - apply after_bind_ret in Ha. rewrite bread_eq in Ha.
    apply after_bind in Ha as [[b Hg]|(b & s1 & Hg & Ha)].
    + destruct (bget_keeps s p dv bn s') as [Hk _]; [by rewrite Hg|].
      apply contents_stable. by apply Hk.
    + destruct (bget_keeps s p dv bn s1) as [Hk _]; [by rewrite Hg|].
      eapply Hrest; [|done]. apply contents_stable. by apply Hk.
  - rewrite after_forget in Ha.
    apply bwrite_trace in Ha as (y & _ & _ & Hb & _). apply Hsame.
    intros i. by rewrite Hb.
  - rewrite after_forget in Ha. apply brelse_keeps in Ha as [Hk _].
    by apply Hsame.
  - rewrite after_forget in Ha. apply bpin_keeps in Ha as [Hk _].
    by apply Hsame.
  - rewrite after_forget in Ha. apply bunpin_keeps in Ha as [Hk _].
    by apply Hsame.
  - apply after_bind_ret in Ha. apply bget_wake_keeps in Ha as [Hk _].
    by apply Hsame.
  - apply after_bind_ret in Ha. unfold bread_wake in Ha.
    apply after_bind in Ha as [[b' Hg]|(b' & s1 & Hg & Ha)].
    + destruct (bget_wake_keeps s p b s') as [Hk _]; [by rewrite Hg|].
      by apply Hsame.
    + destruct (bget_wake_keeps s p b s1) as [Hk _]; [by rewrite Hg|].
      eapply Hrest; [|done]. by apply Hsame.
Qed.

(** X14, on the example: a [bget] of another block of the same bucket
    while buffer 0 is held. *)
Lemma X14_referenced_buffer_is_stable_witness :
  ∃ s', after (exec (Get 2 1 18) ex_held) = Some s' ∧
        ∃ x', bufs s' !! 0%nat = Some x' ∧ dev x' = 1 ∧ blockno x' = 5 ∧
              valid x' = 1.
Proof.
  assert (∃ s', after (exec (Get 2 1 18) ex_held) = Some s') as [s' Ha]
    by (eexists; vm_compute; reflexivity).
  exists s'. split; [exact Ha|].
  destruct (X14_referenced_buffer_is_stable (Get 2 1 18) ex_held s' 0%nat
              (Buf 1 1 5 (Some 1%nat) 1 None None []) Ha eq_refl)
    as (x' & Hx' & Hd & Hb & Hv); [done|].
  exists x'. split; [done|]. split; [done|]. split; [done|].
  by destruct Hv.
Defined.

(** X15.  A sleep-lock stays with its holder.  Whatever the state, the
    only call that ends with the sleep-lock of a buffer no longer held by
    the context that held it is the [brelse] of that buffer by that
    context: no [bget], [bread], [bwrite], [bpin] or [bunpin], and no
    [brelse] of another buffer or by another context, takes the lock
    away. *)
Theorem X15_lock_stays_with_holder a s s' j x q :
  after (exec a s) = Some s' → bufs s !! j = Some x → lock x = Some q →
  a ≠ Release q j →
  ∃ x', bufs s' !! j = Some x' ∧ lock x' = Some q.
Proof.
  intros Ha Hx Hl Hne.
  assert (lock <$> bufs s !! j = Some (Some q)) as Hj by (by rewrite Hx, <- Hl).
  assert (∀ t, lock <$> bufs t !! j = Some (Some q) →
    ∃ x', bufs t !! j = Some x' ∧ lock x' = Some q) as Hfin.
  { intros t (x' & Hx' & E)%fmap_Some. exists x'. by rewrite Hx'. }
  apply Hfin.
  destruct a as [p dv bn|p dv bn|p b|p b|b|b|p b|p b]; cbn [exec] in Ha.
  - apply after_bind_ret in Ha. apply bget_keeps in Ha as [_ Hk]. by apply Hk.
  - apply after_bind_ret in Ha. rewrite bread_eq in Ha.
    apply after_bind in Ha as [[b Hg]|(b & s1 & Hg & Ha)].
    + destruct (bget_keeps s p dv bn s') as [_ Hk]; [by rewrite Hg|].
      by apply Hk.
    + destruct (bget_keeps s p dv bn s1) as [_ Hk]; [by rewrite Hg|].
      apply bread_rest_keeps in Ha as [_ Hk']. rewrite Hk'. by apply Hk.
  - rewrite after_forget in Ha.
    apply bwrite_trace in Ha as (y & _ & _ & Hb & _). by rewrite Hb.
  - rewrite after_forget in Ha. apply brelse_keeps in Ha as (_ & Hk & Hb).
    destruct (decide (j = b)) as [->|Hjb]; [|by rewrite Hk].
    rewrite Hj in Hb. injection Hb as ->. done.
  - rewrite after_forget in Ha. apply bpin_keeps in Ha as [_ Hk].
    by rewrite Hk.
  - rewrite after_forget in Ha. apply bunpin_keeps in Ha as [_ Hk].
    by rewrite Hk.
  - apply after_bind_ret in Ha. apply bget_wake_keeps in Ha as [_ Hk].
    by apply Hk.
  - apply after_bind_ret in Ha. unfold bread_wake in Ha.
    apply after_bind in Ha as [[b' Hg]|(b' & s1 & Hg & Ha)].
    + destruct (bget_wake_keeps s p b s') as [_ Hk]; [by rewrite Hg|].
      by apply Hk.
    + destruct (bget_wake_keeps s p b s1) as [_ Hk]; [by rewrite Hg|].
      apply bread_rest_keeps in Ha as [_ Hk']. rewrite Hk'. by apply Hk.
Qed.

(** X15, on the example: context 2 asks for the block that context 1
    holds, and goes to sleep; the lock is still with context 1. *)
Lemma X15_lock_stays_with_holder_witness :
  ∃ s', exec (Read 2 1 5) ex_held = Sleep 0 s' ∧
        ∃ x', bufs s' !! 0%nat = Some x' ∧ lock x' = Some 1%nat.
Proof.
  assert (∃ s', exec (Read 2 1 5) ex_held = Sleep 0 s') as [s' Hs]
    by (eexists; vm_compute; reflexivity).
  exists s'. split; [exact Hs|].
  apply (X15_lock_stays_with_holder (Read 2 1 5) ex_held s' 0%nat
           (Buf 1 1 5 (Some 1%nat) 1 None None []) 1%nat);
    [by rewrite Hs|done..].
Defined.

(** X16.  The list of a bucket is kept in the order of arrival.  In a state
    of the invariant a [bget] that misses puts its buffer in front of the
    list of the block's bucket and leaves the rest of the list as it was;
    the [brelse] of the last reference takes the buffer out of its list
    where it stands and keeps the order of the other buffers. *)
Theorem X16_lists_keep_arrival_order s p b :
  inv s →
  (∀ dv bn, miss s dv bn → first_free (bufs s) 0 = Some b →
     ∃ s', bget p dv bn s = Ret b s' ∧
           bucket_list s' (bucket_of bn) = b :: bucket_list s (bucket_of bn)) ∧
  (∀ x, bufs s !! b = Some x → lock x = Some p → refcnt x = 1 →
     ∃ s' l1 l2,
       brelse p b s = Ret tt s' ∧
       bucket_list s (bucket_of (blockno x)) = l1 ++ b :: l2 ∧
       bucket_list s' (bucket_of (blockno x)) = l1 ++ l2).
Proof.
  intros [L Hinv]. pose proof Hinv as (Hwf & _). split.
  - intros dv bn Hm Hff.
    destruct (inv_bget_miss s L p dv bn b Hinv Hm Hff)
      as (s' & h & l & x & x' & _ & HL & _ & _ & _ & Hg & (Hwf' & _) & _).
    exists s'. split; [done|].
    destruct (wf_bucket_list _ _ _ _ Hwf HL) as [-> _].
    apply (wf_bucket_list _ _ _ _ Hwf').
    apply list_lookup_insert_eq. by eapply lookup_lt_Some.
  - intros x Hx Hl Hr.
    destruct (inv_brelse_last s L p b x Hinv Hx Hl Hr)
      as (s' & h & l1 & l2 & _ & HL & Hrel & (Hwf' & _) & _).
    exists s', l1, l2. split; [done|].
    split; [by apply (wf_bucket_list _ _ _ _ Hwf)|].
    apply (wf_bucket_list _ _ _ _ Hwf').
    apply list_lookup_insert_eq. by eapply lookup_lt_Some.
Qed.

(** X16, on the example: a second block of bucket 5 is asked for while
    buffer 0 is on the list, and buffer 0 is released. *)
Lemma X16_lists_keep_arrival_order_witness :
  inv ex_held ∧ miss ex_held 1 18 ∧ bucket_list ex_held 5 = [0%nat] ∧
  (∃ s', bget 2 1 18 ex_held = Ret 1%nat s' ∧
         bucket_list s' 5 = [1; 0]%nat) ∧
  (∃ s', brelse 1 0 ex_held = Ret tt s' ∧ bucket_list s' 5 = []).
Proof.
  assert (miss ex_held 1 18) as Hm.
  { apply miss_find. eexists. split; vm_compute; reflexivity. }
  assert (bucket_list ex_held 5 = [0%nat]) as Hb by (vm_compute; reflexivity).
  split; [apply ex_held_inv|]. split; [exact Hm|]. split; [exact Hb|].
  destruct (X16_lists_keep_arrival_order ex_held) with (p := 2%nat) (b := 1%nat)
    as [H1 _]; [apply ex_held_inv|].
  destruct (X16_lists_keep_arrival_order ex_held) with (p := 1%nat) (b := 0%nat)
    as [_ H2]; [apply ex_held_inv|].
  split.
  - destruct (H1 1 18 Hm eq_refl) as (s' & Hg & Hl). exists s'.
    split; [done|]. change (bucket_of 18) with 5%nat in Hl.
    by rewrite Hl, Hb.
  - destruct (H2 (Buf 1 1 5 (Some 1%nat) 1 None None []) eq_refl eq_refl
                eq_refl) as (s' & l1 & l2 & Hr & Hl & Hl').
    exists s'. split; [done|]. simpl in Hl, Hl'.
    change (bucket_of 5) with 5%nat in Hl, Hl'. rewrite Hb in Hl.
    destruct l1 as [|a [|a' l1]]; simpl in Hl; [|by destruct l2|done].
    injection Hl as <-. done.
Defined.
